(** * xsd2sqlschemaerd: schema-to-relational mapping engine and table
      dependency resolver, embedded from [src/xsd2sqlschemaerd.py].

    Python [str] values are modelled as [string] (sequences of code points
    below 256), dictionaries as [gmap], Python sets as [gset], the module's
    global registries as the fields of one [state] record that is threaded
    through every call, and exceptions as the [Raise] branch of [result].

    Graphs are objects in a store addressed by reference, so that
    [graph.copy()] and the in-place [remove_edge] keep their meaning.  The
    three networkx algorithms the resolver calls ([find_cycle],
    [is_directed_acyclic_graph], [topological_sort]) are an interface with
    the contract the library documents; a reference implementation shows
    that the contract can be met. *)

From Stdlib Require Import ZArith Ascii String List Lia.
From stdpp Require Import base option list gmap strings pretty.

Local Open Scope string_scope.

(** ** Python string primitives *)

Module PyStr.

(** [str.isspace] on one character: the ASCII white space 9-13 and 32,
    the separators 28-31, and the Latin-1 characters 0x85 and 0xA0. *)
Definition isspace (c : ascii) : bool :=
  let n := nat_of_ascii c in
  (((9 <=? n) && (n <=? 13)) || ((28 <=? n) && (n <=? 32))
   || (n =? 133) || (n =? 160))%nat.

(** [s.lstrip()] *)
Fixpoint lstrip (s : string) : string :=
  match s with
  | EmptyString => EmptyString
  | String c s' => if isspace c then lstrip s' else s
  end.

(** [s.rstrip()] and [s.strip()] *)
Definition rstrip (s : string) : string :=
  String.rev (lstrip (String.rev s)).
Definition strip (s : string) : string := rstrip (lstrip s).

(** [s.replace(old, new)]: every non-overlapping occurrence of [old],
    scanning from the left.  [skip] counts the characters of the current
    occurrence that remain to be consumed. *)
Fixpoint replace_go (old new : string) (skip : nat) (s : string) : string :=
  match s with
  | EmptyString => EmptyString
  | String c s' =>
      match skip with
      | S k => replace_go old new k s'
      | O =>
          if String.prefix old s
          then new +:+ replace_go old new (String.length old - 1) s'
          else String c (replace_go old new 0 s')
      end
  end.

(** With an empty [old], Python puts [new] before every character and at
    the end. *)
Fixpoint intersperse (new s : string) : string :=
  match s with
  | EmptyString => new
  | String c s' => new +:+ String c (intersperse new s')
  end.

Definition replace (old new s : string) : string :=
  match old with
  | EmptyString => intersperse new s
  | _ => replace_go old new 0 s
  end.

(** [s.split(sep)] for a non-empty [sep]; the head of the result is the
    piece being read. *)
Fixpoint split_go (sep : string) (skip : nat) (s : string) : list string :=
  match s with
  | EmptyString => [EmptyString]
  | String c s' =>
      match skip with
      | S k => split_go sep k s'
      | O =>
          if String.prefix sep s
          then EmptyString :: split_go sep (String.length sep - 1) s'
          else match split_go sep 0 s' with
               | h :: t => String c h :: t
               | [] => [String c EmptyString]
               end
      end
  end.

Definition split (sep s : string) : list string := split_go sep 0 s.

(** [s.split(c, 1)] for a one-character separator: [Some (before, after)]
    stands for the two-element list, [None] for the one-element list. *)
Fixpoint split_once (c : ascii) (s : string) : option (string * string) :=
  match s with
  | EmptyString => None
  | String a s' =>
      if Ascii.eqb a c then Some (EmptyString, s')
      else match split_once c s' with
           | Some (b, r) => Some (String a b, r)
           | None => None
           end
  end.

(** [c in s] for one character. *)
Fixpoint has_char (c : ascii) (s : string) : bool :=
  match s with
  | EmptyString => false
  | String a s' => Ascii.eqb a c || has_char c s'
  end.

(** [s.lower()] on Latin-1: A-Z and the accented capitals 0xC0-0xDE
    (0xD7, the multiplication sign, excepted) move up by 32. *)
Definition lower_char (c : ascii) : ascii :=
  let n := nat_of_ascii c in
  if (((65 <=? n) && (n <=? 90))
      || ((192 <=? n) && (n <=? 222) && negb (n =? 215)))%nat
  then ascii_of_nat (n + 32) else c.

Fixpoint lower (s : string) : string :=
  match s with
  | EmptyString => EmptyString
  | String c s' => String (lower_char c) (lower s')
  end.

(** Truth value of a string. *)
Definition truthy (s : string) : bool :=
  match s with EmptyString => false | _ => true end.

Definition is_decimal (c : ascii) : bool :=
  let n := nat_of_ascii c in ((48 <=? n) && (n <=? 57))%nat.

(** [s.isdigit()]: non-empty and made of digits only.  Besides 0-9,
    Latin-1 has the superscripts 0xB2, 0xB3 and 0xB9. *)
Definition isdigit_char (c : ascii) : bool :=
  let n := nat_of_ascii c in
  is_decimal c || ((n =? 178) || (n =? 179) || (n =? 185))%nat.

Fixpoint all_chars (p : ascii -> bool) (s : string) : bool :=
  match s with
  | EmptyString => true
  | String c s' => p c && all_chars p s'
  end.

Definition isdigit (s : string) : bool := truthy s && all_chars isdigit_char s.

(** [int(s)]: optional surrounding white space, an optional sign, then
    decimal digits, single underscores allowed between digits.  [None]
    stands for [ValueError].  Two things are not modelled: CPython does not
    strip the separators 28-31 here (XML 1.0 cannot carry them), and it
    refuses more than 4300 digits. *)
Fixpoint digits_go (acc : Z) (after_digit : bool) (s : string) : option Z :=
  match s with
  | EmptyString => if after_digit then Some acc else None
  | String c s' =>
      if is_decimal c
      then digits_go (10 * acc + Z.of_nat (nat_of_ascii c - 48)) true s'
      else if Ascii.eqb c "_" && after_digit
           then digits_go acc false s'
           else None
  end.

Definition int (s : string) : option Z :=
  match strip s with
  | String "+" r => digits_go 0 false r
  | String "-" r => Z.opp <$> digits_go 0 false r
  | r => digits_go 0 false r
  end.

(** [str(n)] for an integer. *)
Definition of_int (n : Z) : string := pretty n.

End PyStr.

(** ** Results, exceptions and the run state *)

(** The exceptions the modelled functions can raise. *)
Inductive exn : Type :=
  | TypeError
  | KeyError
  | ValueError
  | AttributeError
  | IndexError
  | InvalidXMLType (msg : string)
  | MaxRecursion
  | NetworkXError
  | NetworkXUnfeasible
  | BadReference   (* model only: a reference outside the object store *)
  | OutOfFuel.     (* model only: a loop that used up its fuel *)

Inductive result (A : Type) : Type :=
  | Ok (a : A)
  | Raise (e : exn).
Arguments Ok {A} a.
Arguments Raise {A} e.

(** The module-level registries, and the relationship dictionary that the
    walker passes by reference to every call. *)
Record state : Type := mkState {
  NAMESPACE_DICT : gmap string string;
  USER_TYPES : gmap string (option string);
  HASH_TABLE_TABLES_GENERATED : gmap string Z;
  TABLE_COLUMNS : gmap string (gset string);
  dict_relationships : gmap string (list (string * string))
}.

Definition StateM (S A : Type) : Type := S -> result (A * S).

Definition ret {S A} (a : A) : StateM S A := fun st => Ok (a, st).
Definition raise {S A} (e : exn) : StateM S A := fun _ => Raise e.
Definition bind {S A B} (m : StateM S A) (k : A -> StateM S B) : StateM S B :=
  fun st => match m st with
            | Ok (a, st') => k a st'
            | Raise e => Raise e
            end.
Definition lift {S A} (r : result A) : StateM S A :=
  fun st => match r with Ok a => Ok (a, st) | Raise e => Raise e end.
Definition gets {S A} (f : S -> A) : StateM S A := fun st => Ok (f st, st).
Definition modify {S} (f : S -> S) : StateM S unit := fun st => Ok (tt, f st).

Notation "'let*' x := m 'in' k" := (bind m (fun x => k))
  (at level 10, x name, m at level 100, k at level 200).

(** The walker and the accumulator run over the registries. *)
Abbreviation M := (StateM state).

Definition rbind {A B} (r : result A) (k : A -> result B) : result B :=
  match r with Ok a => k a | Raise e => Raise e end.
Notation "'let+' x := m 'in' k" := (rbind m (fun x => k))
  (at level 10, x name, m at level 100, k at level 200).

Definition set_TABLE_COLUMNS (f : gmap string (gset string) -> gmap string (gset string))
    (st : state) : state :=
  mkState (NAMESPACE_DICT st) (USER_TYPES st) (HASH_TABLE_TABLES_GENERATED st)
          (f (TABLE_COLUMNS st)) (dict_relationships st).
Definition set_HASH_TABLE_TABLES_GENERATED (f : gmap string Z -> gmap string Z)
    (st : state) : state :=
  mkState (NAMESPACE_DICT st) (USER_TYPES st) (f (HASH_TABLE_TABLES_GENERATED st))
          (TABLE_COLUMNS st) (dict_relationships st).
Definition set_dict_relationships
    (f : gmap string (list (string * string)) -> gmap string (list (string * string)))
    (st : state) : state :=
  mkState (NAMESPACE_DICT st) (USER_TYPES st) (HASH_TABLE_TABLES_GENERATED st)
          (TABLE_COLUMNS st) (f (dict_relationships st)).

(** ** Identifier normalizer *)

(** [x in d.values()] *)
Definition in_values (x : string) (d : gmap string string) : bool :=
  bool_decide (x ∈ (map_to_list d).*2).

(** [process_prefix(value, namespace_dict, ns)]; [namespace_dict.get(ns)] is
    [None] for an unregistered [ns], and [None.replace] raises
    [AttributeError]. *)
Definition process_prefix (value : string) (namespace_dict : gmap string string)
    (ns : string) : result string :=
  let two_points := ":" in
  match PyStr.split_once ":" value with
  | Some (prefix, rest) =>
      let prefix_two_points := prefix +:+ ":" in
      if in_values prefix_two_points namespace_dict
      then Ok (prefix +:+ "_" +:+ rest)
      else match namespace_dict !! ns with
           | Some p => Ok (PyStr.replace two_points "" p +:+ "_" +:+ rest)
           | None => Raise AttributeError
           end
  | None =>
      match namespace_dict !! ns with
      | Some p => Ok (PyStr.replace two_points "" p +:+ "_" +:+ value)
      | None => Raise AttributeError
      end
  end.

(** [sql_normalize(string, ns)], reading the global [NAMESPACE_DICT]. *)
Definition sql_normalize (nsd : gmap string string) (string0 : option string)
    (ns : option string) : result string :=
  let string1 := match string0 with
                 | Some s => if PyStr.truthy s then s else ""
                 | None => ""
                 end in
  let string2 := PyStr.lstrip string1 in
  let string3 := PyStr.replace "-" "_" string2 in
  let string4 := PyStr.replace "." "_" string3 in
  let string5 := PyStr.replace " " "_" string4 in
  match ns with
  | Some n =>
      if bool_decide (1 < size nsd)
         && negb (String.eqb (PyStr.lstrip n) "")
         && negb (String.eqb (PyStr.lstrip string5) "")
      then process_prefix string5 nsd n
      else Ok string5
  | None => Ok string5
  end.

(** ** Table / column accumulator *)

(** [create_primary_key(table_name, ns)]; [table_name + 'Id'] raises
    [TypeError] when [table_name] is [None]. *)
Definition create_primary_key (nsd : gmap string string)
    (table_name : option string) (ns : string) : result string :=
  match table_name with
  | None => Raise TypeError
  | Some t =>
      let+ n := sql_normalize nsd (Some (t +:+ "Id")) (Some ns) in
      Ok (n +:+ " bigint PRIMARY KEY NOT NULL")
  end.

(** A string is blank when [s.lstrip() == ''] (or it is [None]). *)
Definition not_blank (cols : option string) : bool :=
  match cols with
  | Some c => negb (String.eqb (PyStr.lstrip c) "")
  | None => false
  end.

(** [create_table_in_sql_sentence(cols, table_name, ns)].  The symmetric
    difference the source computes is not used afterwards. *)
Definition create_table_in_sql_sentence (cols : option string)
    (table_name : option string) (ns : string) : M unit :=
  let* nsd := gets NAMESPACE_DICT in
  let* normalized_table_id := lift (create_primary_key nsd table_name ns) in
  let* normalized_table_name := lift (sql_normalize nsd table_name (Some ns)) in
  let new_cols :=
    if not_blank cols
    then normalized_table_id :: PyStr.split ", " (default "" cols)
    else [normalized_table_id] in
  let* tc := gets TABLE_COLUMNS in
  let* _ :=
    match tc !! normalized_table_name with
    | Some existing_cols_set =>
        modify (set_TABLE_COLUMNS
                  <[normalized_table_name := existing_cols_set ∪ list_to_set new_cols]>)
    | None =>
        modify (set_TABLE_COLUMNS <[normalized_table_name := list_to_set new_cols]>)
    end in
  modify (set_HASH_TABLE_TABLES_GENERATED <[normalized_table_name := 1%Z]>).

(** [table_was_created(el, ns)], on the element's [name] attribute. *)
Definition table_was_created (name : option string) (ns : string) : M bool :=
  let* nsd := gets NAMESPACE_DICT in
  let* n := lift (sql_normalize nsd name (Some ns)) in
  let* h := gets HASH_TABLE_TABLES_GENERATED in
  ret (bool_decide (is_Some (h !! n))).

(** ** Type registry *)

(** The literal of [DEFX2SQLSERVER]; [None] marks the unsupported built-in
    categories. *)
Definition DEFX2SQLSERVER_items : list (string * option string) :=
  [ ("string", Some "nvarchar(max)");
    ("boolean", Some "bit");
    ("decimal", Some "decimal(18,2)");
    ("float", Some "float");
    ("double", Some "float");
    ("duration", Some "time");
    ("dateTime", Some "datetime2");
    ("time", Some "time");
    ("date", Some "date");
    ("gYearMonth", Some "datetime2");
    ("gYear", Some "datetime2");
    ("gMonthDay", Some "datetime2");
    ("gDay", Some "datetime2");
    ("gMonth", Some "datetime2");
    ("hexBinary", Some "varbinary(max)");
    ("base64Binary", Some "varbinary(max)");
    ("anyURI", Some "nvarchar(max)");
    ("QName", None);
    ("NOTATION", None);
    ("normalizedString", Some "nvarchar(max)");
    ("token", Some "nvarchar(max)");
    ("language", Some "nvarchar(max)");
    ("NMTOKEN", None);
    ("NMTOKENS", None);
    ("Name", Some "nvarchar(max)");
    ("NCName", Some "nvarchar(max)");
    ("ID", None);
    ("IDREF", None);
    ("IDREFS", None);
    ("ENTITY", None);
    ("ENTITIES", None);
    ("integer", Some "bigint");
    ("nonPositiveInteger", Some "bigint");
    ("negativeInteger", Some "bigint");
    ("long", Some "bigint");
    ("int", Some "int");
    ("short", Some "smallint");
    ("byte", Some "tinyint");
    ("nonNegativeInteger", Some "bigint");
    ("unsignedLong", Some "bigint");
    ("unsignedInt", Some "int");
    ("unsignedShort", Some "smallint");
    ("unsignedByte", Some "tinyint");
    ("positiveInteger", Some "bigint") ].

Definition DEFX2SQLSERVER : gmap string (option string) :=
  list_to_map DEFX2SQLSERVER_items.

(** [value % self] of [SDict]: applied to [None] the operator raises
    [TypeError]; applied to a string without conversion specifier and a
    mapping it returns the string.  No string of the table has a [%]. *)
Definition percent_self (value : option string) : result string :=
  match value with
  | None => Raise TypeError
  | Some v => Ok v
  end.

(** [SDict.get(item)]: only [KeyError] is caught. *)
Definition SDict_get (d : gmap string (option string)) (item : string)
    : result (option string) :=
  match d !! item with
  | None => Ok None
  | Some value => let+ v := percent_self value in Ok (Some v)
  end.

(** [x in DEFX2SQLSERVER.values()] for a string [x]. *)
Definition in_DEFX2SQLSERVER_values (x : string) : bool :=
  bool_decide (Some x ∈ DEFX2SQLSERVER_items.*2).

(** ** The parsed schema tree *)

#[local] Unset Elimination Schemes.
Inductive Element : Type :=
  | mkElement (tag : string) (attrib : gmap string string) (children : list Element).

#[local] Set Elimination Schemes.

Definition tag (e : Element) : string :=
  match e with mkElement t _ _ => t end.
Definition attrib (e : Element) : gmap string string :=
  match e with mkElement _ a _ => a end.
Definition children (e : Element) : list Element :=
  match e with mkElement _ _ c => c end.

(** [el.get(key)] and [el.get(key, default)] *)
Definition get (e : Element) (key : string) : option string := attrib e !! key.
Definition get_default (e : Element) (key dflt : string) : string :=
  default dflt (attrib e !! key).

(** [el.findall(ns + name)]: the direct children with that tag. *)
Definition findall (e : Element) (qname : string) : list Element :=
  filter (fun c => tag c = qname) (children e).

(** The descendants in document order, for [findall(".//" + tag)]. *)
Fixpoint descendants (e : Element) : list Element :=
  match e with
  | mkElement _ _ cs =>
      (fix go (l : list Element) : list Element :=
         match l with
         | [] => []
         | c :: l' => c :: descendants c ++ go l'
         end) cs
  end.

(** [a or b] on optional strings. *)
Definition py_or (a b : option string) : option string :=
  match a with
  | Some s => if PyStr.truthy s then a else b
  | None => b
  end.

(** [find_complex_type(xsd_tree, ns, type_name)] *)
Definition find_complex_type (xsd_tree : Element) (ns : string)
    (type_name : option string) : option Element :=
  match type_name with
  | None => None
  | Some n =>
      let complex_types :=
        filter (fun c => tag c = ns +:+ "complexType") (descendants xsd_tree) in
      head (filter (fun ct => get ct "name" = Some n) complex_types)
  end.

Definition is_complex_type (root : Element) (ns : string)
    (type_name : option string) : bool :=
  match find_complex_type root ns type_name with
  | Some _ => true
  | None => false
  end.

(** ** Cardinality and nullability *)

Definition CONSTANT_COUNTER_CHOICE_STR : string := "/*counter_choice=".

(** [generate_str_counter_choice(counter_choice)] *)
Definition generate_str_counter_choice (counter_choice : Z) : string :=
  if (0 <? counter_choice)%Z
  then CONSTANT_COUNTER_CHOICE_STR +:+ PyStr.of_int counter_choice +:+ "*/"
  else "".

Definition py_int (s : string) : result Z :=
  match PyStr.int s with
  | Some z => Ok z
  | None => Raise ValueError
  end.

(** [get_nullable_attribute(el, col_definition)] *)
Definition get_nullable_attribute (el : Element) (col_definition : string)
    : result string :=
  let+ min_occurs := py_int (get_default el "minOccurs" "1") in
  let nillable := String.eqb (PyStr.lower (get_default el "nillable" "false")) "true" in
  if (min_occurs =? 0)%Z || nillable
  then Ok (col_definition +:+ " NULL")
  else Ok (col_definition +:+ " NOT NULL").

(** [get_nullable_attribute_from_col_definition(counter_choice, el, col_definition)] *)
Definition get_nullable_attribute_from_col_definition (counter_choice : Z)
    (el : Element) (col_definition : string) : result string :=
  if (0 <? counter_choice)%Z
  then Ok (col_definition +:+ " NULL" +:+ generate_str_counter_choice counter_choice)
  else get_nullable_attribute el col_definition.

(** The upper bound inside [get_cardinality]: ['*'] or an integer. *)
Inductive max_occurs_t : Type :=
  | MaxStar
  | MaxInt (n : Z).

Definition max_occurs_eq_star (m : max_occurs_t) : bool :=
  match m with MaxStar => true | MaxInt _ => false end.
Definition max_occurs_eq_int (m : max_occurs_t) (k : Z) : bool :=
  match m with MaxStar => false | MaxInt n => (n =? k)%Z end.
Definition max_occurs_str (m : max_occurs_t) : string :=
  match m with MaxStar => "*" | MaxInt n => PyStr.of_int n end.

(** [get_cardinality(element)] *)
Definition get_cardinality (element : Element) : result string :=
  let+ min_occurs := py_int (get_default element "minOccurs" "1") in
  let max_occurs0 := get_default element "maxOccurs" "1" in
  let+ max_occurs :=
    if String.eqb max_occurs0 "unbounded" then Ok MaxStar
    else let+ n := py_int max_occurs0 in Ok (MaxInt n) in
  if (min_occurs =? 1)%Z && max_occurs_eq_star max_occurs then Ok "1..*"
  else if (min_occurs =? 0)%Z && max_occurs_eq_int max_occurs 1 then Ok "0..1"
  else Ok (PyStr.of_int min_occurs +:+ ".." +:+ max_occurs_str max_occurs).

(** [cardinality_right_is_n(cardinality)]; [s[1]] raises [IndexError] when
    the split has one piece. *)
Definition cardinality_right_is_n (cardinality : string) : result bool :=
  let s := PyStr.split ".." cardinality in
  match s !! 1%nat with
  | None => Raise IndexError
  | Some s1 =>
      if String.eqb s1 "*" then Ok true
      else if PyStr.isdigit s1
           then let+ n := py_int s1 in Ok (1 <? n)%Z
           else Ok false
  end.

(** ** Relationship records *)

(** [get_foreign_key_name(field_fk_name, parent_table_fk)] *)
Definition get_foreign_key_name (field_fk_name parent_table_fk : string) : string :=
  "FK_" +:+ parent_table_fk +:+ "_" +:+ field_fk_name.

Definition relationship_key (parent_table foreign_key_name : string) : string :=
  parent_table +:+ ";" +:+ foreign_key_name.

(** [remove_relationship_dict_relationships(dict_relationships, parent_table,
    foreign_key_name)] *)
Definition remove_relationship_dict_relationships
    (parent_table foreign_key_name : string) : M unit :=
  let key := relationship_key parent_table foreign_key_name in
  let* d := gets dict_relationships in
  if bool_decide (is_Some (d !! key))
  then modify (set_dict_relationships (delete key))
  else ret tt.

(** [add_relationship_dict_relationships(dict_relationships, parent_table,
    foreign_key_name, table_reference_name, cardinality,
    replace_previous_relationship)] *)
Definition add_relationship_dict_relationships
    (parent_table foreign_key_name table_reference_name cardinality : string)
    (replace_previous_relationship : bool) : M unit :=
  let key := relationship_key parent_table foreign_key_name in
  let* d := gets dict_relationships in
  if negb (bool_decide (is_Some (d !! key))) || replace_previous_relationship
  then modify (set_dict_relationships <[key := [(table_reference_name, cardinality)]]>)
  else ret tt.

(** [get_parent_table_name(parent, ns)] *)
Definition get_parent_table_name (nsd : gmap string string)
    (parent : option string) (ns : string) : result string :=
  match parent with
  | Some _ => sql_normalize nsd parent (Some ns)
  | None => Ok ""
  end.

(** ** Foreign-key and cardinality resolver *)

(** ["CONSTRAINT %s FOREIGN KEY (%s) REFERENCES %s(%s)" % (foreign_key_name,
    column, table, key)], the format both branches of [create_fk_field] use. *)
Definition fk_constraint (foreign_key_name column table key : string) : string :=
  "CONSTRAINT " +:+ foreign_key_name +:+ " FOREIGN KEY (" +:+ column
  +:+ ") REFERENCES " +:+ table +:+ "(" +:+ key +:+ ")".

(** [create_fk_field(el, cols, parent, field_fk_name, table_reference_name,
    counter_choice, dict_relationships, ns)] *)
Definition create_fk_field (el : Element) (cols : option string)
    (parent : option string) (field_fk_name table_reference_name : option string)
    (counter_choice : Z) (ns : string) : M string :=
  let* nsd := gets NAMESPACE_DICT in
  let* field := lift (match field_fk_name with
                      | Some f => Ok f
                      | None => Raise TypeError
                      end) in
  let* fk_field_normalized := lift (sql_normalize nsd (Some (field +:+ "Id")) (Some ns)) in
  let* parent_table_fk := lift (get_parent_table_name nsd parent ns) in
  let* table_reference_name_fk_normalized :=
    lift (sql_normalize nsd table_reference_name (Some ns)) in
  let foreign_key_name := get_foreign_key_name fk_field_normalized parent_table_fk in
  let* cardinality := lift (get_cardinality el) in
  let* many := lift (cardinality_right_is_n cardinality) in
  if many then
    let foreign_key_name_update := get_foreign_key_name field parent_table_fk in
    let* _ := remove_relationship_dict_relationships parent_table_fk foreign_key_name in
    let* _ := add_relationship_dict_relationships parent_table_fk foreign_key_name_update
                table_reference_name_fk_normalized cardinality true in
    let number := 0%Z in
    let new_col_name := parent_table_fk +:+ "Id" +:+ "_" +:+ PyStr.of_int number in
    let new_col_definition0 := new_col_name +:+ " bigint" in
    let* new_col_definition :=
      lift (get_nullable_attribute_from_col_definition counter_choice el new_col_definition0) in
    let cols_update :=
      new_col_definition +:+ ", " +:+
      fk_constraint foreign_key_name_update new_col_name parent_table_fk
        (parent_table_fk +:+ "Id") in
    let* _ := create_table_in_sql_sentence (Some cols_update) table_reference_name ns in
    if negb (not_blank cols)
    then lift (create_primary_key nsd parent ns)
    else ret (default "" cols)
  else
    let* _ := add_relationship_dict_relationships parent_table_fk foreign_key_name
                table_reference_name_fk_normalized cardinality false in
    let new_col_definition0 := fk_field_normalized +:+ " bigint" in
    let* new_col_definition :=
      lift (get_nullable_attribute_from_col_definition counter_choice el new_col_definition0) in
    let '(cols1, comma_space) :=
      if negb (not_blank cols) then ("", "") else (default "" cols, ", ") in
    let cols2 := cols1 +:+ (comma_space +:+ new_col_definition) in
    let cols3 :=
      cols2 +:+
      (", " +:+ fk_constraint foreign_key_name fk_field_normalized
                  table_reference_name_fk_normalized
                  (table_reference_name_fk_normalized +:+ "Id")) in
    let* _ := create_table_in_sql_sentence (Some "") table_reference_name ns in
    ret cols3.

(** ** Schema walker *)

(** [concat_cols(cols, previous_cols)] *)
Definition concat_cols (cols previous_cols : option string) : option string :=
  match previous_cols with
  | None => cols
  | Some p =>
      if String.eqb (PyStr.lstrip p) "" then cols
      else if not_blank cols then Some (default "" cols +:+ ", " +:+ p)
           else previous_cols
  end.

(** [not x] for an optional string. *)
Definition py_not (x : option string) : bool :=
  match x with
  | Some s => negb (PyStr.truthy s)
  | None => true
  end.

(** ["%s" % x] for an optional string. *)
Definition py_str (x : option string) : string :=
  match x with Some s => s | None => "None" end.

(** [process_element(el, parent, fail, normalize, counter_choice, cols, ns,
    root, dict_relationships)].  The result is [None] where the source
    reaches the end of the function body without a [return]. *)
Definition process_element (el : Element) (parent : option string)
    (fail normalize : bool) (counter_choice : Z) (cols : option string)
    (ns : string) (root : Element) : M (option string) :=
  let* nsd := gets NAMESPACE_DICT in
  let* ns_table_name := lift (sql_normalize nsd (get el "name") (Some ns)) in
  let* generated := gets HASH_TABLE_TABLES_GENERATED in
  if bool_decide (is_Some (generated !! ns_table_name))
     && match parent with Some p => negb (String.eqb p "") | None => false end
  then
    let table_name := get el "name" in
    let* cols' := create_fk_field el cols parent table_name table_name counter_choice ns in
    ret (Some cols')
  else
  if not_blank parent && is_complex_type root ns (get el "name")
  then
    let* cols' := create_fk_field el cols parent (get el "name") (get el "name")
                    counter_choice ns in
    ret (Some cols')
  else
  let thisType := default "string" (py_or (py_or (get el "type") (get el "ref")) (Some "string")) in
  if bool_decide (is_Some (get el "ref"))
  then
    let* cols' := create_fk_field el cols parent (py_or (get el "name") (get el "ref"))
                    (Some thisType) counter_choice ns in
    ret (Some cols')
  else
  let* prefix := lift (match nsd !! ns with
                       | Some p => Ok p
                       | None => Raise KeyError
                       end) in
  let k := PyStr.replace prefix "" thisType in
  let* builtin := lift (SDict_get DEFX2SQLSERVER k) in
  let* sql_type :=
    if negb (py_not builtin) then ret builtin
    else
      let* nk := lift (sql_normalize nsd (Some k) (Some ns)) in
      let* ut := gets USER_TYPES in
      let user := default None (ut !! nk) in
      ret (if negb (py_not user) then user else None) in
  if py_not sql_type && fail
  then raise (InvalidXMLType ((prefix +:+ thisType) +:+ " is an invalid XSD type."))
  else
  if negb (py_not sql_type)
  then
    let* sql_type :=
      if negb (in_DEFX2SQLSERVER_values (default "" sql_type))
      then lift (SDict_get DEFX2SQLSERVER (default "" sql_type))
      else ret sql_type in
    if py_not sql_type && fail
    then raise (InvalidXMLType ((prefix +:+ thisType) +:+ " is an invalid Database Schema type."))
    else
    match py_or (get el "name") (get el "ref") with
    | None => ret cols
    | Some col_name0 =>
        let* col_name :=
          if normalize then lift (sql_normalize nsd (Some col_name0) (Some ns))
          else ret col_name0 in
        let col_definition0 := col_name +:+ " " +:+ py_str sql_type in
        let* col_definition :=
          lift (get_nullable_attribute_from_col_definition counter_choice el col_definition0) in
        if py_not cols
        then ret (Some col_definition)
        else ret (Some (default "" cols +:+ (", " +:+ col_definition)))
    end
  else
  if not_blank parent && is_complex_type root ns (Some thisType)
  then
    let* cols' := create_fk_field el cols parent (get el "name") (Some thisType)
                    counter_choice ns in
    ret (Some cols')
  else ret None.

Definition MAX_RECURSE_LEVEL : nat := 1000.

(** A [for] loop whose body updates the local variables [s]. *)
Fixpoint for_each {St A S : Type} (l : list A) (s : S)
    (body : A -> S -> StateM St S) : StateM St S :=
  match l with
  | [] => ret s
  | x :: l' => let* s' := body x s in for_each l' s' body
  end.

(** [look4element(dict_relationships, root, ns, el, parent, recurse_level,
    fail, normalize, counter_choice)].  [fuel] only makes the recursion
    structural: the source's own guard raises [MaxRecursion] once
    [recurse_level] exceeds [MAX_RECURSE_LEVEL], which happens before a fuel
    of [MAX_RECURSE_LEVEL + 2] at level 0 is used up. *)
Fixpoint look4element (fuel : nat) (root : Element) (ns : string) (el : Element)
    (parent : option string) (recurse_level : nat) (fail normalize : bool)
    (counter_choice : Z) : M (bool * option string) :=
  match fuel with
  | O => raise MaxRecursion
  | S fuel' =>
    if (MAX_RECURSE_LEVEL <? recurse_level)%nat then raise MaxRecursion else
    let children := false in
    let cols := Some "" in
    let* r1 :=
      for_each (findall el (ns +:+ "element")) (children, cols)
        (fun e '(_, cols) =>
           let* rez := look4element fuel' root ns e (py_or (get e "name") parent)
                         (S recurse_level) fail true 0 in
           let* cols' := process_element e parent fail normalize counter_choice
                           (concat_cols cols (snd rez)) ns root in
           ret (true, cols')) in
    let* r2 :=
      for_each (findall el (ns +:+ "complexType")) r1
        (fun e '(_, cols) =>
           let* rez := look4element fuel' root ns e (py_or (get e "name") parent)
                         (S recurse_level) fail true 0 in
           let* cols' := process_element e parent fail normalize counter_choice
                           (concat_cols cols (snd rez)) ns root in
           ret (true, cols')) in
    let* r3 :=
      for_each (findall el (ns +:+ "sequence")) r2
        (fun e '(_, cols) =>
           let* _ := look4element fuel' root ns e (py_or (get e "name") parent)
                       (S recurse_level) fail true 0 in
           ret (true, cols)) in
    let* r4 :=
      for_each (findall el (ns +:+ "choice")) (r3, counter_choice)
        (fun e '((_, cols), current_counter_choice0) =>
           let current_counter_choice := (current_counter_choice0 + 1)%Z in
           let* rez := look4element fuel' root ns e (py_or (get e "name") parent)
                         (S recurse_level) fail true current_counter_choice in
           let* cols' := process_element e parent fail normalize current_counter_choice
                           (concat_cols cols (snd rez)) ns root in
           ret ((true, cols'), current_counter_choice)) in
    let '((children, cols), _) := r4 in
    let* cols :=
      if negb (py_not cols) && not_blank parent && (counter_choice =? 0)%Z
      then let* _ := create_table_in_sql_sentence cols parent ns in ret (Some "")
      else ret cols in
    if negb children then
      match get el "type" with
      | None => ret (children, cols)
      | Some thisType =>
          match find_complex_type root ns (Some thisType) with
          | None => ret (children, cols)
          | Some complex_type =>
              let* _ := look4element fuel' root ns complex_type
                          (py_or (get complex_type "name") parent)
                          (S recurse_level) fail true counter_choice in
              let* created := table_was_created (get complex_type "name") ns in
              let* _ :=
                if negb created
                then create_table_in_sql_sentence (Some "") (get complex_type "name") ns
                else ret tt in
              ret (true, cols)
          end
      end
    else ret (children, cols)
  end.

(** ** Dependency graph resolver *)

(** [repr(s)] of a string, as the f-string of a tuple of strings needs it. *)
Module PyRepr.

Definition hex_digit (n : nat) : ascii :=
  if (n <? 10)%nat then ascii_of_nat (48 + n) else ascii_of_nat (87 + n).

Definition printable (c : ascii) : bool :=
  let n := nat_of_ascii c in
  (((32 <=? n) && (n <=? 126)) || ((161 <=? n) && negb (n =? 173)))%nat.

Definition escape_char (quote c : ascii) : string :=
  if Ascii.eqb c quote || Ascii.eqb c "\" then String "\" (String c "")
  else if Ascii.eqb c "009" then "\t"
  else if Ascii.eqb c "010" then "\n"
  else if Ascii.eqb c "013" then "\r"
  else if printable c then String c ""
  else let n := nat_of_ascii c in
       String "\" (String "x" (String (hex_digit (n / 16)) (String (hex_digit (n mod 16)) ""))).

Fixpoint escape (quote : ascii) (s : string) : string :=
  match s with
  | EmptyString => EmptyString
  | String c s' => escape_char quote c +:+ escape quote s'
  end.

Definition repr_str (s : string) : string :=
  let quote := if PyStr.has_char "'" s && negb (PyStr.has_char "034" s)
               then "034"%char else "'"%char in
  String quote (escape quote s) +:+ String quote "".

Definition repr_edge (e : string * string) : string :=
  "(" +:+ repr_str (fst e) +:+ ", " +:+ repr_str (snd e) +:+ ")".

End PyRepr.

(** A [networkx.DiGraph] of table names: nodes and edges in insertion
    order, no duplicates. *)
Record DiGraph : Type := mkDiGraph {
  nodes : list string;
  edges : list (string * string)
}.

Definition empty_DiGraph : DiGraph := mkDiGraph [] [].

Definition add_node_pure (n : string) (g : DiGraph) : DiGraph :=
  if bool_decide (n ∈ nodes g) then g else mkDiGraph (nodes g ++ [n]) (edges g).

(** [add_edge] adds missing endpoints first. *)
Definition add_edge_pure (u v : string) (g : DiGraph) : DiGraph :=
  let g' := add_node_pure v (add_node_pure u g) in
  if bool_decide ((u, v) ∈ edges g') then g'
  else mkDiGraph (nodes g') (edges g' ++ [(u, v)]).

(** [remove_edge] raises [NetworkXError] for an edge not in the graph. *)
Definition remove_edge_pure (u v : string) (g : DiGraph) : result DiGraph :=
  if bool_decide ((u, v) ∈ edges g)
  then Ok (mkDiGraph (nodes g) (filter (fun e => e ≠ (u, v)) (edges g)))
  else Raise NetworkXError.

(** The invariant networkx keeps. *)
Definition wf_DiGraph (g : DiGraph) : Prop :=
  NoDup (nodes g) ∧ NoDup (edges g) ∧
  ∀ u v, (u, v) ∈ edges g → u ∈ nodes g ∧ v ∈ nodes g.

(** Consecutive edges of [c] meet head to tail. *)
Fixpoint is_walk (c : list (string * string)) : bool :=
  match c with
  | [] => true
  | e1 :: c' =>
      match c' with
      | [] => true
      | e2 :: _ => bool_decide (snd e1 = fst e2) && is_walk c'
      end
  end.

(** A cycle of [g], as [find_cycle] reports it: a non-empty list of edges
    of [g] that meet head to tail, the last one leading back to the tail of
    the first. *)
Definition is_cycle (g : DiGraph) (c : list (string * string)) : Prop :=
  c ≠ [] ∧ Forall (fun e => e ∈ edges g) c ∧ is_walk c = true ∧
  (snd <$> last c) = (fst <$> head c).

Definition acyclic (g : DiGraph) : Prop := ∀ c, ¬ is_cycle g c.

(** [u] comes strictly before [v] in [l]. *)
Definition before (l : list string) (u v : string) : Prop :=
  ∃ i j : nat, l !! i = Some u ∧ l !! j = Some v ∧ (i < j)%nat.

(** [l] is a topological order of [g]. *)
Definition topological_order (g : DiGraph) (l : list string) : Prop :=
  NoDup l ∧ (∀ n, n ∈ l ↔ n ∈ nodes g) ∧
  ∀ u v, (u, v) ∈ edges g → before l u v.

(** The three networkx algorithms the resolver calls.  [find_cycle] is
    [None] where the library raises [NetworkXNoCycle], [topological_sort]
    is [None] where it raises [NetworkXUnfeasible]. *)
Class NetworkX : Type := {
  find_cycle : DiGraph → option (list (string * string));
  is_directed_acyclic_graph : DiGraph → bool;
  topological_sort : DiGraph → option (list string)
}.

(** What the library documents about them. *)
Class NetworkXSpec (nx : NetworkX) : Prop := {
  find_cycle_Some : ∀ g c, wf_DiGraph g → find_cycle g = Some c → is_cycle g c;
  find_cycle_None : ∀ g, wf_DiGraph g → find_cycle g = None → acyclic g;
  is_directed_acyclic_graph_spec :
    ∀ g, wf_DiGraph g → (is_directed_acyclic_graph g = true ↔ acyclic g);
  topological_sort_Some :
    ∀ g, wf_DiGraph g → acyclic g →
         ∃ l, topological_sort g = Some l ∧ topological_order g l
}.

(** The graph objects a run has created, by reference, and what it has
    printed. *)
Record world : Type := mkWorld {
  objects : list DiGraph;
  stdout : list string
}.

Abbreviation G := (StateM world).

Definition print (line : string) : G unit :=
  modify (fun w => mkWorld (objects w) (stdout w ++ [line])).

(** [nx.DiGraph()] *)
Definition new_DiGraph : G nat :=
  fun w => Ok (length (objects w), mkWorld (objects w ++ [empty_DiGraph]) (stdout w)).

Definition read_graph (r : nat) : G DiGraph :=
  fun w => match objects w !! r with
           | Some g => Ok (g, w)
           | None => Raise BadReference
           end.

Definition write_graph (r : nat) (g : DiGraph) : G unit :=
  modify (fun w => mkWorld (<[r := g]> (objects w)) (stdout w)).

(** [graph.copy()] *)
Definition copy (r : nat) : G nat :=
  let* g := read_graph r in
  fun w => Ok (length (objects w), mkWorld (objects w ++ [g]) (stdout w)).

Definition add_node (r : nat) (n : string) : G unit :=
  let* g := read_graph r in write_graph r (add_node_pure n g).

Definition add_edge (r : nat) (u v : string) : G unit :=
  let* g := read_graph r in write_graph r (add_edge_pure u v g).

Definition remove_edge (r : nat) (u v : string) : G unit :=
  let* g := read_graph r in
  let* g' := lift (remove_edge_pure u v g) in
  write_graph r g'.

Fixpoint string_drop (n : nat) (s : string) : string :=
  match n, s with
  | O, _ => s
  | S n', String _ s' => string_drop n' s'
  | S _, EmptyString => EmptyString
  end.

Fixpoint take_while (p : ascii -> bool) (s : string) : string :=
  match s with
  | EmptyString => EmptyString
  | String c s' => if p c then String c (take_while p s') else EmptyString
  end.

(** [re.search("CREATE TABLE (\S+)", s)]: the group of the leftmost match. *)
Fixpoint search_create_table (s : string) : option string :=
  match s with
  | EmptyString => None
  | String _ s' =>
      if String.prefix "CREATE TABLE " s
      then match take_while (fun c => negb (PyStr.isspace c)) (string_drop 13 s) with
           | EmptyString => search_create_table s'
           | name => Some name
           end
      else search_create_table s'
  end.

(** [get_table_name(instruction)], with the default [pref]. *)
Definition get_table_name (instruction : string) : string :=
  match search_create_table (PyStr.lstrip instruction) with
  | Some table_name => table_name
  | None => ""
  end.

(** [analize_instruction(instruction)] *)
Definition analize_instruction (instruction : string) : string * list string :=
  let table_name := get_table_name instruction in
  if String.eqb (PyStr.strip table_name) "" then ("", [])
  else
    let array_foreign_keys :=
      PyStr.split "REFERENCES" (PyStr.replace (String "010" "") "" instruction) in
    let referenced_tables :=
      foldl (fun acc item =>
               let new_item := PyStr.lstrip item in
               if PyStr.has_char "(" new_item
               then (acc ++ [take_while (fun c => negb (Ascii.eqb c "(")) new_item])%list
               else acc)
            ([] : list string) (tail array_foreign_keys) in
    let referenced_tables :=
      if (length referenced_tables =? 0)%nat then (referenced_tables ++ [""])%list
      else referenced_tables in
    (table_name, referenced_tables).

(** [create_graph(arr_create_tables)] *)
Definition create_graph (arr_create_tables : list string) : G nat :=
  let* graph := new_DiGraph in
  let* _ :=
    for_each arr_create_tables tt
      (fun instruction _ =>
         let '(table_name, referenced_tables) := analize_instruction instruction in
         if String.eqb table_name "" then ret tt
         else
           let* _ := add_node graph table_name in
           for_each referenced_tables tt
             (fun table_ref _ => add_edge graph table_name table_ref)) in
  ret graph.

Section Resolver.
Context {nx : NetworkX}.

(** The [while True] loop of [break_cycles]; it ends when [find_cycle]
    raises [NetworkXNoCycle]. *)
Fixpoint break_cycles_loop (fuel : nat) (graph_copy : nat) : G unit :=
  match fuel with
  | O => raise OutOfFuel
  | S fuel' =>
      let* g := read_graph graph_copy in
      match find_cycle g with
      | None => ret tt
      | Some cycle =>
          match cycle with
          | [] => raise IndexError
          | edge_to_remove :: _ =>
              let* _ := remove_edge graph_copy (fst edge_to_remove) (snd edge_to_remove) in
              let* _ := print ("Removed edge to break cycle: "
                               +:+ PyRepr.repr_edge edge_to_remove) in
              break_cycles_loop fuel' graph_copy
          end
      end
  end.

(** [break_cycles(graph)] *)
Definition break_cycles (fuel : nat) (graph : nat) : G nat :=
  let* graph_copy := copy graph in
  let* _ := break_cycles_loop fuel graph_copy in
  ret graph_copy.

(** [generate_sql_statements_in_topological_order()], from the list
    [arr_create_tables] of CREATE TABLE instructions on: the graph, the
    deletion order and the creation order.  The SQL text before that point
    and the statement lists rendered from the two orders are not part of
    the model; what the source prints before raising [ValueError] is lost
    with the run. *)
Definition generate_sql_statements_in_topological_order (fuel : nat)
    (arr_create_tables : list string) : G (nat * list string * list string) :=
  let* graph := create_graph arr_create_tables in
  let* graph := break_cycles fuel graph in
  let* g := read_graph graph in
  if negb (is_directed_acyclic_graph g) then raise ValueError
  else
    let* drop_order := lift (match topological_sort g with
                             | Some l => Ok l
                             | None => Raise NetworkXUnfeasible
                             end) in
    let create_order := rev drop_order in
    ret (graph, drop_order, create_order).

End Resolver.

(** ** A reference implementation of the networkx interface

    Repeated removal of a node without predecessor gives the topological
    order; when no such node is left, walking backwards along predecessors
    must revisit a node, which gives a cycle. *)
Module Reference.

(** A predecessor of [n] among [R]. *)
Definition pred_in (E : list (string * string)) (R : list string) (n : string)
    : option string :=
  snd <$> list_find (fun p => (p, n) ∈ E) R.

(** The order found, and the nodes left when no source remains. *)
Fixpoint kahn (fuel : nat) (E : list (string * string)) (R : list string)
    : list string * list string :=
  match fuel with
  | O => ([], R)
  | S fuel' =>
      match list_find (fun n => pred_in E R n = None) R with
      | None => ([], R)
      | Some (_, n) =>
          let '(o, r) := kahn fuel' E (filter (fun x => x ≠ n) R) in
          (n :: o, r)
      end
  end.

Definition topological_sort (g : DiGraph) : option (list string) :=
  match kahn (length (nodes g)) (edges g) (nodes g) with
  | (o, []) => Some o
  | (_, _ :: _) => None
  end.

(** The prefix of [l] up to and including the first [p]. *)
Fixpoint take_until (p : string) (l : list string) : list string :=
  match l with
  | [] => []
  | x :: l' => if decide (x = p) then [x] else x :: take_until p l'
  end.

(** [path] starts with [n] and follows edges; the walk goes on to a
    predecessor of [n] until it meets a node of [path] again. *)
Fixpoint back_walk (fuel : nat) (E : list (string * string)) (R : list string)
    (path : list string) (n : string) : option (list string) :=
  match fuel with
  | O => None
  | S fuel' =>
      match pred_in E R n with
      | None => None
      | Some p =>
          if decide (p ∈ path) then Some (p :: take_until p path)
          else back_walk fuel' E R (p :: path) p
      end
  end.

Definition walk_edges (w : list string) : list (string * string) :=
  zip w (tail w).

Definition find_cycle (g : DiGraph) : option (list (string * string)) :=
  match kahn (length (nodes g)) (edges g) (nodes g) with
  | (_, []) => None
  | (_, (n :: _) as r) => walk_edges <$> back_walk (S (length r)) (edges g) r [n] n
  end.

Definition is_directed_acyclic_graph (g : DiGraph) : bool :=
  match find_cycle g with
  | None => true
  | Some _ => false
  end.

End Reference.

Definition reference_networkx : NetworkX :=
  {| find_cycle := Reference.find_cycle;
     is_directed_acyclic_graph := Reference.is_directed_acyclic_graph;
     topological_sort := Reference.topological_sort |}.

(** ** Vocabulary of the statements *)

(** Every registered table holds the primary-key column named after it. *)
Definition primary_key_invariant (tc : gmap string (gset string)) : Prop :=
  ∀ T cols, tc !! T = Some cols → (T +:+ "Id bigint PRIMARY KEY NOT NULL") ∈ cols.

(** The prefix step of [sql_normalize] cannot run: at most one namespace is
    registered, or the namespace argument is [None] or blank. *)
Definition prefix_step_off (nsd : gmap string string) (ns : option string) : Prop :=
  (size nsd ≤ 1)%nat ∨ match ns with
                 | None => True
                 | Some n => PyStr.lstrip n = ""
                 end.

(** The explicit [nillable] of an element. *)
Definition nillable (el : Element) : bool :=
  String.eqb (PyStr.lower (get_default el "nillable" "false")) "true".

(** The diagnostic [break_cycles] prints for a removed edge. *)
Definition removed_edge_line (e : string * string) : string :=
  "Removed edge to break cycle: " +:+ PyRepr.repr_edge e.

(** One round of the loop of [create_graph], on the graph value, and the
    graph the whole loop builds. *)
Definition graph_step (g : DiGraph) (instruction : string) : DiGraph :=
  let '(table_name, referenced_tables) := analize_instruction instruction in
  if String.eqb table_name "" then g
  else foldl (fun g table_ref => add_edge_pure table_name table_ref g)
         (add_node_pure table_name g) referenced_tables.

Definition graph_of (arr_create_tables : list string) : DiGraph :=
  foldl graph_step empty_DiGraph arr_create_tables.

(** The three character replacements of [sql_normalize], as one map. *)
Fixpoint map_chars (f : ascii -> ascii) (s : string) : string :=
  match s with
  | EmptyString => EmptyString
  | String c s' => String (f c) (map_chars f s')
  end.

Definition subst_char (a b c : ascii) : ascii := if Ascii.eqb c a then b else c.

Definition underscore (c : ascii) : ascii :=
  subst_char " " "_" (subst_char "." "_" (subst_char "-" "_" c)).

(** [sql_normalize] before its prefix step. *)
Definition normalize_chars (s : string) : string :=
  map_chars underscore (PyStr.lstrip s).

(** The column definitions one commit brings: the primary key, then the
    pieces of [cols]. *)
Definition new_columns (pk : string) (cols : option string) : list string :=
  if not_blank cols then pk :: PyStr.split ", " (default "" cols) else [pk].

(** The registries after a commit of [new_cols] to the table [name]. *)
Definition commit (name : string) (new_cols : list string) (st : state) : state :=
  set_HASH_TABLE_TABLES_GENERATED <[name := 1%Z]>
    (set_TABLE_COLUMNS
       <[name := default ∅ (TABLE_COLUMNS st !! name) ∪ list_to_set new_cols]> st).

(** The upper occurrence bound of an element is "many": [unbounded], or an
    integer above 1. *)
Definition upper_bound_is_many (el : Element) : bool :=
  let max_occurs := get_default el "maxOccurs" "1" in
  if String.eqb max_occurs "unbounded" then true
  else match PyStr.int max_occurs with
       | Some n => (1 <? n)%Z
       | None => false
       end.

(** The invariant of a graph, as a test. *)
Definition wf_DiGraphb (g : DiGraph) : bool :=
  bool_decide (NoDup (nodes g)) && bool_decide (NoDup (edges g))
  && forallb (fun e => bool_decide (e.1 ∈ nodes g) && bool_decide (e.2 ∈ nodes g))
       (edges g).

(** ** Sample inputs *)

Module Sample.

Definition XS : string := "{http://www.w3.org/2001/XMLSchema}".
Definition DS : string := "{http://www.w3.org/2000/09/xmldsig#}".

Definition one_namespace : gmap string string := {[ XS := "xs:" ]}.
Definition two_namespaces : gmap string string := <[ DS := "ds:" ]> one_namespace.

Definition start (nsd : gmap string string) : state := mkState nsd ∅ ∅ ∅ ∅.

(** [<xs:element name=n type=t/>] *)
Definition leaf (n t : string) : Element :=
  mkElement (XS +:+ "element") (<["name" := n]> {[ "type" := t ]}) [].

(** A type [Person] whose second element has a type that no registry
    knows. *)
Definition unknown_B : Element := leaf "B" "xs:foo".

Definition person : Element :=
  mkElement (XS +:+ "schema") ∅
    [ mkElement (XS +:+ "complexType") {[ "name" := "Person" ]}
        [ mkElement (XS +:+ "sequence") ∅
            [ leaf "FirstName" "xs:string"; unknown_B; leaf "LastName" "xs:string" ] ] ].

(** [<xs:element name="Item" type="Item" minOccurs="0"
    maxOccurs="unbounded"/>] *)
Definition items : Element :=
  mkElement (XS +:+ "element")
    (<["name" := "Item"]> (<["type" := "Item"]>
       (<["minOccurs" := "0"]> {[ "maxOccurs" := "unbounded" ]}))) [].

(** [<xs:element name="Nick" type="xs:string" minOccurs="0"/>] *)
Definition optional_nick : Element :=
  mkElement (XS +:+ "element")
    (<["name" := "Nick"]> (<["type" := "xs:string"]> {[ "minOccurs" := "0" ]})) [].

(** Two tables that reference each other, and one that stands alone. *)
Definition mutual : list string :=
  [ "CREATE TABLE X (XId bigint PRIMARY KEY NOT NULL, YId bigint NOT NULL, CONSTRAINT FK_X_YId FOREIGN KEY (YId) REFERENCES Y(YId))";
    "CREATE TABLE Y (YId bigint PRIMARY KEY NOT NULL, XId bigint NOT NULL, CONSTRAINT FK_Y_XId FOREIGN KEY (XId) REFERENCES X(XId))";
    "CREATE TABLE Z (ZId bigint PRIMARY KEY NOT NULL)" ].

Definition mutual_graph : DiGraph :=
  mkDiGraph ["X"; "Y"] [("X", "Y"); ("Y", "X")].

Definition mutual_world : world := mkWorld [mutual_graph] [].

(** Two cycles, A -> B -> C -> A and A -> B -> D -> A, that share the edge
    A -> B. *)
Definition shared_edge_graph : DiGraph :=
  mkDiGraph ["D"; "C"; "B"; "A"]
    [("B", "C"); ("C", "A"); ("B", "D"); ("D", "A"); ("A", "B")].

Definition empty_world : world := mkWorld [] [].

(** A document whose element [Note] has the blank type name [" "], and a
    complex type of that name. *)
Definition blank_type : Element :=
  mkElement (XS +:+ "schema") ∅
    [ mkElement (XS +:+ "element") (<["name" := "Note"]> {[ "type" := " " ]}) [];
      mkElement (XS +:+ "complexType") {[ "name" := " " ]}
        [ mkElement (XS +:+ "sequence") ∅ [ leaf "Text" "xs:string" ] ] ].

End Sample.

(** ** Further functions of the module *)

Definition set_USER_TYPES
    (f : gmap string (option string) -> gmap string (option string))
    (st : state) : state :=
  mkState (NAMESPACE_DICT st) (f (USER_TYPES st)) (HASH_TABLE_TABLES_GENERATED st)
          (TABLE_COLUMNS st) (dict_relationships st).

(** [el.find(ns + name)]: the first direct child with that tag. *)
Definition find (e : Element) (qname : string) : option Element :=
  head (findall e qname).

(** [build_user_types(ns, root_element)].  In [USER_TYPES[key] = value]
    Python evaluates [value] before [key]; [NAMESPACE_DICT[ns]] raises
    [KeyError], [restr.get] on a missing [restriction] and [.replace] on a
    missing [base] raise [AttributeError]. *)
Definition build_user_types (ns : string) (root_element : Element) : M unit :=
  let* _ :=
    for_each (findall root_element (ns +:+ "element")) tt
      (fun el _ =>
         if negb (py_not (get el "name")) && negb (py_not (get el "type"))
         then
           let* nsd := gets NAMESPACE_DICT in
           let* prefix := lift (match nsd !! ns with
                                | Some p => Ok p
                                | None => Raise KeyError
                                end) in
           let* value :=
             lift (SDict_get DEFX2SQLSERVER
                     (PyStr.replace prefix "" (default "" (get el "type")))) in
           let* key := lift (sql_normalize nsd (get el "name") (Some ns)) in
           modify (set_USER_TYPES <[key := value]>)
         else ret tt) in
  for_each (findall root_element (ns +:+ "simpleType")) tt
    (fun el _ =>
       let restr := find el (ns +:+ "restriction") in
       let* nsd := gets NAMESPACE_DICT in
       let* base := lift (match restr with
                          | Some r => match get r "base" with
                                      | Some b => Ok b
                                      | None => Raise AttributeError
                                      end
                          | None => Raise AttributeError
                          end) in
       let* prefix := lift (match nsd !! ns with
                            | Some p => Ok p
                            | None => Raise KeyError
                            end) in
       let value := PyStr.replace prefix "" base in
       let* key := lift (sql_normalize nsd (get el "name") (Some ns)) in
       modify (set_USER_TYPES <[key := Some value]>)).

(** [translate_cardinality_to_plantuml_notation(s, index)], on the pieces
    of a cardinality as its callers pass them. *)
Definition translate_cardinality_to_plantuml_notation (s : list string)
    (index : nat) : result string :=
  match s !! index with
  | None => Raise IndexError
  | Some x =>
      if String.eqb x "0" then Ok "o"
      else if String.eqb x "*" then Ok "o{"
      else if PyStr.isdigit x
           then let+ n := py_int x in Ok (if (1 <? n)%Z then "|{" else "||")
           else Ok "||"
  end.

(** The [for] loop of [ends_with_integer], over the reversed string; it
    stops at the first character that is not a digit. *)
Fixpoint ends_with_integer_loop (reversed_string integer_part : string) : string :=
  match reversed_string with
  | EmptyString => integer_part
  | String char r =>
      if PyStr.isdigit_char char
      then ends_with_integer_loop r (String char integer_part)
      else integer_part
  end.

(** [ends_with_integer(s)] *)
Definition ends_with_integer (s : string) : bool * string :=
  let reversed_string := String.rev s in
  let integer_part := ends_with_integer_loop reversed_string "" in
  (negb (String.eqb integer_part "") && PyStr.isdigit integer_part, integer_part).

(** The statement [generate_drop_table_statements] renders for a table. *)
Definition drop_table_statement (table_name : string) : string :=
  "IF EXISTS (SELECT * FROM INFORMATION_SCHEMA.TABLES WHERE TABLE_NAME = '"
  +:+ table_name +:+ "') DROP TABLE " +:+ table_name +:+ ";".

(** [generate_drop_table_statements(arr_create_tables, drop_order)] *)
Definition generate_drop_table_statements (arr_create_tables drop_order : list string)
    : list string :=
  foldl (fun list_drop_table_sentences table_graph =>
           foldl (fun l create_table =>
                    let table_name := get_table_name create_table in
                    if negb (String.eqb table_name "") && String.eqb table_graph table_name
                    then (l ++ [drop_table_statement table_name])%list
                    else l)
                 list_drop_table_sentences (rev arr_create_tables))
        ([] : list string) drop_order.

(** ** Vocabulary of the further statements *)

(** [sub in s] *)
Fixpoint occurs (sub s : string) : bool :=
  String.prefix sub s
  || match s with
     | EmptyString => false
     | String _ s' => occurs sub s'
     end.

(** The registries only grow from [st] to [st']: the namespace and type
    registries are the same, every generated table is still generated, and
    every table keeps the column definitions it had. *)
Definition registries_grow (st st' : state) : Prop :=
  NAMESPACE_DICT st' = NAMESPACE_DICT st
  ∧ USER_TYPES st' = USER_TYPES st
  ∧ (∀ T, is_Some (HASH_TABLE_TABLES_GENERATED st !! T) →
          is_Some (HASH_TABLE_TABLES_GENERATED st' !! T))
  ∧ (∀ T cols, TABLE_COLUMNS st !! T = Some cols →
               ∃ cols', TABLE_COLUMNS st' !! T = Some cols' ∧ cols ⊆ cols').

(** Every run of [m] that returns leaves the registries grown. *)
Definition grows {A} (m : M A) : Prop :=
  ∀ st a st', m st = Ok (a, st') → registries_grow st st'.

(** The table names of the instructions that [generate_drop_table_statements]
    looks at, in the order of its inner loop. *)
Definition created_tables (arr_create_tables : list string) : list string :=
  filter (fun n => n ≠ "") (get_table_name <$> rev arr_create_tables).
(** Only [USER_TYPES] differs between [st] and [st'], and it has lost no
    key. *)
Definition user_types_grow (st st' : state) : Prop :=
  NAMESPACE_DICT st' = NAMESPACE_DICT st
  ∧ HASH_TABLE_TABLES_GENERATED st' = HASH_TABLE_TABLES_GENERATED st
  ∧ TABLE_COLUMNS st' = TABLE_COLUMNS st
  ∧ dict_relationships st' = dict_relationships st
  ∧ ∀ k, is_Some (USER_TYPES st !! k) → is_Some (USER_TYPES st' !! k).

(** * Properties *)

(** ** Type registry *)

(** No string of the table has a conversion specifier, so [value % self]
    returns it unchanged. *)
Lemma DEFX2SQLSERVER_no_percent :
  Forall (fun kv => match kv.2 with
                    | Some v => PyStr.has_char "%" v = false
                    | None => True
                    end) DEFX2SQLSERVER_items.
Proof. repeat constructor. Qed.

(** [SDict.get] of a key bound to [None] raises. *)
Lemma SDict_get_None_value d k :
  d !! k = Some None → SDict_get d k = Raise TypeError.
Proof. intros H. unfold SDict_get. rewrite H. reflexivity. Qed.

(** An absent key gives [None], a supported one its column type. *)
Lemma SDict_get_absent d k : d !! k = None → SDict_get d k = Ok None.
Proof. intros H. unfold SDict_get. rewrite H. reflexivity. Qed.

Lemma SDict_get_supported d k v :
  d !! k = Some (Some v) → SDict_get d k = Ok (Some v).
Proof. intros H. unfold SDict_get. rewrite H. reflexivity. Qed.

(** C7: the lookup of each unsupported built-in type does not return the
    absent result: the table binds the name to [None], and [SDict.get]
    applies [%] to it, which raises [TypeError]. *)
Theorem unsupported_builtin_lookup_raises :
  Forall (fun k => DEFX2SQLSERVER !! k = Some None
                   ∧ SDict_get DEFX2SQLSERVER k = Raise TypeError)
    ["QName"; "NOTATION"; "NMTOKEN"; "NMTOKENS"; "ID"; "IDREF"; "IDREFS";
     "ENTITY"; "ENTITIES"].
Proof.
  repeat constructor; try (vm_compute; reflexivity).
Qed.

(** ** Strings *)

Lemma app_cons_s (c : ascii) (a b : string) : String c a +:+ b = String c (a +:+ b).
Proof. reflexivity. Qed.

Lemma app_nil_l_s (s : string) : "" +:+ s = s.
Proof. reflexivity. Qed.

Lemma app_nil_r_s (s : string) : s +:+ "" = s.
Proof. induction s as [|c s IH]; [reflexivity|]. by rewrite app_cons_s, IH. Qed.

Lemma app_assoc_s (a b c : string) : (a +:+ b) +:+ c = a +:+ (b +:+ c).
Proof. induction a as [|x a IH]; [reflexivity|]. by rewrite !app_cons_s, IH. Qed.

Lemma replace_one_char a b s :
  PyStr.replace (String a "") (String b "") s = map_chars (subst_char a b) s.
Proof.
  unfold PyStr.replace.
  induction s as [|c s IH]; [reflexivity|].
  cbn [PyStr.replace_go map_chars String.prefix String.length Nat.sub].
  unfold subst_char at 1.
  destruct (ascii_dec a c) as [->|Hne].
  - rewrite Ascii.eqb_refl, app_cons_s, app_nil_l_s.
    destruct s; by rewrite <- IH.
  - assert (Ascii.eqb c a = false) as -> by (apply Ascii.eqb_neq; congruence).
    by rewrite IH.
Qed.

Lemma map_chars_compose f g s :
  map_chars f (map_chars g s) = map_chars (fun c => f (g c)) s.
Proof. induction s as [|c s IH]; [reflexivity|]. cbn. by rewrite IH. Qed.

Lemma map_chars_app f a b :
  map_chars f (a +:+ b) = map_chars f a +:+ map_chars f b.
Proof.
  induction a as [|c a IH]; [reflexivity|].
  rewrite app_cons_s. cbn. by rewrite IH, app_cons_s.
Qed.

(** The replacements of [sql_normalize] are [normalize_chars]. *)
Lemma replace_chain s :
  PyStr.replace " " "_" (PyStr.replace "." "_" (PyStr.replace "-" "_" (PyStr.lstrip s)))
  = normalize_chars s.
Proof.
  unfold normalize_chars. rewrite !replace_one_char, !map_chars_compose. reflexivity.
Qed.

Lemma underscore_idem c : underscore (underscore c) = underscore c.
Proof. destruct c as [[] [] [] [] [] [] [] []]; reflexivity. Qed.

Lemma underscore_isspace c :
  PyStr.isspace c = false → PyStr.isspace (underscore c) = false.
Proof. destruct c as [[] [] [] [] [] [] [] []]; cbv; congruence. Qed.

Lemma lstrip_head_not_space s c s' :
  PyStr.lstrip s = String c s' → PyStr.isspace c = false.
Proof.
  induction s as [|a s IH]; [discriminate|]. cbn.
  destruct (PyStr.isspace a) eqn:Ha; [exact IH|]. intros [= <- <-]. exact Ha.
Qed.

Lemma lstrip_fixed c s : PyStr.isspace c = false → PyStr.lstrip (String c s) = String c s.
Proof. intros H. cbn. by rewrite H. Qed.

Lemma lstrip_normalize_chars s : PyStr.lstrip (normalize_chars s) = normalize_chars s.
Proof.
  unfold normalize_chars. destruct (PyStr.lstrip s) as [|c s'] eqn:E; [reflexivity|].
  cbn [map_chars]. apply lstrip_fixed, underscore_isspace.
  by eapply lstrip_head_not_space.
Qed.

Lemma normalize_chars_idem s : normalize_chars (normalize_chars s) = normalize_chars s.
Proof.
  unfold normalize_chars at 1. rewrite lstrip_normalize_chars.
  unfold normalize_chars. rewrite map_chars_compose.
  induction (PyStr.lstrip s) as [|c t IH]; [reflexivity|].
  cbn. by rewrite underscore_idem, IH.
Qed.

Lemma default_truthy (x : option string) :
  match x with
  | Some s => if PyStr.truthy s then s else ""
  | None => ""
  end = default "" x.
Proof. destruct x as [[|]|]; reflexivity. Qed.

(** [sql_normalize], with its replacements folded. *)
Lemma sql_normalize_unfold nsd x ns :
  sql_normalize nsd x ns =
  let s := normalize_chars (default "" x) in
  match ns with
  | Some n =>
      if bool_decide (1 < size nsd)
         && negb (String.eqb (PyStr.lstrip n) "")
         && negb (String.eqb s "")
      then process_prefix s nsd n
      else Ok s
  | None => Ok s
  end.
Proof.
  unfold sql_normalize. rewrite default_truthy, replace_chain.
  cbv zeta. rewrite lstrip_normalize_chars. reflexivity.
Qed.

Lemma sql_normalize_prefix_off nsd x ns :
  prefix_step_off nsd ns →
  sql_normalize nsd x ns = Ok (normalize_chars (default "" x)).
Proof.
  intros Hoff. rewrite sql_normalize_unfold. cbv zeta.
  destruct ns as [n|]; [|reflexivity].
  destruct Hoff as [Hsz|Hn].
  - rewrite bool_decide_eq_false_2 by lia. reflexivity.
  - rewrite Hn. cbn. rewrite andb_false_r. reflexivity.
Qed.

(** C6 (amended): while the prefix step cannot run (at most one namespace
    registered, or no namespace argument), [sql_normalize] returns a name
    that a second normalization leaves unchanged. *)
Theorem sql_normalize_stable_without_prefix_step nsd x ns :
  prefix_step_off nsd ns →
  ∃ y, sql_normalize nsd x ns = Ok y ∧ sql_normalize nsd (Some y) ns = Ok y.
Proof.
  intros Hoff. exists (normalize_chars (default "" x)).
  rewrite !sql_normalize_prefix_off by done. split; [done|].
  cbn [from_option]. unfold id. by rewrite normalize_chars_idem.
Qed.

Lemma sql_normalize_stable_without_prefix_step_witness :
  ∃ y, sql_normalize Sample.one_namespace (Some "  first-name.x y") (Some Sample.XS) = Ok y
       ∧ sql_normalize Sample.one_namespace (Some y) (Some Sample.XS) = Ok y.
Proof.
  apply sql_normalize_stable_without_prefix_step.
  left. vm_compute. lia.
Defined.

(** C6, as stated, fails once two namespaces are registered: the prefix
    step runs on each pass and prepends the prefix again. *)
Lemma sql_normalize_not_stable_two_namespaces :
  sql_normalize Sample.two_namespaces (Some "foo") (Some Sample.XS) = Ok "xs_foo"
  ∧ sql_normalize Sample.two_namespaces (Some "xs_foo") (Some Sample.XS) = Ok "xs_xs_foo"
  ∧ "xs_xs_foo" ≠ "xs_foo".
Proof. split; [|split]; [vm_compute; reflexivity..|discriminate]. Qed.

(** ** Table / column accumulator *)

(** What a commit does, in one step. *)
Lemma create_table_in_sql_sentence_unfold cols table_name ns st :
  create_table_in_sql_sentence cols table_name ns st =
  match create_primary_key (NAMESPACE_DICT st) table_name ns with
  | Raise e => Raise e
  | Ok pk =>
      match sql_normalize (NAMESPACE_DICT st) table_name (Some ns) with
      | Raise e => Raise e
      | Ok name => Ok (tt, commit name (new_columns pk cols) st)
      end
  end.
Proof.
  unfold create_table_in_sql_sentence, bind, gets, lift, modify; cbv beta iota.
  destruct (create_primary_key (NAMESPACE_DICT st) table_name ns) as [pk|e];
    [|reflexivity].
  destruct (sql_normalize (NAMESPACE_DICT st) table_name (Some ns)) as [name|e];
    [|reflexivity].
  unfold commit. fold (new_columns pk cols).
  destruct (TABLE_COLUMNS st !! name) as [existing|] eqn:E; cbv beta iota;
    [reflexivity|].
  cbn [from_option]. by rewrite (left_id_L ∅ (∪)).
Qed.

Lemma commit_NAMESPACE_DICT name new st :
  NAMESPACE_DICT (commit name new st) = NAMESPACE_DICT st.
Proof. reflexivity. Qed.

Lemma commit_TABLE_COLUMNS name new st :
  TABLE_COLUMNS (commit name new st)
  = <[name := default ∅ (TABLE_COLUMNS st !! name) ∪ list_to_set new]> (TABLE_COLUMNS st).
Proof. reflexivity. Qed.

Lemma commit_dict_relationships name new st :
  dict_relationships (commit name new st) = dict_relationships st.
Proof. reflexivity. Qed.

Lemma commit_idem name new st : commit name new (commit name new st) = commit name new st.
Proof.
  unfold commit at 1. rewrite commit_TABLE_COLUMNS, lookup_insert_eq.
  destruct st as [nsd ut h tc dr]. unfold commit, set_TABLE_COLUMNS,
    set_HASH_TABLE_TABLES_GENERATED; cbn.
  f_equal.
  - by rewrite insert_insert_eq.
  - rewrite insert_insert_eq. f_equal.
    by rewrite <- (assoc_L (∪)), (idemp_L (∪)).
Qed.

(** C4: committing the same column definitions for the same table twice
    leaves the registries exactly as one commit does (and raises what one
    commit raises). *)
Theorem create_table_in_sql_sentence_idempotent cols table_name ns st :
  (let* _ := create_table_in_sql_sentence cols table_name ns in
   create_table_in_sql_sentence cols table_name ns) st
  = create_table_in_sql_sentence cols table_name ns st.
Proof.
  unfold bind. rewrite create_table_in_sql_sentence_unfold.
  destruct (create_primary_key _ _ _) as [pk|e] eqn:Epk; [|reflexivity].
  destruct (sql_normalize _ _ _) as [name|e] eqn:En; [|reflexivity].
  rewrite create_table_in_sql_sentence_unfold, commit_NAMESPACE_DICT, Epk, En.
  by rewrite commit_idem.
Qed.

Lemma lstrip_app t s :
  PyStr.lstrip t ≠ "" → PyStr.lstrip (t +:+ s) = PyStr.lstrip t +:+ s.
Proof.
  induction t as [|c t IH]; [done|]. intros H. rewrite app_cons_s. cbn in *.
  destruct (PyStr.isspace c); [by apply IH|]. by rewrite app_cons_s.
Qed.

Lemma normalize_chars_Id t :
  PyStr.lstrip t ≠ "" → normalize_chars (t +:+ "Id") = normalize_chars t +:+ "Id".
Proof.
  intros H. unfold normalize_chars. rewrite lstrip_app by done.
  by rewrite map_chars_app.
Qed.

Lemma normalize_chars_not_empty t : PyStr.lstrip t ≠ "" → normalize_chars t ≠ "".
Proof. unfold normalize_chars. by destruct (PyStr.lstrip t). Qed.

Lemma app_not_empty_l (a b : string) : a ≠ "" → a +:+ b ≠ "".
Proof. by destruct a. Qed.

Lemma split_once_Id v :
  PyStr.split_once ":" (v +:+ "Id")
  = (fun br => (br.1, br.2 +:+ "Id")) <$> PyStr.split_once ":" v.
Proof.
  induction v as [|c v IH]; [reflexivity|].
  rewrite app_cons_s. cbn [PyStr.split_once].
  destruct (Ascii.eqb c ":"); [reflexivity|].
  rewrite IH. by destruct (PyStr.split_once ":" v) as [[b r]|].
Qed.

Lemma process_prefix_Id v nsd n :
  process_prefix (v +:+ "Id") nsd n
  = match process_prefix v nsd n with
    | Ok r => Ok (r +:+ "Id")
    | Raise e => Raise e
    end.
Proof.
  unfold process_prefix. rewrite split_once_Id.
  destruct (PyStr.split_once ":" v) as [[b r]|]; cbn [fmap option_fmap option_map fst snd].
  - destruct (in_values _ _); [by rewrite !app_assoc_s|].
    destruct (nsd !! n); [by rewrite !app_assoc_s|done].
  - destruct (nsd !! n); [by rewrite !app_assoc_s|done].
Qed.

(** The primary-key column name is the table name followed by [Id], for a
    table name that is not blank. *)
Lemma sql_normalize_Id nsd t ns :
  PyStr.lstrip t ≠ "" →
  sql_normalize nsd (Some (t +:+ "Id")) ns
  = match sql_normalize nsd (Some t) ns with
    | Ok name => Ok (name +:+ "Id")
    | Raise e => Raise e
    end.
Proof.
  intros H. rewrite !sql_normalize_unfold. cbn [from_option]. unfold id. cbv zeta.
  rewrite normalize_chars_Id by done.
  destruct ns as [n|]; [|done].
  assert (String.eqb (normalize_chars t) "" = false) as ->
    by by apply String.eqb_neq, normalize_chars_not_empty.
  assert (String.eqb (normalize_chars t +:+ "Id") "" = false) as ->
    by by apply String.eqb_neq, app_not_empty_l, normalize_chars_not_empty.
  destruct (bool_decide _ && negb _ && negb false); [|done].
  apply process_prefix_Id.
Qed.

Lemma elem_of_new_columns_pk pk cols : pk ∈ new_columns pk cols.
Proof. unfold new_columns. destruct (not_blank cols); set_solver. Qed.

(** A commit of a table whose name is not blank, step by step. *)
Lemma create_table_in_sql_sentence_Ok cols t ns st st' :
  PyStr.lstrip t ≠ "" →
  create_table_in_sql_sentence cols (Some t) ns st = Ok (tt, st') →
  ∃ name, sql_normalize (NAMESPACE_DICT st) (Some t) (Some ns) = Ok name
          ∧ st' = commit name
                    (new_columns (name +:+ "Id bigint PRIMARY KEY NOT NULL") cols) st.
Proof.
  intros Ht. rewrite create_table_in_sql_sentence_unfold.
  unfold create_primary_key, rbind. rewrite sql_normalize_Id by done.
  destruct (sql_normalize _ _ _) as [name|e]; [|done].
  intros [= <-]. exists name. split; [done|]. by rewrite app_assoc_s.
Qed.

Lemma lstrip_blank_app t s :
  PyStr.lstrip t = "" → PyStr.lstrip (t +:+ s) = PyStr.lstrip s.
Proof.
  induction t as [|c t IH]; [by rewrite app_nil_l_s|].
  cbn [PyStr.lstrip]. destruct (PyStr.isspace c) eqn:Hc; [|done].
  intros Ht. rewrite app_cons_s. cbn [PyStr.lstrip]. rewrite Hc. by apply IH.
Qed.

Lemma normalize_chars_Id_blank t :
  PyStr.lstrip t = "" → normalize_chars (t +:+ "Id") = normalize_chars t +:+ "Id".
Proof.
  intros Ht. unfold normalize_chars. rewrite (lstrip_blank_app _ _ Ht), Ht. reflexivity.
Qed.

(** With the prefix step off the key is named after the table for every
    name, blank or not. *)
Lemma create_table_in_sql_sentence_Ok_off cols t ns st st' :
  prefix_step_off (NAMESPACE_DICT st) (Some ns) →
  create_table_in_sql_sentence cols (Some t) ns st = Ok (tt, st') →
  ∃ name, sql_normalize (NAMESPACE_DICT st) (Some t) (Some ns) = Ok name
          ∧ st' = commit name
                    (new_columns (name +:+ "Id bigint PRIMARY KEY NOT NULL") cols) st.
Proof.
  intros Hoff. rewrite create_table_in_sql_sentence_unfold.
  unfold create_primary_key, rbind. rewrite !sql_normalize_prefix_off by done.
  cbn [default from_option]. unfold id.
  assert (normalize_chars (t +:+ "Id") = normalize_chars t +:+ "Id") as ->.
  { destruct (decide (PyStr.lstrip t = "")) as [Ht|Ht];
      [by apply normalize_chars_Id_blank|by apply normalize_chars_Id]. }
  intros [= <-]. exists (normalize_chars t). split; [done|]. by rewrite app_assoc_s.
Qed.

(** X24 (create_table_in_sql_sentence, create_primary_key): if every
    registered table holds the column [<Table>Id bigint PRIMARY KEY NOT
    NULL] before a commit, and the committed name is not blank or the prefix
    step of [sql_normalize] is off, then every registered table holds it
    after the commit, the committed one included, whatever the committed
    column list is. *)
Theorem commit_keeps_primary_key cols t ns st st' :
  PyStr.lstrip t ≠ "" ∨ prefix_step_off (NAMESPACE_DICT st) (Some ns) →
  primary_key_invariant (TABLE_COLUMNS st) →
  create_table_in_sql_sentence cols (Some t) ns st = Ok (tt, st') →
  primary_key_invariant (TABLE_COLUMNS st')
  ∧ ∃ name, sql_normalize (NAMESPACE_DICT st) (Some t) (Some ns) = Ok name
            ∧ is_Some (TABLE_COLUMNS st' !! name).
Proof.
  intros Ht Hinv Hrun.
  assert (∃ name, sql_normalize (NAMESPACE_DICT st) (Some t) (Some ns) = Ok name
                  ∧ st' = commit name
                            (new_columns (name +:+ "Id bigint PRIMARY KEY NOT NULL") cols)
                            st) as (name & Hn & ->).
  { destruct Ht as [Ht|Hoff];
      [by eapply create_table_in_sql_sentence_Ok
      |by eapply create_table_in_sql_sentence_Ok_off]. }
  rewrite commit_TABLE_COLUMNS. split.
  - intros T cs. destruct (decide (name = T)) as [<-|Hne].
    + rewrite lookup_insert_eq. intros [= <-].
      apply elem_of_union_r, elem_of_list_to_set, elem_of_new_columns_pk.
    + rewrite lookup_insert_ne by done. apply Hinv.
  - exists name. split; [done|]. rewrite lookup_insert_eq. by eexists.
Qed.

Lemma commit_keeps_primary_key_witness :
  let st := Sample.start Sample.two_namespaces in
  let st' := commit "xs_Person"
               (new_columns "xs_PersonId bigint PRIMARY KEY NOT NULL"
                  (Some "xs_Nick nvarchar(max) NULL")) st in
  primary_key_invariant (TABLE_COLUMNS st')
  ∧ ∃ name, sql_normalize (NAMESPACE_DICT st) (Some "Person") (Some Sample.XS) = Ok name
            ∧ is_Some (TABLE_COLUMNS st' !! name).
Proof.
  intros st st'.
  apply (commit_keeps_primary_key (Some "xs_Nick nvarchar(max) NULL") "Person" Sample.XS
           st st').
  - left. discriminate.
  - intros T cs H. cbn in H. by rewrite lookup_empty in H.
  - vm_compute. reflexivity.
Defined.

Lemma primary_key_missing (tc : gmap string (gset string)) (T col : string) :
  tc !! T = Some {[ col ]} → col ≠ T +:+ "Id bigint PRIMARY KEY NOT NULL" →
  ¬ primary_key_invariant tc.
Proof.
  intros HT Hcol Hinv. apply Hcol. symmetry.
  apply (elem_of_singleton (C := gset string)). by apply (Hinv T).
Qed.

(** C9 fails on the code.  With two namespaces registered, a commit to a
    blank table name returns and registers the table of the empty name with
    the key column [xs_Id bigint PRIMARY KEY NOT NULL]; the column of the
    claim, [Id bigint PRIMARY KEY NOT NULL], is not in it, and later commits
    to other tables do not bring it.  A whole walk reaches that commit from
    a document with a blank type name, and the foreign key it writes on the
    parent references the column [Id] that the table does not have.  With
    one namespace the same commit gives the column of the claim. *)
Theorem commit_blank_name_breaks_primary_key :
  let st := Sample.start Sample.two_namespaces in
  let st1 := commit "" ["xs_Id bigint PRIMARY KEY NOT NULL"] st in
  let st2 := commit "xs_Person" ["xs_PersonId bigint PRIMARY KEY NOT NULL"] st1 in
  (primary_key_invariant (TABLE_COLUMNS st)
   ∧ create_table_in_sql_sentence (Some "") (Some " ") Sample.XS st = Ok (tt, st1)
   ∧ TABLE_COLUMNS st1 !! "" = Some {[ "xs_Id bigint PRIMARY KEY NOT NULL" ]}
   ∧ ¬ primary_key_invariant (TABLE_COLUMNS st1))
  ∧ (create_table_in_sql_sentence (Some "") (Some "Person") Sample.XS st1 = Ok (tt, st2)
     ∧ TABLE_COLUMNS st2 !! "" = Some {[ "xs_Id bigint PRIMARY KEY NOT NULL" ]}
     ∧ ¬ primary_key_invariant (TABLE_COLUMNS st2))
  ∧ look4element 1002 Sample.blank_type Sample.XS Sample.blank_type
      (Some "f_schema_xsd") 0 false true 0 st
    = Ok ((true, Some ""),
          mkState Sample.two_namespaces ∅
            (<["" := 1%Z]> {[ "xs_f_schema_xsd" := 1%Z ]})
            (<["" := {[ "xs_Id bigint PRIMARY KEY NOT NULL" ]}]>
               {[ "xs_f_schema_xsd" :=
                    list_to_set
                      [ "xs_f_schema_xsdId bigint PRIMARY KEY NOT NULL";
                        "xs_NoteId bigint NOT NULL";
                        "CONSTRAINT FK_xs_f_schema_xsd_xs_NoteId FOREIGN KEY (xs_NoteId) REFERENCES (Id)";
                        "xs_Id bigint NOT NULL";
                        "CONSTRAINT FK_xs_f_schema_xsd_xs_Id FOREIGN KEY (xs_Id) REFERENCES (Id)" ] ]})
            (<["xs_f_schema_xsd;FK_xs_f_schema_xsd_xs_NoteId" := [("", "1..1")]]>
               {[ "xs_f_schema_xsd;FK_xs_f_schema_xsd_xs_Id" := [("", "1..1")] ]}))
  ∧ create_table_in_sql_sentence (Some "") (Some " ") Sample.XS
      (Sample.start Sample.one_namespace)
    = Ok (tt, commit "" ["Id bigint PRIMARY KEY NOT NULL"]
                (Sample.start Sample.one_namespace)).
Proof.
  intros st st1 st2.
  assert (TABLE_COLUMNS st1 !! "" = Some {[ "xs_Id bigint PRIMARY KEY NOT NULL" ]}) as H1
    by (vm_compute; reflexivity).
  assert (TABLE_COLUMNS st2 !! "" = Some {[ "xs_Id bigint PRIMARY KEY NOT NULL" ]}) as H2
    by (vm_compute; reflexivity).
  split; [|split; [|split]].
  - split; [|split; [|split]].
    + intros T cs H. cbn in H. by rewrite lookup_empty in H.
    + vm_compute. reflexivity.
    + exact H1.
    + by apply (primary_key_missing _ _ _ H1).
  - split; [|split].
    + vm_compute. reflexivity.
    + exact H2.
    + by apply (primary_key_missing _ _ _ H2).
  - vm_compute. reflexivity.
  - vm_compute. reflexivity.
Qed.

(** ** Cardinality and nullability *)

Lemma app_inv_head_s (a b c : string) : a +:+ b = a +:+ c → b = c.
Proof. apply (inj (String.app a)). Qed.

(** C8: inside a choice group (counter above 0) the column is marked NULL
    and tagged with the group's counter, whatever the occurrence attributes
    are; outside, with a readable [minOccurs], it is marked NULL exactly
    when the lower bound is 0 or the element is nillable, and NOT NULL
    exactly otherwise. *)
Theorem nullable_attribute_of_column (counter_choice : Z) (el : Element) (col : string) :
  ((0 < counter_choice)%Z →
   get_nullable_attribute_from_col_definition counter_choice el col
   = Ok (col +:+ " NULL" +:+ "/*counter_choice=" +:+ PyStr.of_int counter_choice +:+ "*/"))
  ∧ ((counter_choice ≤ 0)%Z →
     ∀ m, py_int (get_default el "minOccurs" "1") = Ok m →
     ∃ r, get_nullable_attribute_from_col_definition counter_choice el col = Ok r
          ∧ (r = col +:+ " NULL" ↔ (m = 0%Z ∨ nillable el = true))
          ∧ (r = col +:+ " NOT NULL" ↔ ¬ (m = 0%Z ∨ nillable el = true))).
Proof.
  unfold get_nullable_attribute_from_col_definition. split.
  - intros H. apply Z.ltb_lt in H. rewrite H.
    unfold generate_str_counter_choice, CONSTANT_COUNTER_CHOICE_STR. by rewrite H.
  - intros H m Hm.
    assert ((0 <? counter_choice)%Z = false) as -> by by apply Z.ltb_ge.
    unfold get_nullable_attribute, rbind. rewrite Hm. fold (nillable el).
    destruct (Z.eqb_spec m 0) as [->|Hne]; cbn [orb].
    + eexists. split; [done|]. split; [tauto|].
      split; [intros E%app_inv_head_s; discriminate|tauto].
    + destruct (nillable el); eexists; (split; [done|]).
      * split; [tauto|]. split; [intros E%app_inv_head_s; discriminate|tauto].
      * split.
        -- split; [intros E%app_inv_head_s; discriminate|]. intros [?|?]; done.
        -- split; [|done]. intros _ [?|?]; done.
Qed.

Lemma nullable_attribute_of_column_witness :
  get_nullable_attribute_from_col_definition 2 Sample.items "Item bigint"
  = Ok "Item bigint NULL/*counter_choice=2*/"
  ∧ ∃ r, get_nullable_attribute_from_col_definition 0 Sample.optional_nick
           "Nick nvarchar(max)" = Ok r
         ∧ (r = "Nick nvarchar(max) NULL" ↔ (0%Z = 0%Z ∨ nillable Sample.optional_nick = true))
         ∧ (r = "Nick nvarchar(max) NOT NULL"
            ↔ ¬ (0%Z = 0%Z ∨ nillable Sample.optional_nick = true)).
Proof.
  split.
  - apply (proj1 (nullable_attribute_of_column 2 Sample.items "Item bigint")). lia.
  - apply (proj2 (nullable_attribute_of_column 0 Sample.optional_nick "Nick nvarchar(max)")).
    + lia.
    + vm_compute. reflexivity.
Defined.

(** ** Foreign-key and cardinality resolver *)

Lemma process_prefix_registered s nsd n :
  is_Some (nsd !! n) → ∃ y, process_prefix s nsd n = Ok y.
Proof.
  intros [p Hp]. unfold process_prefix. rewrite Hp.
  destruct (PyStr.split_once ":" s) as [[b r]|]; [|by eexists].
  destruct (in_values _ _); by eexists.
Qed.

(** With a registered namespace, [sql_normalize] returns. *)
Lemma sql_normalize_registered nsd x ns :
  is_Some (nsd !! ns) → ∃ y, sql_normalize nsd x (Some ns) = Ok y.
Proof.
  intros H. rewrite sql_normalize_unfold. cbv zeta.
  destruct (_ && _ && _); [by apply process_prefix_registered|by eexists].
Qed.

Lemma lstrip_not_empty a c b :
  PyStr.isspace c = false → PyStr.lstrip (a +:+ String c b) ≠ "".
Proof.
  intros Hc. induction a as [|x a IH]; cbn.
  - rewrite app_nil_l_s. cbn. by rewrite Hc.
  - rewrite app_cons_s. cbn. by destruct (PyStr.isspace x).
Qed.

Lemma has_char_app c a b :
  PyStr.has_char c (a +:+ b) = PyStr.has_char c a || PyStr.has_char c b.
Proof.
  induction a as [|x a IH]; [reflexivity|].
  rewrite app_cons_s. cbn. by rewrite IH, orb_assoc.
Qed.

Lemma prefix_nil s : String.prefix "" s = true.
Proof. by destruct s. Qed.

(** A piece without comma is not split. *)
Lemma split_comma_single b :
  PyStr.has_char "," b = false → PyStr.split ", " b = [b].
Proof.
  unfold PyStr.split. induction b as [|c b IH]; [reflexivity|].
  cbn [PyStr.has_char]. intros [Hc Hb]%orb_false_elim.
  cbn [PyStr.split_go String.prefix].
  destruct (ascii_dec "," c) as [<-|_]; [discriminate|].
  by rewrite IH.
Qed.

Lemma split_comma_app a b :
  PyStr.has_char "," a = false →
  PyStr.split ", " (a +:+ ", " +:+ b) = a :: PyStr.split ", " b.
Proof.
  unfold PyStr.split. induction a as [|c a IH].
  - intros _. rewrite app_nil_l_s, !app_cons_s, app_nil_l_s.
    cbn [PyStr.split_go String.prefix]. destruct (ascii_dec "," ","); [|done].
    destruct (ascii_dec " " " "); [|done].
    by rewrite prefix_nil.
  - cbn [PyStr.has_char]. intros [Hc Ha]%orb_false_elim.
    rewrite app_cons_s. cbn [PyStr.split_go String.prefix].
    destruct (ascii_dec "," c) as [<-|_]; [discriminate|].
    by rewrite IH.
Qed.

Lemma pretty_N_char_decimal d : PyStr.is_decimal (pretty_N_char d) = true.
Proof. unfold pretty_N_char. by repeat case_match. Qed.

Lemma pretty_N_go_digits x s :
  PyStr.all_chars PyStr.is_decimal s = true →
  PyStr.all_chars PyStr.is_decimal (pretty_N_go x s) = true.
Proof.
  revert s. induction (N.lt_wf_0 x) as [x _ IH]; intros s Hs.
  assert (x = 0 ∨ 0 < x)%N as [->|?] by lia.
  - by rewrite pretty_N_go_0.
  - rewrite pretty_N_go_step by done. apply IH.
    { by apply N.div_lt. }
    cbn. by rewrite pretty_N_char_decimal.
Qed.

Lemma pretty_N_digits (x : N) : PyStr.all_chars PyStr.is_decimal (pretty x) = true.
Proof.
  unfold pretty, pretty_N. case_decide; [reflexivity|]. by apply pretty_N_go_digits.
Qed.

Lemma all_chars_has_char p c s :
  PyStr.all_chars p s = true → p c = false → PyStr.has_char c s = false.
Proof.
  intros Hs Hc. induction s as [|a s IH]; [reflexivity|].
  cbn [PyStr.all_chars PyStr.has_char] in *. apply andb_true_iff in Hs as [Ha Hs].
  rewrite IH, orb_false_r by done. apply Ascii.eqb_neq. congruence.
Qed.

(** [str(n)] has digits and possibly a minus sign, nothing else. *)
Lemma of_int_has_char c z :
  PyStr.is_decimal c = false → c ≠ "-"%char → PyStr.has_char c (PyStr.of_int z) = false.
Proof.
  intros Hc Hm. unfold PyStr.of_int, pretty, pretty_Z. destruct z as [|p|p].
  - cbn [PyStr.has_char]. rewrite orb_false_r. apply Ascii.eqb_neq.
    intros <-. discriminate.
  - eapply all_chars_has_char; [apply (pretty_N_digits (Npos p))|done].
  - rewrite app_cons_s, app_nil_l_s. cbn [PyStr.has_char].
    assert (Ascii.eqb "-" c = false) as -> by (apply Ascii.eqb_neq; congruence).
    eapply all_chars_has_char; [apply (pretty_N_digits (Npos p))|done].
Qed.

(** The nullability suffix has no comma. *)
Lemma nullable_attribute_suffix cc el d col :
  get_nullable_attribute_from_col_definition cc el d = Ok col →
  ∃ suffix, col = d +:+ suffix ∧ PyStr.has_char "," suffix = false.
Proof.
  unfold get_nullable_attribute_from_col_definition, get_nullable_attribute, rbind.
  destruct (0 <? cc)%Z.
  - intros [= <-]. eexists. split; [done|].
    unfold generate_str_counter_choice. case_match; [|reflexivity].
    unfold CONSTANT_COUNTER_CHOICE_STR. rewrite !has_char_app.
    by rewrite of_int_has_char.
  - destruct (py_int _) as [m|]; [|done].
    destruct (_ || _); intros [= <-]; by eexists.
Qed.

Lemma get_cardinality_min_occurs el c :
  get_cardinality el = Ok c → ∃ m, py_int (get_default el "minOccurs" "1") = Ok m.
Proof.
  unfold get_cardinality, rbind. destruct (py_int _) as [m|]; [|done]. by eexists.
Qed.

Lemma nullable_attribute_returns cc el d c :
  get_cardinality el = Ok c →
  ∃ col, get_nullable_attribute_from_col_definition cc el d = Ok col.
Proof.
  intros [m Hm]%get_cardinality_min_occurs.
  unfold get_nullable_attribute_from_col_definition, get_nullable_attribute, rbind.
  rewrite Hm. destruct (0 <? cc)%Z; [by eexists|]. destruct (_ || _); by eexists.
Qed.

Lemma remove_relationship_unfold parent_table foreign_key_name st :
  remove_relationship_dict_relationships parent_table foreign_key_name st
  = Ok (tt, set_dict_relationships
              (delete (relationship_key parent_table foreign_key_name)) st).
Proof.
  unfold remove_relationship_dict_relationships, bind, gets, modify, ret; cbv beta iota.
  case_bool_decide as H; [done|].
  destruct st as [nsd ut h tc dr]; unfold set_dict_relationships; cbn in *.
  do 3 f_equal. symmetry. apply delete_id. by apply eq_None_not_Some.
Qed.

Lemma add_relationship_replace_unfold parent_table foreign_key_name ref c st :
  add_relationship_dict_relationships parent_table foreign_key_name ref c true st
  = Ok (tt, set_dict_relationships
              <[relationship_key parent_table foreign_key_name := [(ref, c)]]> st).
Proof.
  unfold add_relationship_dict_relationships, bind, gets, modify; cbv beta iota.
  by rewrite orb_true_r.
Qed.

(** ** The cardinality string and its reading *)

Lemma rev_app_rev_app (s1 s2 s3 : string) :
  String.rev_app (String.rev_app s1 s2) s3 = String.rev_app s2 (s1 +:+ s3).
Proof.
  revert s2. induction s1 as [|c s1 IH]; intros s2; [reflexivity|].
  cbn [String.rev_app]. rewrite IH. reflexivity.
Qed.

Lemma rev_involutive_s (s : string) : String.rev (String.rev s) = s.
Proof. unfold String.rev. rewrite rev_app_rev_app. cbn. apply app_nil_r_s. Qed.

Lemma all_chars_rev_app p s1 s2 :
  PyStr.all_chars p (String.rev_app s1 s2) = PyStr.all_chars p s1 && PyStr.all_chars p s2.
Proof.
  revert s2. induction s1 as [|c s1 IH]; intros s2; [reflexivity|].
  cbn [String.rev_app PyStr.all_chars]. rewrite IH. cbn [PyStr.all_chars].
  by destruct (p c), (PyStr.all_chars p s1).
Qed.

Lemma is_decimal_not_space c : PyStr.is_decimal c = true → PyStr.isspace c = false.
Proof. destruct c as [[] [] [] [] [] [] [] []]; cbv; congruence. Qed.

Lemma lstrip_digits s : PyStr.all_chars PyStr.is_decimal s = true → PyStr.lstrip s = s.
Proof.
  destruct s as [|c s]; [done|]. cbn [PyStr.all_chars].
  intros [Hc _]%andb_true_iff. by apply lstrip_fixed, is_decimal_not_space.
Qed.

Lemma strip_digits s : PyStr.all_chars PyStr.is_decimal s = true → PyStr.strip s = s.
Proof.
  intros Hs. unfold PyStr.strip, PyStr.rstrip. rewrite (lstrip_digits s Hs).
  rewrite lstrip_digits; [apply rev_involutive_s|].
  unfold String.rev. rewrite all_chars_rev_app, Hs. reflexivity.
Qed.

(** On a string of digits [int] is the plain digit reader. *)
Lemma int_digits s :
  PyStr.all_chars PyStr.is_decimal s = true → PyStr.int s = PyStr.digits_go 0 false s.
Proof.
  intros Hs. unfold PyStr.int. rewrite (strip_digits s Hs).
  destruct s as [|c r]; [reflexivity|].
  cbn [PyStr.all_chars] in Hs. apply andb_true_iff in Hs as [Hc _].
  destruct c as [[] [] [] [] [] [] [] []]; try reflexivity; discriminate.
Qed.

Lemma pretty_N_char_value d :
  (d < 10)%N → Z.of_nat (nat_of_ascii (pretty_N_char d) - 48) = Z.of_N d.
Proof.
  intros Hd.
  assert (d = 0 ∨ d = 1 ∨ d = 2 ∨ d = 3 ∨ d = 4 ∨ d = 5 ∨ d = 6 ∨ d = 7 ∨ d = 8 ∨ d = 9)%N
    as Hcases by lia.
  destruct Hcases as [->|[->|[->|[->|[->|[->|[->|[->|[->| ->]]]]]]]]]; reflexivity.
Qed.

(** Reading the digits that [pretty_N_go] writes. *)
Lemma digits_go_pretty_N_go x :
  (0 < x)%N →
  ∃ k : Z, ∀ acc b s,
    PyStr.digits_go acc b (pretty_N_go x s)
    = PyStr.digits_go (acc * k + Z.of_N x) true s.
Proof.
  induction (N.lt_wf_0 x) as [x _ IH]. intros Hx.
  assert (∀ acc b s,
    PyStr.digits_go acc b (String (pretty_N_char (x `mod` 10)) s)
    = PyStr.digits_go (10 * acc + Z.of_N (x `mod` 10)) true s) as Hstep.
  { intros acc b s. cbn [PyStr.digits_go]. rewrite pretty_N_char_decimal.
    rewrite pretty_N_char_value; [done|]. by apply N.mod_lt. }
  assert (Z.of_N x = 10 * Z.of_N (x `div` 10) + Z.of_N (x `mod` 10))%Z as Hdm.
  { rewrite <- (N2Z.inj_mul 10), <- N2Z.inj_add. f_equal. by apply N.div_mod. }
  destruct (decide (x `div` 10 = 0)%N) as [Hz|Hnz].
  - exists 10%Z. intros acc b s. rewrite pretty_N_go_step by done.
    rewrite Hz, pretty_N_go_0, Hstep. f_equal.
    rewrite Hdm, Hz. lia.
  - destruct (IH (x `div` 10)%N) as [k Hk];
      [by apply N.div_lt|by apply N.neq_0_lt_0|].
    exists (10 * k)%Z. intros acc b s. rewrite pretty_N_go_step by done.
    rewrite Hk, Hstep. f_equal.
    rewrite Hdm. lia.
Qed.

Lemma pretty_N_go_truthy x s :
  PyStr.truthy s = true → PyStr.truthy (pretty_N_go x s) = true.
Proof.
  revert s. induction (N.lt_wf_0 x) as [x _ IH]; intros s Hs.
  assert (x = 0 ∨ 0 < x)%N as [->|?] by lia.
  - by rewrite pretty_N_go_0.
  - rewrite pretty_N_go_step by done. apply IH; [by apply N.div_lt|done].
Qed.

Lemma pretty_N_truthy (x : N) : PyStr.truthy (pretty x) = true.
Proof.
  unfold pretty, pretty_N. case_decide as Hx; [reflexivity|].
  rewrite pretty_N_go_step by lia. by apply pretty_N_go_truthy.
Qed.

Lemma int_pretty_N (x : N) : PyStr.int (pretty x) = Some (Z.of_N x).
Proof.
  rewrite int_digits by apply pretty_N_digits.
  unfold pretty, pretty_N. case_decide as Hx; [by subst|].
  destruct (digits_go_pretty_N_go x) as [k Hk]; [lia|].
  rewrite Hk. cbn [PyStr.digits_go]. f_equal; lia.
Qed.

Lemma all_decimal_isdigit s :
  PyStr.all_chars PyStr.is_decimal s = true → PyStr.all_chars PyStr.isdigit_char s = true.
Proof.
  induction s as [|c s IH]; [done|]. cbn [PyStr.all_chars].
  intros [Hc Hs]%andb_true_iff. unfold PyStr.isdigit_char at 1. by rewrite Hc, IH.
Qed.

(** [str(n).isdigit()] tells whether [n] is not negative, and [int] reads
    [str(n)] back. *)
Lemma of_int_isdigit n : PyStr.isdigit (PyStr.of_int n) = (0 <=? n)%Z.
Proof.
  unfold PyStr.of_int, pretty, pretty_Z, PyStr.isdigit. destruct n as [|p|p].
  - reflexivity.
  - change (pretty p) with (pretty (Npos p)).
    by rewrite pretty_N_truthy, all_decimal_isdigit by apply pretty_N_digits.
  - reflexivity.
Qed.

Lemma int_of_int n : (0 ≤ n)%Z → PyStr.int (PyStr.of_int n) = Some n.
Proof.
  unfold PyStr.of_int, pretty, pretty_Z. destruct n as [|p|p]; [reflexivity| |lia].
  intros _. change (pretty p) with (pretty (Npos p)). by rewrite int_pretty_N.
Qed.

Lemma split_dots_single b :
  PyStr.has_char "." b = false → PyStr.split ".." b = [b].
Proof.
  unfold PyStr.split. induction b as [|c b IH]; [reflexivity|].
  cbn [PyStr.has_char]. intros [Hc Hb]%orb_false_elim.
  cbn [PyStr.split_go String.prefix].
  destruct (ascii_dec "." c) as [<-|_]; [discriminate|].
  by rewrite IH.
Qed.

Lemma split_dots_app a b :
  PyStr.has_char "." a = false →
  PyStr.split ".." (a +:+ ".." +:+ b) = a :: PyStr.split ".." b.
Proof.
  unfold PyStr.split. induction a as [|c a IH].
  - intros _. rewrite app_nil_l_s, !app_cons_s, app_nil_l_s.
    cbn [PyStr.split_go String.prefix]. destruct (ascii_dec "." "."); [|done].
    by rewrite prefix_nil.
  - cbn [PyStr.has_char]. intros [Hc Ha]%orb_false_elim.
    rewrite app_cons_s. cbn [PyStr.split_go String.prefix].
    destruct (ascii_dec "." c) as [<-|_]; [discriminate|].
    by rewrite IH.
Qed.

(** Whatever branch returns it, the cardinality is [<min>..<max>]. *)
Lemma get_cardinality_format el c :
  get_cardinality el = Ok c →
  ∃ m mx, py_int (get_default el "minOccurs" "1") = Ok m
          ∧ (if String.eqb (get_default el "maxOccurs" "1") "unbounded"
             then mx = MaxStar
             else ∃ n, PyStr.int (get_default el "maxOccurs" "1") = Some n
                       ∧ mx = MaxInt n)
          ∧ c = PyStr.of_int m +:+ ".." +:+ max_occurs_str mx.
Proof.
  unfold get_cardinality, rbind.
  destruct (py_int (get_default el "minOccurs" "1")) as [m|] eqn:Hm; [|done].
  destruct (String.eqb (get_default el "maxOccurs" "1") "unbounded") eqn:Hu.
  - intros Hc. exists m, MaxStar. split; [done|]. split; [done|].
    cbn [max_occurs_eq_star max_occurs_eq_int max_occurs_str andb] in *.
    rewrite andb_true_r, andb_false_r in Hc.
    destruct (Z.eqb_spec m 1) as [->|_]; by injection Hc as <-.
  - unfold py_int at 1.
    destruct (PyStr.int (get_default el "maxOccurs" "1")) as [n|] eqn:Hn; [|done].
    intros Hc. exists m, (MaxInt n). split; [done|]. split; [by exists n|].
    cbn [max_occurs_eq_star max_occurs_eq_int max_occurs_str] in *.
    rewrite andb_false_r in Hc.
    destruct (Z.eqb_spec m 0) as [->|_]; cbn [andb] in Hc.
    + destruct (Z.eqb_spec n 1) as [->|_]; by injection Hc as <-.
    + by injection Hc as <-.
Qed.

(** The test on the cardinality string agrees with the occurrence
    attributes: it holds exactly for an upper bound that is [unbounded] or
    an integer above 1. *)
Lemma cardinality_right_is_n_spec el c :
  get_cardinality el = Ok c → cardinality_right_is_n c = Ok (upper_bound_is_many el).
Proof.
  intros (m & mx & Hm & Hmx & ->)%get_cardinality_format.
  unfold cardinality_right_is_n, upper_bound_is_many.
  rewrite split_dots_app by by apply of_int_has_char.
  destruct (String.eqb (get_default el "maxOccurs" "1") "unbounded").
  - subst mx. reflexivity.
  - destruct Hmx as (n & Hn & ->). rewrite Hn. cbn [max_occurs_str].
    rewrite split_dots_single by by apply of_int_has_char.
    cbn [lookup list_lookup].
    assert (String.eqb (PyStr.of_int n) "*" = false) as ->.
    { apply String.eqb_neq. intros Heq.
      pose proof (of_int_has_char "*" n eq_refl ltac:(done)) as Hno.
      by rewrite Heq in Hno. }
    rewrite of_int_isdigit. destruct (Z.leb_spec 0 n) as [Hle|Hlt].
    + unfold py_int, rbind. by rewrite int_of_int.
    + f_equal. symmetry. apply Z.ltb_ge. lia.
Qed.

Lemma fk_constraint_has_comma a b c d :
  PyStr.has_char "," (fk_constraint a b c d)
  = PyStr.has_char "," a || PyStr.has_char "," b || PyStr.has_char "," c
    || PyStr.has_char "," d.
Proof.
  unfold fk_constraint. rewrite !has_char_app.
  change (PyStr.has_char "," "CONSTRAINT ") with false.
  change (PyStr.has_char "," " FOREIGN KEY (") with false.
  change (PyStr.has_char "," ") REFERENCES ") with false.
  change (PyStr.has_char "," "(") with false.
  change (PyStr.has_char "," ")") with false.
  rewrite !orb_false_r, !orb_false_l, !orb_assoc. reflexivity.
Qed.

(** C1: a foreign-key resolution for an element whose upper occurrence
    bound is "many" ([unbounded] or an integer above 1, which is when the
    source's test on the cardinality string holds) returns, puts the relationship under the key of the raw field name
    with the single pair (referenced table, cardinality), leaves no entry
    under the key of the forward direction, commits the foreign-key column
    and the CONSTRAINT fragment that references the parent to the
    referenced table, and hands back the parent's column list without any
    foreign-key fragment. *)
Theorem create_fk_field_many el cols p f r counter_choice ns st c :
  is_Some (NAMESPACE_DICT st !! ns) →
  get_cardinality el = Ok c →
  upper_bound_is_many el = true →
  ∃ fk_field parent_fk ref col pk_ref cols' st',
    let nsd := NAMESPACE_DICT st in
    let fk_name := get_foreign_key_name f parent_fk in
    let column := parent_fk +:+ "Id_0" in
    let constraint := fk_constraint fk_name column parent_fk (parent_fk +:+ "Id") in
    sql_normalize nsd (Some (f +:+ "Id")) (Some ns) = Ok fk_field
    ∧ sql_normalize nsd (Some p) (Some ns) = Ok parent_fk
    ∧ sql_normalize nsd (Some r) (Some ns) = Ok ref
    ∧ get_nullable_attribute_from_col_definition counter_choice el (column +:+ " bigint")
      = Ok col
    ∧ create_primary_key nsd (Some r) ns = Ok pk_ref
    ∧ create_fk_field el cols (Some p) (Some f) (Some r) counter_choice ns st
      = Ok (cols', st')
    ∧ dict_relationships st'
      = <[relationship_key parent_fk fk_name := [(ref, c)]]>
          (delete (relationship_key parent_fk (get_foreign_key_name fk_field parent_fk))
             (dict_relationships st))
    ∧ TABLE_COLUMNS st'
      = <[ref := default ∅ (TABLE_COLUMNS st !! ref)
                 ∪ list_to_set (pk_ref :: PyStr.split ", " (col +:+ ", " +:+ constraint))]>
          (TABLE_COLUMNS st)
    ∧ (PyStr.has_char "," parent_fk = false → PyStr.has_char "," f = false →
       ∃ columns, TABLE_COLUMNS st' !! ref = Some columns
                  ∧ col ∈ columns ∧ constraint ∈ columns)
    ∧ (not_blank cols = true → cols' = default "" cols)
    ∧ (not_blank cols = false → create_primary_key nsd (Some p) ns = Ok cols').
Proof.
  intros Hns Hc Hupper.
  assert (cardinality_right_is_n c = Ok true) as Hmany
    by (rewrite (cardinality_right_is_n_spec el c Hc); by rewrite Hupper).
  destruct (sql_normalize_registered (NAMESPACE_DICT st) (Some (f +:+ "Id")) ns Hns)
    as [fk_field Hfk].
  destruct (sql_normalize_registered (NAMESPACE_DICT st) (Some p) ns Hns)
    as [parent_fk Hp].
  destruct (sql_normalize_registered (NAMESPACE_DICT st) (Some r) ns Hns) as [ref Hr].
  destruct (sql_normalize_registered (NAMESPACE_DICT st) (Some (r +:+ "Id")) ns Hns)
    as [rid Hrid].
  destruct (sql_normalize_registered (NAMESPACE_DICT st) (Some (p +:+ "Id")) ns Hns)
    as [pid Hpid].
  destruct (nullable_attribute_returns counter_choice el
              ((parent_fk +:+ "Id_0") +:+ " bigint") c Hc) as [col Hcol].
  set (constraint := fk_constraint (get_foreign_key_name f parent_fk)
                       (parent_fk +:+ "Id_0") parent_fk (parent_fk +:+ "Id")).
  assert (not_blank (Some (col +:+ ", " +:+ constraint)) = true) as Hnb.
  { cbn [not_blank]. apply negb_true_iff, String.eqb_neq.
    change (", " +:+ constraint) with (String "," (" " +:+ constraint)).
    by apply lstrip_not_empty. }
  exists fk_field, parent_fk, ref, col, (rid +:+ " bigint PRIMARY KEY NOT NULL").
  assert (create_primary_key (NAMESPACE_DICT st) (Some r) ns
          = Ok (rid +:+ " bigint PRIMARY KEY NOT NULL")) as Hpk
    by (unfold create_primary_key, rbind; by rewrite Hrid).
  set (st1 := set_dict_relationships
                <[relationship_key parent_fk (get_foreign_key_name f parent_fk)
                  := [(ref, c)]]>
                (set_dict_relationships
                   (delete (relationship_key parent_fk
                              (get_foreign_key_name fk_field parent_fk))) st)).
  set (st2 := commit ref (new_columns (rid +:+ " bigint PRIMARY KEY NOT NULL")
                            (Some (col +:+ ", " +:+ constraint))) st1).
  exists (if not_blank cols then default "" cols
          else pid +:+ " bigint PRIMARY KEY NOT NULL"), st2.
  cbv zeta. repeat apply conj; try done.
  - unfold create_fk_field, bind, gets, lift; cbv beta iota zeta.
    rewrite Hfk; cbv beta iota. unfold get_parent_table_name. rewrite Hp; cbv beta iota.
    rewrite Hr; cbv beta iota. rewrite Hc; cbv beta iota. rewrite Hmany; cbv beta iota.
    rewrite remove_relationship_unfold; cbv beta iota.
    rewrite add_relationship_replace_unfold; cbv beta iota. fold st1.
    change (parent_fk +:+ "Id" +:+ "_" +:+ PyStr.of_int 0) with (parent_fk +:+ "Id_0").
    rewrite Hcol; cbv beta iota. fold constraint.
    rewrite create_table_in_sql_sentence_unfold.
    change (NAMESPACE_DICT st1) with (NAMESPACE_DICT st).
    rewrite Hpk, Hr. fold st2.
    destruct (not_blank cols); cbn [negb]; [reflexivity|].
    unfold create_primary_key, rbind. by rewrite Hpid.
  - unfold st2. rewrite commit_TABLE_COLUMNS. unfold new_columns. by rewrite Hnb.
  - intros Hpc Hfc. unfold st2. rewrite commit_TABLE_COLUMNS, lookup_insert_eq.
    eexists. split; [done|].
    destruct (nullable_attribute_suffix _ _ _ _ Hcol) as (suffix & -> & Hsuf).
    unfold new_columns. rewrite Hnb. cbn [from_option]. unfold id.
    rewrite split_comma_app, split_comma_single.
    + split; apply elem_of_union_r, elem_of_list_to_set; set_solver.
    + unfold constraint. rewrite fk_constraint_has_comma.
      unfold get_foreign_key_name. rewrite !has_char_app, Hpc, Hfc. reflexivity.
    + rewrite !has_char_app, Hpc, Hsuf. reflexivity.
  - by intros ->.
  - intros ->. unfold create_primary_key, rbind. by rewrite Hpid.
Qed.

Lemma create_fk_field_many_witness :
  ∃ cols' st',
    create_fk_field Sample.items (Some "Num int NOT NULL") (Some "Order") (Some "Item")
      (Some "Item") 0 Sample.XS (Sample.start Sample.one_namespace) = Ok (cols', st')
    ∧ dict_relationships st' !! "Order;FK_Order_Item" = Some [("Item", "0..*")].
Proof.
  destruct (create_fk_field_many Sample.items (Some "Num int NOT NULL") "Order" "Item"
              "Item" 0 Sample.XS (Sample.start Sample.one_namespace) "0..*")
    as (fk & pfk & ref & col & pk & cols' & st' & H).
  - exists "xs:". vm_compute. reflexivity.
  - vm_compute. reflexivity.
  - vm_compute. reflexivity.
  - cbv zeta in H. destruct H as (Hfk & Hp & Hr & _ & _ & Hrun & Hd & _).
    exists cols', st'. split; [exact Hrun|].
    rewrite Hd. vm_compute in Hp, Hr. injection Hp as <-. injection Hr as <-.
    apply lookup_insert_eq.
Defined.

(** ** Schema walker *)

(** An element whose type is in no registry and names no complex type: in
    lenient mode [process_element] returns [None], whatever column list it
    was given; in strict mode it raises [InvalidXMLType]. *)
Lemma process_element_unresolved_type el parent normalize counter_choice cols ns root
    st n prefix nk :
  let thisType :=
    default "string" (py_or (py_or (get el "type") (get el "ref")) (Some "string")) in
  let k := PyStr.replace prefix "" thisType in
  sql_normalize (NAMESPACE_DICT st) (get el "name") (Some ns) = Ok n →
  HASH_TABLE_TABLES_GENERATED st !! n = None →
  is_complex_type root ns (get el "name") = false →
  get el "ref" = None →
  NAMESPACE_DICT st !! ns = Some prefix →
  DEFX2SQLSERVER !! k = None →
  sql_normalize (NAMESPACE_DICT st) (Some k) (Some ns) = Ok nk →
  USER_TYPES st !! nk = None →
  is_complex_type root ns (Some thisType) = false →
  process_element el parent false normalize counter_choice cols ns root st = Ok (None, st)
  ∧ process_element el parent true normalize counter_choice cols ns root st
    = Raise (InvalidXMLType ((prefix +:+ thisType) +:+ " is an invalid XSD type.")).
Proof.
  intros thisType k Hn Hgen Hname Href Hprefix Hbuiltin Hnk Huser Htype.
  assert (∀ fail,
    process_element el parent fail normalize counter_choice cols ns root st
    = if fail
      then Raise (InvalidXMLType ((prefix +:+ thisType) +:+ " is an invalid XSD type."))
      else Ok (None, st)) as Hrun.
  { intros fail. subst k thisType. rewrite Href in Hbuiltin, Hnk, Htype.
    unfold process_element, bind, gets, lift, ret, raise; cbv beta iota zeta.
    rewrite Hn; cbv beta iota. rewrite Hgen.
    rewrite (bool_decide_eq_false_2 (is_Some None)) by by intros [? ?].
    cbn [andb]. rewrite Hname, andb_false_r. rewrite Href.
    rewrite (bool_decide_eq_false_2 (is_Some None)) by by intros [? ?].
    rewrite Hprefix; cbv beta iota.
    rewrite (SDict_get_absent _ _ Hbuiltin); cbv beta iota.
    cbn [py_not negb]. rewrite Hnk; cbv beta iota. rewrite Huser.
    cbn [from_option py_not negb andb].
    destruct fail; cbn [andb]; [reflexivity|].
    rewrite Htype, andb_false_r. reflexivity. }
  split; apply Hrun.
Qed.

(** C5: in lenient mode an element whose type no registry knows makes
    [process_element] fall off its end and return [None] instead of the
    column list it was given, so the walker loses the columns accumulated so
    far ([FirstName] below); in strict mode it raises [InvalidXMLType]. *)
Theorem unresolved_type_drops_accumulated_columns :
  let st := Sample.start Sample.one_namespace in
  process_element Sample.unknown_B (Some "Person") false true 0
    (Some "FirstName nvarchar(max) NOT NULL") Sample.XS Sample.person st
  = Ok (None, st)
  ∧ process_element Sample.unknown_B (Some "Person") true true 0
      (Some "FirstName nvarchar(max) NOT NULL") Sample.XS Sample.person st
    = Raise (InvalidXMLType "xs:xs:foo is an invalid XSD type.")
  ∧ match look4element 1002 Sample.person Sample.XS Sample.person (Some "f_schema_xsd")
            0 false true 0 st with
    | Ok (_, st') =>
        TABLE_COLUMNS st' !! "Person"
        = Some (list_to_set ["PersonId bigint PRIMARY KEY NOT NULL";
                             "LastName nvarchar(max) NOT NULL"])
    | Raise _ => False
    end.
Proof. intros st. split; [|split]; vm_compute; reflexivity. Qed.

(** What the walker does with the same type when the unknown element is
    left out: both columns are kept. *)
Example known_types_keep_columns :
  let st := Sample.start Sample.one_namespace in
  let schema :=
    mkElement (Sample.XS +:+ "schema") ∅
      [ mkElement (Sample.XS +:+ "complexType") {[ "name" := "Person" ]}
          [ mkElement (Sample.XS +:+ "sequence") ∅
              [ Sample.leaf "FirstName" "xs:string"; Sample.leaf "LastName" "xs:string" ] ] ] in
  match look4element 1002 schema Sample.XS schema (Some "f_schema_xsd") 0 false true 0 st with
  | Ok (_, st') =>
      TABLE_COLUMNS st' !! "Person"
      = Some (list_to_set ["PersonId bigint PRIMARY KEY NOT NULL";
                           "FirstName nvarchar(max) NOT NULL";
                           "LastName nvarchar(max) NOT NULL"])
  | Raise _ => False
  end.
Proof. vm_compute. reflexivity. Qed.

(** An element of an unsupported built-in type stops the run, strict or
    not: the registry lookup raises before the policy is consulted. *)
Example unsupported_builtin_element_raises fail :
  process_element (Sample.leaf "q" "xs:QName") (Some "Person") fail true 0 (Some "")
    Sample.XS Sample.person (Sample.start Sample.one_namespace)
  = Raise TypeError.
Proof. destruct fail; vm_compute; reflexivity. Qed.

(** ** Dependency graph resolver *)

Lemma add_node_pure_wf n g : wf_DiGraph g → wf_DiGraph (add_node_pure n g).
Proof.
  intros (Hn & He & Hin). unfold add_node_pure. case_bool_decide as Hm; [done|].
  split; [|split]; cbn.
  - apply NoDup_app. split; [done|]. split; [|apply NoDup_singleton].
    intros x Hx ->%list_elem_of_singleton. done.
  - done.
  - intros u v Huv. destruct (Hin u v Huv). split; apply elem_of_app; by left.
Qed.

Lemma add_node_pure_elem n g : n ∈ nodes (add_node_pure n g).
Proof.
  unfold add_node_pure. case_bool_decide; [done|].
  cbn. apply elem_of_app. right. by apply list_elem_of_singleton.
Qed.

Lemma add_node_pure_mono n m g : m ∈ nodes g → m ∈ nodes (add_node_pure n g).
Proof.
  unfold add_node_pure. case_bool_decide; [done|].
  cbn. intros. apply elem_of_app. by left.
Qed.

Lemma add_edge_pure_wf u v g : wf_DiGraph g → wf_DiGraph (add_edge_pure u v g).
Proof.
  intros Hwf. unfold add_edge_pure.
  pose proof (add_node_pure_wf v _ (add_node_pure_wf u _ Hwf)) as (Hn & He & Hin).
  case_bool_decide as Hm; [done|].
  split; [|split]; cbn; [done| |].
  - apply NoDup_app. split; [done|]. split; [|apply NoDup_singleton].
    intros x Hx ->%list_elem_of_singleton. done.
  - intros a b [Hab|[= -> ->]%list_elem_of_singleton]%elem_of_app; [by apply Hin|].
    split.
    + apply add_node_pure_mono, add_node_pure_elem.
    + apply add_node_pure_elem.
Qed.

Lemma remove_edge_pure_Ok u v g :
  (u, v) ∈ edges g →
  remove_edge_pure u v g
  = Ok (mkDiGraph (nodes g) (filter (fun e => e ≠ (u, v)) (edges g))).
Proof. intros H. unfold remove_edge_pure. by rewrite bool_decide_eq_true_2. Qed.

Lemma remove_edge_wf e g :
  wf_DiGraph g → wf_DiGraph (mkDiGraph (nodes g) (filter (fun x => x ≠ e) (edges g))).
Proof.
  intros (Hn & He & Hin). split; [|split]; cbn; [done|by apply NoDup_filter|].
  intros u v [_ Huv]%list_elem_of_filter. by apply Hin.
Qed.

Lemma is_cycle_head_edge g c :
  is_cycle g c → ∃ e c', c = e :: c' ∧ e ∈ edges g.
Proof.
  intros (Hne & Hall & _). destruct c as [|e c']; [done|].
  exists e, c'. split; [done|]. by apply Forall_cons in Hall as [? _].
Qed.

Lemma filter_not_in_nil `{EqDecision A} (l : list A) :
  filter (fun e => e ∉ ([] : list A)) l = l.
Proof.
  induction l as [|x l IH]; [done|].
  rewrite filter_cons_True by apply not_elem_of_nil. by rewrite IH.
Qed.

Lemma filter_not_in_cons `{EqDecision A} (e : A) (removed l : list A) :
  filter (fun x => x ∉ removed) (filter (fun x => x ≠ e) l)
  = filter (fun x => x ∉ e :: removed) l.
Proof.
  rewrite list_filter_filter. apply list_filter_iff.
  intros x. rewrite not_elem_of_cons. tauto.
Qed.

Section ResolverFacts.
Context {nx : NetworkX}.

(** The loop only writes to the copy. *)
Lemma break_cycles_loop_frame fuel gc w w' :
  break_cycles_loop fuel gc w = Ok (tt, w') →
  length (objects w') = length (objects w)
  ∧ ∀ k, k ≠ gc → objects w' !! k = objects w !! k.
Proof.
  revert w. induction fuel as [|fuel IH]; intros w; [done|].
  cbn [break_cycles_loop]. unfold bind, read_graph.
  destruct (objects w !! gc) as [g|] eqn:Eg; [|done].
  destruct (find_cycle g) as [[|e c]|]; [done| |].
  - unfold remove_edge, print, write_graph, read_graph, lift, modify, bind.
    rewrite Eg. destruct (remove_edge_pure _ _ g) as [g1|]; [|done].
    cbv beta iota. intros [Hlen Hk]%IH. cbn in *. split.
    + by rewrite Hlen, length_insert.
    + intros k Hne. rewrite Hk by done. by rewrite list_lookup_insert_ne.
  - intros [= <-]. done.
Qed.

(** C10: [break_cycles] returns a reference to a new object and leaves
    every object that existed before the call, the input graph among
    them, exactly as it was. *)
Theorem break_cycles_leaves_input_unchanged fuel graph w r w' :
  break_cycles fuel graph w = Ok (r, w') →
  r = length (objects w) ∧ r ≠ graph
  ∧ is_Some (objects w !! graph)
  ∧ objects w' !! graph = objects w !! graph
  ∧ ∀ k, k < length (objects w) → objects w' !! k = objects w !! k.
Proof.
  unfold break_cycles, copy, read_graph, bind.
  destruct (objects w !! graph) as [g|] eqn:Eg; cbv beta iota; [|done].
  destruct (break_cycles_loop _ _ _) as [[[] w1]|] eqn:Eloop; [|done].
  intros [= <- <-]. apply break_cycles_loop_frame in Eloop as [_ Hk]. cbn in Hk.
  pose proof (lookup_lt_Some _ _ _ Eg) as Hlt.
  assert (∀ k, k < length (objects w) → objects w1 !! k = objects w !! k) as Hall.
  { intros k Hklt. rewrite Hk by lia. by apply lookup_app_l. }
  split; [done|]. split; [lia|]. split; [by eexists|]. split; [|done].
  rewrite <- Eg. by apply Hall.
Qed.

Context {nx_spec : NetworkXSpec nx}.

(** The loop stops within as many rounds as the graph has edges, on an
    acyclic graph, having printed one line for each edge it removed. *)
Lemma break_cycles_loop_spec fuel gc w g :
  objects w !! gc = Some g → wf_DiGraph g → length (edges g) < fuel →
  ∃ removed g',
    break_cycles_loop fuel gc w
    = Ok (tt, mkWorld (<[gc := g']> (objects w))
                      (stdout w ++ (removed_edge_line <$> removed)))
    ∧ wf_DiGraph g' ∧ acyclic g' ∧ nodes g' = nodes g
    ∧ edges g' = filter (fun e => e ∉ removed) (edges g)
    ∧ NoDup removed ∧ removed ⊆ edges g.
Proof.
  revert w g. induction fuel as [|fuel IH]; intros w g Hg Hwf Hfuel; [lia|].
  cbn [break_cycles_loop]. unfold bind, read_graph. rewrite Hg.
  destruct (find_cycle g) as [c|] eqn:Ec.
  - destruct (is_cycle_head_edge g c (find_cycle_Some g c Hwf Ec))
      as (e & c' & -> & He).
    unfold remove_edge, print, write_graph, read_graph, lift, modify, bind.
    rewrite Hg. rewrite remove_edge_pure_Ok by by destruct e.
    cbv beta iota. replace (e.1, e.2) with e by by destruct e.
    set (g1 := mkDiGraph (nodes g) (filter (fun x => x ≠ e) (edges g))).
    set (w1 := mkWorld _ _).
    destruct (IH w1 g1) as (removed & g' & Hrun & Hwf' & Hac & Hn & Hed & Hnd & Hsub).
    { cbn. apply list_lookup_insert_eq. by eapply lookup_lt_Some. }
    { by apply remove_edge_wf. }
    { cbn. eapply Nat.lt_le_trans; [|apply Nat.lt_succ_r, Hfuel].
      apply (length_filter_lt _ _ e); [done|]. by intros []. }
    exists (e :: removed), g'. rewrite Hrun. cbn.
    rewrite list_insert_insert_eq, <- app_assoc.
    split; [done|]. split; [done|]. split; [done|]. split; [done|].
    split; [by rewrite Hed; apply filter_not_in_cons|].
    split.
    + apply NoDup_cons. split; [|done]. intros Hin. apply Hsub in Hin.
      cbn in Hin. apply list_elem_of_filter in Hin as [Hne _]. done.
    + intros x [->|Hx]%elem_of_cons; [done|]. apply Hsub in Hx.
      cbn in Hx. by apply list_elem_of_filter in Hx as [_ ?].
  - exists [], g. unfold ret. cbn. rewrite list_insert_id, app_nil_r by done.
    destruct w. split; [done|]. split; [done|].
    split; [by apply find_cycle_None|]. split; [done|].
    split; [by rewrite filter_not_in_nil|]. split; [constructor|].
    intros x Hx. by apply not_elem_of_nil in Hx.
Qed.

(** C3: with more fuel than the graph has edges, [break_cycles] returns:
    the result is a new graph on the same nodes, acyclic, whose edges are
    those of the input less the removed ones, and the output has grown by
    exactly one diagnostic line for each removed edge, in order. *)
Theorem break_cycles_terminates_acyclic fuel graph w g :
  objects w !! graph = Some g → wf_DiGraph g → length (edges g) < fuel →
  ∃ removed g',
    break_cycles fuel graph w
    = Ok (length (objects w),
          mkWorld (objects w ++ [g']) (stdout w ++ (removed_edge_line <$> removed)))
    ∧ acyclic g' ∧ wf_DiGraph g' ∧ nodes g' = nodes g
    ∧ edges g' = filter (fun e => e ∉ removed) (edges g)
    ∧ NoDup removed ∧ removed ⊆ edges g.
Proof.
  intros Hg Hwf Hfuel. unfold break_cycles, copy, read_graph, bind. rewrite Hg.
  cbv beta iota.
  set (w1 := mkWorld (objects w ++ [g]) (stdout w)).
  destruct (break_cycles_loop_spec fuel (length (objects w)) w1 g)
    as (removed & g' & Hrun & Hwf' & Hac & Hn & Hed & Hnd & Hsub); [|done..|].
  { cbn. by rewrite lookup_app_r, Nat.sub_diag by lia. }
  exists removed, g'. rewrite Hrun. unfold ret. cbn.
  rewrite insert_app_r_alt, Nat.sub_diag by lia. done.
Qed.

End ResolverFacts.


Lemma add_node_Ok r n w g :
  objects w !! r = Some g →
  add_node r n w = Ok (tt, mkWorld (<[r := add_node_pure n g]> (objects w)) (stdout w)).
Proof. intros H. unfold add_node, write_graph, read_graph, modify, bind. by rewrite H. Qed.

Lemma add_edge_Ok r u v w g :
  objects w !! r = Some g →
  add_edge r u v w = Ok (tt, mkWorld (<[r := add_edge_pure u v g]> (objects w)) (stdout w)).
Proof. intros H. unfold add_edge, write_graph, read_graph, modify, bind. by rewrite H. Qed.

Lemma for_each_add_edge r t refs w g :
  objects w !! r = Some g →
  for_each refs tt (fun table_ref _ => add_edge r t table_ref) w
  = Ok (tt, mkWorld (<[r := foldl (fun g table_ref => add_edge_pure t table_ref g) g refs]>
                       (objects w)) (stdout w)).
Proof.
  revert w g. induction refs as [|x refs IH]; intros w g Hg; cbn [for_each foldl].
  - unfold ret. rewrite list_insert_id by done. by destruct w.
  - unfold bind. rewrite (add_edge_Ok _ _ _ _ g) by done.
    rewrite (IH _ (add_edge_pure t x g)); cbn.
    + by rewrite list_insert_insert_eq.
    + apply list_lookup_insert_eq. by eapply lookup_lt_Some.
Qed.

Lemma for_each_instruction r arr w g :
  objects w !! r = Some g →
  for_each arr tt
    (fun instruction _ =>
       let '(table_name, referenced_tables) := analize_instruction instruction in
       if String.eqb table_name "" then ret tt
       else
         let* _ := add_node r table_name in
         for_each referenced_tables tt
           (fun table_ref _ => add_edge r table_name table_ref)) w
  = Ok (tt, mkWorld (<[r := foldl graph_step g arr]> (objects w)) (stdout w)).
Proof.
  revert w g. induction arr as [|i arr IH]; intros w g Hg; cbn [for_each foldl].
  - unfold ret. rewrite list_insert_id by done. by destruct w.
  - unfold bind at 1. unfold graph_step at 2.
    destruct (analize_instruction i) as [t refs].
    destruct (String.eqb t "").
    + unfold ret at 1. by apply IH.
    + unfold bind at 1. rewrite (add_node_Ok _ _ _ g) by done.
      rewrite (for_each_add_edge _ _ _ _ (add_node_pure t g)).
      2:{ cbn. apply list_lookup_insert_eq. by eapply lookup_lt_Some. }
      erewrite IH.
      2:{ cbn. apply list_lookup_insert_eq. rewrite length_insert.
          by eapply lookup_lt_Some. }
      cbn. by rewrite !list_insert_insert_eq.
Qed.

(** [create_graph] allocates one new object, the graph of the
    instructions, and prints nothing. *)
Lemma create_graph_Ok arr w :
  create_graph arr w
  = Ok (length (objects w), mkWorld (objects w ++ [graph_of arr]) (stdout w)).
Proof.
  unfold create_graph, new_DiGraph. unfold bind at 1. cbv beta iota.
  unfold bind at 1.
  erewrite for_each_instruction.
  2:{ cbn. by rewrite lookup_app_r, Nat.sub_diag by lia. }
  unfold ret. cbn. by rewrite insert_app_r_alt, Nat.sub_diag by lia.
Qed.

Lemma empty_DiGraph_wf : wf_DiGraph empty_DiGraph.
Proof.
  split; [constructor|]. split; [constructor|].
  intros u v H. by apply not_elem_of_nil in H.
Qed.

Lemma graph_step_wf g i : wf_DiGraph g → wf_DiGraph (graph_step g i).
Proof.
  intros Hwf. unfold graph_step. destruct (analize_instruction i) as [t refs].
  destruct (String.eqb t ""); [done|].
  apply add_node_pure_wf with (n := t) in Hwf. revert Hwf.
  generalize (add_node_pure t g). induction refs as [|x refs IH]; intros g' Hwf; [done|].
  cbn. by apply IH, add_edge_pure_wf.
Qed.

Lemma graph_of_wf arr : wf_DiGraph (graph_of arr).
Proof.
  unfold graph_of. generalize empty_DiGraph_wf. generalize empty_DiGraph.
  induction arr as [|i arr IH]; intros g Hwf; [done|].
  cbn. by apply IH, graph_step_wf.
Qed.


Section OrderFacts.
Context {nx : NetworkX} {nx_spec : NetworkXSpec nx}.


End OrderFacts.


(** ** The reference implementation meets the networkx contract *)

Lemma before_cons_head (n v : string) (o : list string) : v ∈ o → before (n :: o) n v.
Proof.
  intros [j Hj]%list_elem_of_lookup. exists 0%nat, (S j). repeat split; [done|lia].
Qed.

Lemma before_cons_tail (n u v : string) (o : list string) :
  before o u v → before (n :: o) u v.
Proof.
  intros (i & j & Hi & Hj & Hij). exists (S i), (S j). repeat split; [done..|lia].
Qed.

Lemma before_trans (l : list string) (a b c : string) :
  NoDup l → before l a b → before l b c → before l a c.
Proof.
  intros Hnd (i & j & Hi & Hj & Hij) (j' & k & Hj' & Hk & Hjk).
  assert (j = j') as <- by by eapply NoDup_lookup.
  exists i, k. repeat split; [done..|lia].
Qed.

Lemma before_irrefl (l : list string) (a : string) : NoDup l → ¬ before l a a.
Proof.
  intros Hnd (i & j & Hi & Hj & Hij).
  assert (i = j) by by eapply NoDup_lookup. lia.
Qed.

(** Along a walk whose edges all point forward in [l], the first tail
    comes before the last head. *)
Lemma walk_before (l : list string) (c : list (string * string)) e :
  NoDup l → Forall (fun x => before l x.1 x.2) (e :: c) → is_walk (e :: c) = true →
  ∃ z, last (e :: c) = Some z ∧ before l e.1 z.2.
Proof.
  intros Hnd. revert e. induction c as [|e2 c IH]; intros e Hall Hwalk.
  - exists e. split; [done|]. by apply Forall_cons in Hall as [? _].
  - apply Forall_cons in Hall as [He Hall].
    cbn [is_walk] in Hwalk. apply andb_true_iff in Hwalk as [Hmeet Hwalk].
    apply bool_decide_eq_true in Hmeet.
    destruct (IH e2 Hall Hwalk) as (z & Hz & Hbefore).
    exists z. split; [by rewrite last_cons_cons|].
    eapply before_trans; [done|exact He|]. by rewrite Hmeet.
Qed.

(** A graph that has a topological order has no cycle. *)
Lemma topological_order_acyclic g l : topological_order g l → acyclic g.
Proof.
  intros (Hnd & _ & Horder) c (Hne & Hall & Hwalk & Hclose).
  destruct c as [|e c]; [done|].
  destruct (walk_before l c e Hnd) as (z & Hz & Hbefore); [|done|].
  { eapply Forall_impl; [exact Hall|]. intros [u v] Huv. by apply Horder. }
  rewrite Hz in Hclose. cbn in Hclose. injection Hclose as Hclose.
  rewrite Hclose in Hbefore. by eapply before_irrefl.
Qed.

Lemma elem_of_nil_or (R : list string) : ∀ x, x ∈ R ↔ x ∈ [] ∨ x ∈ R.
Proof. intros x. split; [by right|]. by intros [?%not_elem_of_nil|?]. Qed.

Lemma before_nil (E : list (string * string)) (R : list string) :
  ∀ u v, u ∈ R → (u, v) ∈ E → v ∈ [] → before [] u v.
Proof. by intros u v _ _ ?%not_elem_of_nil. Qed.

Module ReferenceFacts.
Import Reference.

Lemma pred_in_Some E R n p : pred_in E R n = Some p → p ∈ R ∧ (p, n) ∈ E.
Proof.
  unfold pred_in. intros ([i q] & Hfind & ->)%fmap_Some.
  apply list_find_Some in Hfind as (Hi & Hq & _).
  split; [by eapply list_elem_of_lookup_2|done].
Qed.

Lemma pred_in_None E R n p : pred_in E R n = None → p ∈ R → (p, n) ∉ E.
Proof.
  unfold pred_in. intros Hfind%fmap_None Hp.
  apply list_find_None in Hfind. by eapply Forall_forall in Hfind.
Qed.

(** What [kahn] returns: an order of distinct nodes in which every node
    comes after its predecessors, and a remainder in which, given enough
    fuel, every node has a predecessor. *)
Lemma kahn_spec fuel E R o r :
  NoDup R → kahn fuel E R = (o, r) →
  NoDup o ∧ NoDup r
  ∧ (∀ x, x ∈ R ↔ x ∈ o ∨ x ∈ r)
  ∧ (∀ u v, u ∈ R → (u, v) ∈ E → v ∈ o → before o u v)
  ∧ ((length R ≤ fuel)%nat → ∀ n, n ∈ r → ∃ p, p ∈ r ∧ (p, n) ∈ E).
Proof.
  revert R o r. induction fuel as [|fuel IH]; intros R o r Hnd.
  - intros [= <- <-]. split; [constructor|]. split; [done|].
    split; [apply elem_of_nil_or|]. split; [apply before_nil|].
    intros Hlen n Hn. destruct R; [by apply not_elem_of_nil in Hn|cbn in Hlen; lia].
  - cbn [kahn]. destruct (list_find _ R) as [[i n]|] eqn:Hfind.
    + apply list_find_Some in Hfind as (Hi & Hsrc & _).
      apply list_elem_of_lookup_2 in Hi.
      destruct (kahn fuel E (filter (fun x => x ≠ n) R)) as [o' r'] eqn:Hk.
      intros [= <- <-].
      destruct (IH _ _ _ (NoDup_filter _ _ Hnd) Hk)
        as (Hndo & Hndr & Hmem & Hord & Hstuck).
      assert (∀ x, x ∈ o' → x ≠ n) as Ho'.
      { intros x Hx. assert (x ∈ filter (λ x, x ≠ n) R) as Hf by (apply Hmem; by left).
        by apply list_elem_of_filter in Hf as [? _]. }
      split; [apply NoDup_cons; split; [|done]; intros Hin; by apply (Ho' n)|].
      split; [done|]. split; [|split].
      * intros x. rewrite elem_of_cons. specialize (Hmem x).
        rewrite list_elem_of_filter in Hmem.
        destruct (decide (x = n)) as [->|Hne]; [tauto|]. tauto.
      * intros u v Hu Huv [->|Hv]%elem_of_cons.
        { by destruct (pred_in_None E R n u Hsrc Hu). }
        destruct (decide (u = n)) as [->|Hne]; [by apply before_cons_head|].
        apply before_cons_tail, Hord; [|done..].
        by apply list_elem_of_filter.
      * intros Hlen. apply Hstuck.
        pose proof (length_filter_lt (λ x, x ≠ n) R n Hi) as Hlt.
        specialize (Hlt ltac:(by intros [])). lia.
    + intros [= <- <-]. split; [constructor|]. split; [done|].
      split; [apply elem_of_nil_or|]. split; [apply before_nil|].
      intros _ n Hn. apply list_find_None in Hfind.
      eapply Forall_forall in Hfind; [|exact Hn].
      destruct (pred_in E R n) as [p|] eqn:Hp; [|done].
      exists p. by apply pred_in_Some in Hp.
Qed.

Lemma is_walk_walk_edges w : is_walk (walk_edges w) = true.
Proof.
  unfold walk_edges. induction w as [|a [|b [|c w]] IH]; try done.
  cbn [tail zip zip_with is_walk] in *. rewrite IH.
  by rewrite bool_decide_eq_true_2.
Qed.

Lemma walk_edges_cons a b w : walk_edges (a :: b :: w) = (a, b) :: walk_edges (b :: w).
Proof. reflexivity. Qed.

Lemma last_walk_edges a b w :
  snd <$> last (walk_edges (a :: b :: w)) = last (b :: w).
Proof.
  revert a b. induction w as [|c w IH]; intros a b; [done|].
  rewrite walk_edges_cons, walk_edges_cons, last_cons_cons.
  rewrite <- walk_edges_cons, IH. by rewrite last_cons_cons.
Qed.

Lemma take_until_head p n rest : ∃ t, take_until p (n :: rest) = n :: t.
Proof. cbn. case_decide; by eexists. Qed.

Lemma last_take_until p path : p ∈ path → last (take_until p path) = Some p.
Proof.
  induction path as [|x path IH]; [by intros ?%not_elem_of_nil|].
  intros Hin. cbn. case_decide as Hx; [by subst|].
  apply elem_of_cons in Hin as [->|Hin]; [done|].
  specialize (IH Hin). destruct (take_until p path) eqn:E; [done|].
  by rewrite last_cons_cons.
Qed.

Lemma walk_edges_take_until (P : string * string → Prop) p path :
  Forall P (walk_edges path) → Forall P (walk_edges (take_until p path)).
Proof.
  induction path as [|a [|b path] IH]; [done| |].
  - intros _. cbn. case_decide; constructor.
  - rewrite walk_edges_cons. intros [Hab Hrest]%Forall_cons.
    specialize (IH Hrest).
    destruct (take_until_head p b path) as [t Ht].
    change (take_until p (a :: b :: path))
      with (if decide (a = p) then [a] else a :: take_until p (b :: path)).
    case_decide; [constructor|].
    rewrite Ht in *. rewrite walk_edges_cons. by constructor.
Qed.

Lemma back_walk_S fuel E R path n :
  back_walk (S fuel) E R path n
  = match pred_in E R n with
    | None => None
    | Some p =>
        if decide (p ∈ path) then Some (p :: take_until p path)
        else back_walk fuel E R (p :: path) p
    end.
Proof. reflexivity. Qed.

(** A walk that is returned is a cycle. *)
Lemma back_walk_sound fuel E R rest n w :
  Forall (fun e => e ∈ E) (walk_edges (n :: rest)) →
  back_walk fuel E R (n :: rest) n = Some w →
  walk_edges w ≠ [] ∧ Forall (fun e => e ∈ E) (walk_edges w)
  ∧ (snd <$> last (walk_edges w)) = (fst <$> head (walk_edges w)).
Proof.
  revert rest n w. induction fuel as [|fuel IH]; intros rest n w Hpath; [done|].
  rewrite back_walk_S. destruct (pred_in E R n) as [p|] eqn:Hp; [|done].
  apply pred_in_Some in Hp as [_ Hpn].
  case_decide as Hin.
  - intros Hw. assert (w = p :: take_until p (n :: rest)) as -> by congruence.
    destruct (take_until_head p n rest) as [t Ht].
    pose proof (last_take_until p _ Hin) as Hlast.
    pose proof (walk_edges_take_until _ p _ Hpath) as Hall.
    rewrite Ht in *. rewrite walk_edges_cons.
    split; [done|]. split; [by constructor|].
    rewrite <- walk_edges_cons, last_walk_edges, Hlast. done.
  - apply IH. rewrite walk_edges_cons. by constructor.
Qed.

(** Where every node has a predecessor, the walk finds a cycle before it
    runs out of nodes. *)
Lemma back_walk_progress fuel E R path n :
  (∀ x, x ∈ R → ∃ p, p ∈ R ∧ (p, x) ∈ E) →
  n ∈ R → NoDup path → (∀ x, x ∈ path → x ∈ R) →
  length R < fuel + length path →
  is_Some (back_walk fuel E R path n).
Proof.
  intros Hstuck. revert path n.
  induction fuel as [|fuel IH]; intros path n Hn Hnd Hsub Hlen.
  - pose proof (submseteq_length _ _ (NoDup_submseteq _ _ Hnd Hsub)). lia.
  - rewrite back_walk_S. destruct (pred_in E R n) as [p|] eqn:Hp.
    + apply pred_in_Some in Hp as [HpR _]. case_decide as Hin; [done|].
      apply IH; [done|by constructor| |cbn; lia].
      intros x [->|Hx]%elem_of_cons; [done|by apply Hsub].
    + destruct (Hstuck n Hn) as (p & HpR & Hpn).
      by destruct (pred_in_None E R n p Hp HpR).
Qed.

Lemma topological_sort_sound g l :
  wf_DiGraph g → topological_sort g = Some l → topological_order g l.
Proof.
  intros (Hnd & _ & Hin). unfold topological_sort.
  destruct (kahn _ _ _) as [o [|x r]] eqn:Hk; [|done]. intros [= <-].
  destruct (kahn_spec _ _ _ _ _ Hnd Hk) as (Hndo & _ & Hmem & Hord & _).
  split; [done|]. split.
  - intros n. rewrite Hmem. split; [tauto|]. intros [?|?%not_elem_of_nil]; done.
  - intros u v Huv. destruct (Hin u v Huv) as [Hu Hv].
    apply Hord; [done..|]. apply Hmem in Hv as [?|?%not_elem_of_nil]; done.
Qed.

Lemma find_cycle_sound g c : find_cycle g = Some c → is_cycle g c.
Proof.
  unfold find_cycle. destruct (kahn _ _ _) as [o [|n r]]; [done|].
  intros (w & Hw & ->)%fmap_Some.
  apply back_walk_sound in Hw as (Hne & Hall & Hclose); [|constructor].
  split; [done|]. split; [done|]. split; [apply is_walk_walk_edges|done].
Qed.

(** Either the order is found or a cycle is. *)
Lemma topological_sort_None g :
  wf_DiGraph g → topological_sort g = None → is_Some (find_cycle g).
Proof.
  intros (Hnd & _ & _). unfold topological_sort, find_cycle.
  destruct (kahn (length (nodes g)) (edges g) (nodes g)) as [o r] eqn:Hk.
  destruct (kahn_spec _ _ _ _ _ Hnd Hk) as (_ & Hndr & _ & _ & Hstuck).
  destruct r as [|n r]; [done|]. intros _.
  destruct (back_walk_progress (S (length (n :: r))) (edges g) (n :: r) [n] n)
    as [w Hw]; [by apply Hstuck|by left|apply NoDup_singleton| |cbn; lia|].
  - intros x ->%list_elem_of_singleton. by left.
  - rewrite Hw. by eexists.
Qed.

Lemma find_cycle_complete g : wf_DiGraph g → find_cycle g = None → acyclic g.
Proof.
  intros Hwf Hnone. destruct (topological_sort g) as [l|] eqn:Hl.
  - by apply (topological_order_acyclic g l), topological_sort_sound.
  - destruct (topological_sort_None g Hwf Hl) as [c Hc]. congruence.
Qed.

Lemma is_directed_acyclic_graph_correct g :
  wf_DiGraph g → (is_directed_acyclic_graph g = true ↔ acyclic g).
Proof.
  intros Hwf. unfold is_directed_acyclic_graph.
  destruct (find_cycle g) as [c|] eqn:Hc.
  - split; [done|]. intros Hac. by destruct (Hac c (find_cycle_sound g c Hc)).
  - split; [|done]. intros _. by apply find_cycle_complete.
Qed.

Lemma topological_sort_complete g :
  wf_DiGraph g → acyclic g →
  ∃ l, topological_sort g = Some l ∧ topological_order g l.
Proof.
  intros Hwf Hac. destruct (topological_sort g) as [l|] eqn:Hl.
  - exists l. split; [done|]. by apply topological_sort_sound.
  - destruct (topological_sort_None g Hwf Hl) as [c Hc].
    by destruct (Hac c (find_cycle_sound g c Hc)).
Qed.

End ReferenceFacts.

Lemma reference_networkx_spec : NetworkXSpec reference_networkx.
Proof.
  split; cbn.
  - intros g c _. apply ReferenceFacts.find_cycle_sound.
  - apply ReferenceFacts.find_cycle_complete.
  - apply ReferenceFacts.is_directed_acyclic_graph_correct.
  - apply ReferenceFacts.topological_sort_complete.
Qed.

Lemma wf_DiGraphb_correct g : wf_DiGraphb g = true → wf_DiGraph g.
Proof.
  unfold wf_DiGraphb. intros [[Hn He]%andb_true_iff Hin]%andb_true_iff.
  apply bool_decide_eq_true in Hn, He. split; [done|]. split; [done|].
  intros u v Huv. rewrite forallb_forall in Hin.
  apply list_elem_of_In, Hin, andb_true_iff in Huv as [Hu Hv].
  by apply bool_decide_eq_true in Hu, Hv.
Qed.

Lemma mutual_graph_wf : wf_DiGraph Sample.mutual_graph.
Proof. apply wf_DiGraphb_correct. vm_compute. reflexivity. Qed.

Lemma break_cycles_terminates_acyclic_witness :
  ∃ removed g',
    break_cycles (nx := reference_networkx) 3 0 Sample.mutual_world
    = Ok (1%nat, mkWorld ([Sample.mutual_graph] ++ [g'])
                   ([] ++ (removed_edge_line <$> removed)))
    ∧ acyclic g' ∧ wf_DiGraph g' ∧ nodes g' = ["X"; "Y"]
    ∧ edges g' = filter (fun e => e ∉ removed) [("X", "Y"); ("Y", "X")]
    ∧ NoDup removed ∧ removed ⊆ [("X", "Y"); ("Y", "X")].
Proof.
  apply (break_cycles_terminates_acyclic (nx_spec := reference_networkx_spec)
           3 0 Sample.mutual_world Sample.mutual_graph).
  - reflexivity.
  - exact mutual_graph_wf.
  - cbn. lia.
Defined.

Lemma break_cycles_leaves_input_unchanged_witness :
  let w' := mkWorld [Sample.mutual_graph; mkDiGraph ["X"; "Y"] [("Y", "X")]]
              ["Removed edge to break cycle: ('X', 'Y')"] in
  1%nat = length (objects Sample.mutual_world) ∧ 1%nat ≠ 0%nat
  ∧ is_Some (objects Sample.mutual_world !! 0%nat)
  ∧ objects w' !! 0%nat = objects Sample.mutual_world !! 0%nat
  ∧ ∀ k, k < length (objects Sample.mutual_world) →
         objects w' !! k = objects Sample.mutual_world !! k.
Proof.
  intros w'.
  apply (break_cycles_leaves_input_unchanged (nx := reference_networkx)
           3 0 Sample.mutual_world 1 w').
  vm_compute. reflexivity.
Defined.


(** The run on the two mutually referencing tables: one edge is removed,
    one line is printed, and the two orders are each other's reverse. *)
Example mutual_tables_run :
  generate_sql_statements_in_topological_order (nx := reference_networkx)
    4 Sample.mutual Sample.empty_world
  = Ok ((1%nat, ["Y"; "X"; "Z"; ""], [""; "Z"; "X"; "Y"]),
        mkWorld [ mkDiGraph ["X"; "Y"; "Z"; ""] [("X", "Y"); ("Y", "X"); ("Z", "")];
                  mkDiGraph ["X"; "Y"; "Z"; ""] [("Y", "X"); ("Z", "")] ]
                ["Removed edge to break cycle: ('X', 'Y')"]).
Proof. vm_compute. reflexivity. Qed.

(** Acyclicity is all the loop reaches, not a smallest set of removed edges:
    on the two cycles that share A -> B the reference implementation, which
    meets the contract, has two edges removed, though without A -> B alone
    the graph is acyclic. *)
Example cycle_breaking_not_minimal :
  break_cycles (nx := reference_networkx) 6 0 (mkWorld [Sample.shared_edge_graph] [])
  = Ok (1%nat,
        mkWorld [ Sample.shared_edge_graph;
                  mkDiGraph ["D"; "C"; "B"; "A"] [("C", "A"); ("B", "D"); ("A", "B")] ]
                [ "Removed edge to break cycle: ('D', 'A')";
                  "Removed edge to break cycle: ('B', 'C')" ])
  ∧ acyclic (mkDiGraph ["D"; "C"; "B"; "A"]
               [("B", "C"); ("C", "A"); ("B", "D"); ("D", "A")]).
Proof.
  split; [vm_compute; reflexivity|].
  apply ReferenceFacts.is_directed_acyclic_graph_correct.
  - apply wf_DiGraphb_correct. vm_compute. reflexivity.
  - vm_compute. reflexivity.
Qed.

(** * Further properties *)

(** ** Identifier normalizer: the prefix step *)

Lemma split_once_no_colon c v :
  PyStr.has_char c v = false → PyStr.split_once c v = None.
Proof.
  induction v as [|a v IH]; [done|]. cbn [PyStr.has_char PyStr.split_once].
  intros [Ha Hv]%orb_false_elim. rewrite Ha, (IH Hv). done.
Qed.

Lemma split_once_first c p rest :
  PyStr.has_char c p = false →
  PyStr.split_once c (p +:+ String c rest) = Some (p, rest).
Proof.
  induction p as [|a p IH].
  - intros _. rewrite app_nil_l_s. cbn [PyStr.split_once].
    by rewrite Ascii.eqb_refl.
  - cbn [PyStr.has_char]. intros [Ha Hp]%orb_false_elim.
    rewrite app_cons_s. cbn [PyStr.split_once]. rewrite Ha, (IH Hp). done.
Qed.

(** X1 (process_prefix): the three documented scenarios, and the failure.
    A value [p:rest] whose prefix [p:] is a registered prefix becomes
    [p_rest], whatever [ns] is; with an unknown prefix it becomes the
    registered prefix of [ns], without its colons, then [_rest]; a value
    without colon gets the prefix of [ns].  When [ns] is not registered the
    last two raise [AttributeError]. *)
Theorem process_prefix_scenarios nsd ns p rest :
  PyStr.has_char ":" p = false →
  (in_values (p +:+ ":") nsd = true →
   process_prefix (p +:+ ":" +:+ rest) nsd ns = Ok (p +:+ "_" +:+ rest))
  ∧ (in_values (p +:+ ":") nsd = false →
     process_prefix (p +:+ ":" +:+ rest) nsd ns
     = match nsd !! ns with
       | Some d => Ok (PyStr.replace ":" "" d +:+ "_" +:+ rest)
       | None => Raise AttributeError
       end)
  ∧ process_prefix p nsd ns
    = match nsd !! ns with
      | Some d => Ok (PyStr.replace ":" "" d +:+ "_" +:+ p)
      | None => Raise AttributeError
      end.
Proof.
  intros Hp. unfold process_prefix.
  change (p +:+ ":" +:+ rest) with (p +:+ String ":" rest).
  rewrite (split_once_first _ _ _ Hp), (split_once_no_colon _ _ Hp).
  split; [|split]; [by intros ->|by intros ->|done].
Qed.

Lemma process_prefix_scenarios_witness :
  (in_values ("ds" +:+ ":") Sample.two_namespaces = true →
   process_prefix ("ds" +:+ ":" +:+ "Signature") Sample.two_namespaces Sample.XS
   = Ok ("ds" +:+ "_" +:+ "Signature"))
  ∧ (in_values ("ds" +:+ ":") Sample.two_namespaces = false →
     process_prefix ("ds" +:+ ":" +:+ "Signature") Sample.two_namespaces Sample.XS
     = match Sample.two_namespaces !! Sample.XS with
       | Some d => Ok (PyStr.replace ":" "" d +:+ "_" +:+ "Signature")
       | None => Raise AttributeError
       end)
  ∧ process_prefix "ds" Sample.two_namespaces Sample.XS
    = match Sample.two_namespaces !! Sample.XS with
      | Some d => Ok (PyStr.replace ":" "" d +:+ "_" +:+ "ds")
      | None => Raise AttributeError
      end.
Proof. apply (process_prefix_scenarios Sample.two_namespaces Sample.XS "ds" "Signature"). reflexivity. Defined.
(** ** Identifier normalizer: what the result is made of *)

Lemma split_once_Some_eq c s b r :
  PyStr.split_once c s = Some (b, r) → s = b +:+ String c r.
Proof.
  revert b. induction s as [|a s IH]; intros b; [done|].
  cbn [PyStr.split_once]. destruct (Ascii.eqb a c) eqn:Hac.
  - apply Ascii.eqb_eq in Hac as ->. intros [= <- <-]. by rewrite app_nil_l_s.
  - destruct (PyStr.split_once c s) as [[b' r']|]; [|done].
    intros [= <- <-]. rewrite app_cons_s. f_equal. by apply IH.
Qed.

Lemma has_char_delete c a d :
  PyStr.has_char c d = false →
  PyStr.has_char c (PyStr.replace (String a "") "" d) = false.
Proof.
  unfold PyStr.replace. induction d as [|x d IH]; [done|].
  cbn [PyStr.has_char]. intros [Hx Hd]%orb_false_elim.
  cbn [PyStr.replace_go String.length Nat.sub].
  destruct (String.prefix _ _).
  - rewrite app_nil_l_s. by apply IH.
  - cbn [PyStr.has_char]. by rewrite Hx, IH.
Qed.

Lemma has_char_underscore c s :
  underscore c ≠ c → PyStr.has_char c (map_chars underscore s) = false.
Proof.
  intros Hc. induction s as [|a s IH]; [done|].
  cbn [map_chars PyStr.has_char]. rewrite IH, orb_false_r.
  apply Ascii.eqb_neq. intros Ha. apply Hc. rewrite <- Ha. apply underscore_idem.
Qed.

(** X2 (sql_normalize): a space, a hyphen or a period never reaches the
    result, in either mode of the prefix step, as long as the registered
    prefix of [ns] has none. *)
Theorem sql_normalize_no_separator nsd x ns y (c : ascii) :
  c = " "%char ∨ c = "-"%char ∨ c = "."%char →
  (∀ n d, ns = Some n → nsd !! n = Some d → PyStr.has_char c d = false) →
  sql_normalize nsd x ns = Ok y →
  PyStr.has_char c y = false.
Proof.
  intros Hc Hd. rewrite sql_normalize_unfold. cbv zeta.
  assert (underscore c ≠ c) as Hu by (by destruct Hc as [->|[->| ->]]).
  assert (c ≠ "_"%char) as Hc_ by (by destruct Hc as [->|[->| ->]]).
  pose proof (has_char_underscore c (PyStr.lstrip (default "" x)) Hu) as Hs.
  fold (normalize_chars (default "" x)) in Hs.
  set (s := normalize_chars (default "" x)) in *.
  assert (PyStr.has_char c "_" = false) as H_.
  { cbn [PyStr.has_char]. rewrite orb_false_r. apply Ascii.eqb_neq. congruence. }
  destruct ns as [n|]; [|by intros [= <-]].
  destruct (_ && _); [|by intros [= <-]].
  unfold process_prefix. cbv zeta.
  destruct (PyStr.split_once ":" s) as [[p rest]|] eqn:Hsplit.
  - apply split_once_Some_eq in Hsplit. rewrite Hsplit, has_char_app in Hs.
    apply orb_false_elim in Hs as [Hp Hrest].
    cbn [PyStr.has_char] in Hrest. apply orb_false_elim in Hrest as [_ Hrest].
    destruct (in_values _ _).
    + intros [= <-]. by rewrite !has_char_app, Hp, H_, Hrest.
    + destruct (nsd !! n) as [d|] eqn:Hn; [|done]. intros [= <-].
      change (PyStr.replace_go ":" "" 0 d) with (PyStr.replace ":" "" d).
      rewrite !has_char_app, H_, Hrest, (has_char_delete _ _ _ (Hd n d eq_refl Hn)). done.
  - destruct (nsd !! n) as [d|] eqn:Hn; [|done]. intros [= <-].
    change (PyStr.replace_go ":" "" 0 d) with (PyStr.replace ":" "" d).
    rewrite !has_char_app, H_, Hs, (has_char_delete _ _ _ (Hd n d eq_refl Hn)). done.
Qed.

Lemma sql_normalize_no_separator_witness :
  sql_normalize Sample.two_namespaces (Some "  first-name.x y") (Some Sample.XS)
  = Ok "xs_first_name_x_y"
  ∧ PyStr.has_char " " "xs_first_name_x_y" = false.
Proof.
  assert (sql_normalize Sample.two_namespaces (Some "  first-name.x y") (Some Sample.XS)
          = Ok "xs_first_name_x_y") as H by (vm_compute; reflexivity).
  split; [exact H|].
  apply (sql_normalize_no_separator Sample.two_namespaces (Some "  first-name.x y")
           (Some Sample.XS) _ " "); [by left| |exact H].
  intros n d [= <-]. vm_compute. by intros [= <-].
Defined.

(** X3 (sql_normalize): [None], the empty string and a string of white
    space give the empty string, for every [ns], registered or not, and
    every number of registered namespaces. *)
Theorem sql_normalize_blank nsd x ns :
  not_blank x = false → sql_normalize nsd x ns = Ok "".
Proof.
  intros Hx. rewrite sql_normalize_unfold. cbv zeta.
  assert (normalize_chars (default "" x) = "") as ->.
  { unfold normalize_chars. destruct x as [s|]; [|done]. cbn in Hx |- *.
    apply negb_false_iff, String.eqb_eq in Hx. by rewrite Hx. }
  destruct ns; [|done]. cbn. by rewrite andb_false_r.
Qed.

Lemma sql_normalize_blank_witness :
  sql_normalize Sample.two_namespaces (Some "   ") (Some "unregistered") = Ok "".
Proof. apply sql_normalize_blank. reflexivity. Defined.
(** ** Table / column accumulator: how commits compose *)

Lemma commit_HASH_TABLE_TABLES_GENERATED name new st :
  HASH_TABLE_TABLES_GENERATED (commit name new st)
  = <[name := 1%Z]> (HASH_TABLE_TABLES_GENERATED st).
Proof. done. Qed.

Lemma commit_USER_TYPES name new st : USER_TYPES (commit name new st) = USER_TYPES st.
Proof. done. Qed.

Lemma state_eq (a b : state) :
  NAMESPACE_DICT a = NAMESPACE_DICT b → USER_TYPES a = USER_TYPES b →
  HASH_TABLE_TABLES_GENERATED a = HASH_TABLE_TABLES_GENERATED b →
  TABLE_COLUMNS a = TABLE_COLUMNS b → dict_relationships a = dict_relationships b →
  a = b.
Proof. destruct a, b. cbn. by intros -> -> -> -> ->. Qed.

Lemma commit_commit_same name A B st :
  commit name B (commit name A st) = commit name (A ++ B) st.
Proof.
  apply state_eq; try done.
  - rewrite !commit_HASH_TABLE_TABLES_GENERATED. by rewrite insert_insert_eq.
  - rewrite !commit_TABLE_COLUMNS. rewrite lookup_insert_eq. cbn [default from_option].
    unfold id. rewrite insert_insert_eq. f_equal. set_solver.
Qed.

Lemma commit_comm n1 A n2 B st :
  commit n2 B (commit n1 A st) = commit n1 A (commit n2 B st).
Proof.
  destruct (decide (n1 = n2)) as [->|Hne].
  - rewrite !commit_commit_same. apply state_eq; try done.
    rewrite !commit_TABLE_COLUMNS. f_equal. set_solver.
  - apply state_eq; try done.
    + rewrite !commit_HASH_TABLE_TABLES_GENERATED. by apply insert_insert_ne.
    + rewrite !commit_TABLE_COLUMNS.
      rewrite !lookup_insert_ne by done. by apply insert_insert_ne.
Qed.

(** X4 (create_table_in_sql_sentence): two commits can be swapped.  When
    one order returns, the other returns too and leaves the same registries:
    neither the column sets nor the set of generated tables depend on the
    order in which the walker reaches the tables. *)
Theorem create_table_in_sql_sentence_comm cols1 t1 ns1 cols2 t2 ns2 st st' :
  (let* _ := create_table_in_sql_sentence cols1 t1 ns1 in
   create_table_in_sql_sentence cols2 t2 ns2) st = Ok (tt, st') →
  (let* _ := create_table_in_sql_sentence cols2 t2 ns2 in
   create_table_in_sql_sentence cols1 t1 ns1) st = Ok (tt, st').
Proof.
  unfold bind. rewrite !create_table_in_sql_sentence_unfold.
  destruct (create_primary_key (NAMESPACE_DICT st) t1 ns1) as [pk1|] eqn:Hpk1; [|done].
  destruct (sql_normalize (NAMESPACE_DICT st) t1 (Some ns1)) as [n1|] eqn:Hn1; [|done].
  rewrite !create_table_in_sql_sentence_unfold, !commit_NAMESPACE_DICT.
  destruct (create_primary_key (NAMESPACE_DICT st) t2 ns2) as [pk2|] eqn:Hpk2; [|done].
  destruct (sql_normalize (NAMESPACE_DICT st) t2 (Some ns2)) as [n2|] eqn:Hn2; [|done].
  rewrite !create_table_in_sql_sentence_unfold, !commit_NAMESPACE_DICT, Hpk1, Hn1.
  intros [= <-]. by rewrite commit_comm.
Qed.

Lemma create_table_in_sql_sentence_comm_witness :
  let st := Sample.start Sample.one_namespace in
  let st' := commit "Item" (new_columns "ItemId bigint PRIMARY KEY NOT NULL" (Some "Num int NULL"))
               (commit "Order" (new_columns "OrderId bigint PRIMARY KEY NOT NULL" (Some "")) st) in
  (let* _ := create_table_in_sql_sentence (Some "Num int NULL") (Some "Item") Sample.XS in
   create_table_in_sql_sentence (Some "") (Some "Order") Sample.XS) st = Ok (tt, st').
Proof.
  intros st st'.
  apply (create_table_in_sql_sentence_comm (Some "") (Some "Order") Sample.XS
           (Some "Num int NULL") (Some "Item") Sample.XS).
  vm_compute. reflexivity.
Defined.

Lemma split_go_not_nil sep k s : PyStr.split_go sep k s ≠ [].
Proof.
  revert k. induction s as [|c s IH]; intros k; [done|].
  cbn [PyStr.split_go]. destruct k; [|apply IH].
  destruct (String.prefix _ _); [done|].
  by destruct (PyStr.split_go sep 0 s).
Qed.

Lemma split_comma_cons c s :
  String.prefix ", " (String c s) = false →
  PyStr.split ", " (String c s)
  = match PyStr.split ", " s with
    | h :: t => String c h :: t
    | [] => [String c ""]
    end.
Proof. unfold PyStr.split. cbn [PyStr.split_go]. by intros ->. Qed.

Lemma split_comma_match s :
  PyStr.split ", " (String "," (String " " s)) = "" :: PyStr.split ", " s.
Proof.
  assert (String.prefix ", " (String "," (String " " s)) = true) as Hpre
    by (cbn; apply prefix_nil).
  unfold PyStr.split. cbn [PyStr.split_go]. rewrite Hpre. reflexivity.
Qed.

Lemma prefix_comma_app c a s :
  String c a ≠ "," →
  String.prefix ", " (String c a +:+ ", " +:+ s) = String.prefix ", " (String c a).
Proof.
  intros Ha. destruct a as [|d a].
  - rewrite app_cons_s, app_nil_l_s. cbn [String.prefix].
    destruct (ascii_dec "," c) as [<-|]; [done|reflexivity].
  - rewrite !app_cons_s. cbn [String.prefix]. destruct (ascii_dec _ c); [|done].
    destruct (ascii_dec _ d); [|done]. by rewrite !prefix_nil.
Qed.

(** The pieces of [a + ', ' + b] are the pieces of [a], then those of
    [b]. *)
Lemma split_comma_app_list a b :
  PyStr.split ", " (a +:+ ", " +:+ b) = (PyStr.split ", " a ++ PyStr.split ", " b)%list.
Proof.
  remember (String.length a) as n eqn:Hn. revert a Hn.
  induction n as [n IH] using lt_wf_ind. intros a Hn.
  destruct a as [|c a].
  - rewrite app_nil_l_s. change (", " +:+ b) with (String "," (String " " b)).
    by rewrite split_comma_match.
  - destruct (decide (String c a = ",")) as [Heq|Hne].
    + injection Heq as -> ->. rewrite app_cons_s, app_nil_l_s.
      change (", " +:+ b) with (String "," (String " " b)).
      rewrite (split_comma_cons "," (String "," _)) by reflexivity.
      rewrite split_comma_match. reflexivity.
    + destruct (String.prefix ", " (String c a)) eqn:Hpre.
      * destruct a as [|d a];
          [cbn [String.prefix] in Hpre; by destruct (ascii_dec _ c)|].
        assert (c = "," ∧ d = " ")%char as [-> ->].
        { cbn [String.prefix] in Hpre. destruct (ascii_dec _ c) as [<-|]; [|done].
          by destruct (ascii_dec _ d) as [<-|]. }
        rewrite !app_cons_s, !split_comma_match.
        rewrite (IH (String.length a)); [done|cbn in Hn; lia|done].
      * rewrite app_cons_s, split_comma_cons.
        2:{ rewrite <- app_cons_s, prefix_comma_app; done. }
        rewrite (split_comma_cons c a Hpre).
        rewrite (IH (String.length a)); [|cbn in Hn; lia|done].
        pose proof (split_go_not_nil ", " 0 a) as Hnil. unfold PyStr.split in *.
        by destruct (PyStr.split_go ", " 0 a).
Qed.

Lemma new_columns_concat_cols pk a b :
  (list_to_set (new_columns pk (concat_cols a b)) : gset string)
  = list_to_set (new_columns pk a ++ new_columns pk b).
Proof.
  unfold concat_cols. destruct b as [b|].
  - destruct (String.eqb (PyStr.lstrip b) "") eqn:Hb.
    + unfold new_columns at 3. cbn [not_blank]. rewrite Hb. cbn [negb].
      pose proof (elem_of_new_columns_pk pk a). set_solver.
    + destruct (not_blank a) eqn:Ha.
      * destruct a as [a|]; [|done]. cbn [default from_option]. unfold id.
        unfold new_columns. rewrite Ha. cbn [not_blank]. rewrite Hb.
        cbn in Ha. apply negb_true_iff, String.eqb_neq in Ha.
        rewrite (lstrip_app _ _ Ha).
        assert (String.eqb (PyStr.lstrip a +:+ ", " +:+ b) "" = false) as ->.
        { apply String.eqb_neq. by apply app_not_empty_l. }
        cbn [negb default from_option]. unfold id. rewrite split_comma_app_list.
        set_solver.
      * unfold new_columns. rewrite Ha. cbn [not_blank]. rewrite Hb. set_solver.
  - unfold new_columns at 3. cbn [not_blank].
    pose proof (elem_of_new_columns_pk pk a). set_solver.
Qed.

(** X5 (concat_cols, create_table_in_sql_sentence): committing the
    concatenation of two column strings is committing one after the other;
    a blank or missing part brings nothing but the primary key. *)
Theorem create_table_in_sql_sentence_concat_cols cols previous_cols table_name ns st :
  create_table_in_sql_sentence (concat_cols cols previous_cols) table_name ns st
  = (let* _ := create_table_in_sql_sentence cols table_name ns in
     create_table_in_sql_sentence previous_cols table_name ns) st.
Proof.
  unfold bind. rewrite !create_table_in_sql_sentence_unfold.
  destruct (create_primary_key (NAMESPACE_DICT st) table_name ns) as [pk|] eqn:Hpk; [|done].
  destruct (sql_normalize (NAMESPACE_DICT st) table_name (Some ns)) as [n|] eqn:Hn; [|done].
  rewrite create_table_in_sql_sentence_unfold, commit_NAMESPACE_DICT, Hpk, Hn.
  rewrite commit_commit_same. do 2 f_equal.
  apply state_eq; try done.
  rewrite !commit_TABLE_COLUMNS. by rewrite new_columns_concat_cols.
Qed.
(** ** Schema walker: the registries only grow *)

Lemma registries_grow_refl st : registries_grow st st.
Proof.
  split; [done|]. split; [done|]. split; [done|]. intros T cols HT. by exists cols.
Qed.

Lemma registries_grow_trans st1 st2 st3 :
  registries_grow st1 st2 → registries_grow st2 st3 → registries_grow st1 st3.
Proof.
  intros (Hn1 & Hu1 & Hh1 & Ht1) (Hn2 & Hu2 & Hh2 & Ht2).
  split; [congruence|]. split; [congruence|]. split; [by auto|].
  intros T cols [c2 [H2 Hs2]]%Ht1. apply Ht2 in H2 as [c3 [H3 Hs3]].
  exists c3. split; [done|]. set_solver.
Qed.

Lemma registries_grow_commit name new st : registries_grow st (commit name new st).
Proof.
  split; [done|]. split; [done|]. split.
  - intros T HT. rewrite commit_HASH_TABLE_TABLES_GENERATED.
    destruct (decide (name = T)) as [->|Hne];
      [by rewrite lookup_insert_eq|by rewrite lookup_insert_ne].
  - intros T cols HT. rewrite commit_TABLE_COLUMNS.
    destruct (decide (name = T)) as [->|Hne].
    + rewrite lookup_insert_eq, HT. eexists. split; [done|]. cbn. set_solver.
    + rewrite lookup_insert_ne by done. by exists cols.
Qed.

Lemma grows_ret {A} (a : A) : grows (ret a).
Proof. intros st a' st' [= _ <-]. apply registries_grow_refl. Qed.

Lemma grows_raise {A} e : grows (raise e : M A).
Proof. by intros st a st'. Qed.

Lemma grows_lift {A} (r : result A) : grows (lift r).
Proof. intros st a st'. unfold lift. destruct r; [|done]. intros [= _ <-]. apply registries_grow_refl. Qed.

Lemma grows_gets {A} (f : state → A) : grows (gets f).
Proof. intros st a st' [= _ <-]. apply registries_grow_refl. Qed.

Lemma grows_bind {A B} (m : M A) (k : A → M B) :
  grows m → (∀ a, grows (k a)) → grows (bind m k).
Proof.
  intros Hm Hk st b st'. unfold bind.
  destruct (m st) as [[a st1]|] eqn:Hmst; [|done].
  intros Hkst. eapply registries_grow_trans; [by eapply Hm|by eapply Hk].
Qed.

Lemma grows_for_each {A S} (l : list A) (s : S) (body : A → S → M S) :
  (∀ x s, grows (body x s)) → grows (for_each l s body).
Proof.
  intros Hbody. revert s. induction l as [|x l IH]; intros s; cbn [for_each].
  - apply grows_ret.
  - apply grows_bind; [apply Hbody|]. intros s'. apply IH.
Qed.

Lemma grows_modify_dict_relationships f : grows (modify (set_dict_relationships f)).
Proof.
  intros st a st' [= _ <-]. split; [done|]. split; [done|]. split; [done|].
  intros T cols HT. by exists cols.
Qed.

Lemma grows_create_table_in_sql_sentence cols table_name ns :
  grows (create_table_in_sql_sentence cols table_name ns).
Proof.
  intros st a st'. rewrite create_table_in_sql_sentence_unfold.
  destruct (create_primary_key _ _ _); [|done].
  destruct (sql_normalize _ _ _); [|done].
  intros [= _ <-]. apply registries_grow_commit.
Qed.

Ltac grow_step :=
  first
    [ apply grows_ret | apply grows_raise | apply grows_lift | apply grows_gets
    | apply grows_modify_dict_relationships
    | apply grows_create_table_in_sql_sentence
    | apply grows_bind; [|intros ?]
    | apply grows_for_each; intros ? ?
    | match goal with
      | |- grows (if ?b then _ else _) => destruct b
      | |- grows (match ?x with _ => _ end) => destruct x
      end ].

Lemma grows_remove_relationship parent_table foreign_key_name :
  grows (remove_relationship_dict_relationships parent_table foreign_key_name).
Proof. unfold remove_relationship_dict_relationships. cbv zeta. repeat grow_step. Qed.

Lemma grows_add_relationship parent_table foreign_key_name ref c replace_previous :
  grows (add_relationship_dict_relationships parent_table foreign_key_name ref c
           replace_previous).
Proof. unfold add_relationship_dict_relationships. cbv zeta. repeat grow_step. Qed.

Lemma grows_table_was_created name ns : grows (table_was_created name ns).
Proof. unfold table_was_created. repeat grow_step. Qed.

Lemma grows_create_fk_field el cols parent f r counter_choice ns :
  grows (create_fk_field el cols parent f r counter_choice ns).
Proof.
  unfold create_fk_field. cbv zeta.
  repeat first [apply grows_remove_relationship | apply grows_add_relationship | grow_step].
Qed.

Lemma grows_process_element el parent fail normalize counter_choice cols ns root :
  grows (process_element el parent fail normalize counter_choice cols ns root).
Proof.
  unfold process_element. cbv zeta.
  repeat first [apply grows_create_fk_field | grow_step].
Qed.

Lemma grows_look4element fuel root ns el parent recurse_level fail normalize counter_choice :
  grows (look4element fuel root ns el parent recurse_level fail normalize counter_choice).
Proof.
  revert el parent recurse_level fail normalize counter_choice.
  induction fuel as [|fuel IH]; intros el parent recurse_level fail normalize counter_choice;
    cbn [look4element]; [apply grows_raise|]. cbv zeta.
  repeat first
    [ apply IH | apply grows_process_element | apply grows_table_was_created | grow_step ].
Qed.

(** X6 (look4element, process_element, create_fk_field,
    create_table_in_sql_sentence): a walk that returns never touches the
    namespace and type registries, never forgets a generated table and never
    takes a column definition away from a table. *)
Theorem look4element_registries_grow fuel root ns el parent recurse_level fail normalize
    counter_choice st r st' :
  look4element fuel root ns el parent recurse_level fail normalize counter_choice st
  = Ok (r, st') →
  registries_grow st st'.
Proof. apply grows_look4element. Qed.

Lemma look4element_registries_grow_witness :
  let st := commit "Person" ["PersonId bigint PRIMARY KEY NOT NULL"; "Age int NULL"]
              (Sample.start Sample.one_namespace) in
  let st' :=
    set_dict_relationships <["f_schema_xsd;FK_f_schema_xsd_PersonId" := [("Person", "1..1")]]>
      (commit "f_schema_xsd"
         ["f_schema_xsdId bigint PRIMARY KEY NOT NULL"; "PersonId bigint NOT NULL";
          "CONSTRAINT FK_f_schema_xsd_PersonId FOREIGN KEY (PersonId) REFERENCES Person(PersonId)"]
         (commit "Person"
            ["PersonId bigint PRIMARY KEY NOT NULL"; "LastName nvarchar(max) NOT NULL"] st)) in
  registries_grow st st'.
Proof.
  intros st st'.
  apply (look4element_registries_grow 1002 Sample.person Sample.XS Sample.person
           (Some "f_schema_xsd") 0 false true 0 st (true, Some "") st').
  vm_compute. reflexivity.
Defined.
(** ** Foreign-key resolver: an upper bound of at most one *)

Lemma add_relationship_keep_unfold parent_table foreign_key_name ref c st :
  add_relationship_dict_relationships parent_table foreign_key_name ref c false st
  = Ok (tt, set_dict_relationships
              (fun d => match d !! relationship_key parent_table foreign_key_name with
                        | Some _ => d
                        | None => <[relationship_key parent_table foreign_key_name
                                    := [(ref, c)]]> d
                        end) st).
Proof.
  unfold add_relationship_dict_relationships, bind, gets, modify, ret. cbv beta iota zeta.
  rewrite orb_false_r.
  destruct (dict_relationships st !! relationship_key parent_table foreign_key_name)
    as [v|] eqn:Hk.
  - rewrite bool_decide_eq_true_2 by by exists v. cbn [negb].
    do 2 f_equal. destruct st. unfold set_dict_relationships. cbn in *. by rewrite Hk.
  - rewrite bool_decide_eq_false_2 by by intros [? ?]. cbn [negb].
    do 2 f_equal. unfold set_dict_relationships. by rewrite Hk.
Qed.

Lemma get_parent_table_name_registered nsd parent ns :
  is_Some (nsd !! ns) → ∃ y, get_parent_table_name nsd parent ns = Ok y.
Proof.
  intros Hns. destruct parent as [p|]; [|by exists ""].
  by apply sql_normalize_registered.
Qed.

(** X7 (create_fk_field): when the upper bound of the element is not
    "many", the foreign key goes to the parent: the returned column string
    is the given one, then the column [<field>Id bigint ...] and a
    constraint that references the other table.  The referenced table is
    registered with its primary key alone, and the relationship is recorded
    only if its key is still free: the first one recorded stays. *)
Theorem create_fk_field_one el cols parent f r counter_choice ns st c :
  is_Some (NAMESPACE_DICT st !! ns) →
  get_cardinality el = Ok c →
  upper_bound_is_many el = false →
  ∃ fk_field parent_fk ref col pk_ref st',
    let nsd := NAMESPACE_DICT st in
    let fk_name := get_foreign_key_name fk_field parent_fk in
    let constraint := fk_constraint fk_name fk_field ref (ref +:+ "Id") in
    let key := relationship_key parent_fk fk_name in
    sql_normalize nsd (Some (f +:+ "Id")) (Some ns) = Ok fk_field
    ∧ get_parent_table_name nsd parent ns = Ok parent_fk
    ∧ sql_normalize nsd (Some r) (Some ns) = Ok ref
    ∧ get_nullable_attribute_from_col_definition counter_choice el (fk_field +:+ " bigint")
      = Ok col
    ∧ create_primary_key nsd (Some r) ns = Ok pk_ref
    ∧ create_fk_field el cols parent (Some f) (Some r) counter_choice ns st
      = Ok ((if not_blank cols then default "" cols +:+ ", " else "")
            +:+ col +:+ ", " +:+ constraint, st')
    ∧ dict_relationships st'
      = match dict_relationships st !! key with
        | Some _ => dict_relationships st
        | None => <[key := [(ref, c)]]> (dict_relationships st)
        end
    ∧ TABLE_COLUMNS st'
      = <[ref := default ∅ (TABLE_COLUMNS st !! ref) ∪ {[pk_ref]}]> (TABLE_COLUMNS st)
    ∧ HASH_TABLE_TABLES_GENERATED st' = <[ref := 1%Z]> (HASH_TABLE_TABLES_GENERATED st).
Proof.
  intros Hns Hc Hone.
  pose proof (cardinality_right_is_n_spec el c Hc) as Hmany. rewrite Hone in Hmany.
  destruct (sql_normalize_registered (NAMESPACE_DICT st) (Some (f +:+ "Id")) ns Hns)
    as [fk_field Hfk].
  destruct (get_parent_table_name_registered (NAMESPACE_DICT st) parent ns Hns)
    as [parent_fk Hp].
  destruct (sql_normalize_registered (NAMESPACE_DICT st) (Some r) ns Hns) as [ref Hr].
  destruct (sql_normalize_registered (NAMESPACE_DICT st) (Some (r +:+ "Id")) ns Hns)
    as [rid Hrid].
  destruct (nullable_attribute_returns counter_choice el (fk_field +:+ " bigint") c Hc)
    as [col Hcol].
  assert (create_primary_key (NAMESPACE_DICT st) (Some r) ns
          = Ok (rid +:+ " bigint PRIMARY KEY NOT NULL")) as Hpk
    by (unfold create_primary_key, rbind; by rewrite Hrid).
  set (key := relationship_key parent_fk (get_foreign_key_name fk_field parent_fk)).
  set (st1 := set_dict_relationships
                (fun d => match d !! key with
                          | Some _ => d
                          | None => <[key := [(ref, c)]]> d
                          end) st).
  exists fk_field, parent_fk, ref, col, (rid +:+ " bigint PRIMARY KEY NOT NULL"),
    (commit ref (new_columns (rid +:+ " bigint PRIMARY KEY NOT NULL") (Some "")) st1).
  cbv zeta. fold key. split; [done|]. split; [done|]. split; [done|]. split; [done|].
  split; [done|]. split; [|split; [done|split]].
  - unfold create_fk_field, bind, gets, lift, ret; cbv beta iota zeta.
    rewrite Hfk; cbv beta iota. rewrite Hp; cbv beta iota.
    rewrite Hr; cbv beta iota. rewrite Hc; cbv beta iota. rewrite Hmany; cbv beta iota.
    rewrite add_relationship_keep_unfold; cbv beta iota. fold key. fold st1.
    rewrite Hcol; cbv beta iota.
    destruct (not_blank cols); cbn [negb]; cbv beta iota;
      rewrite create_table_in_sql_sentence_unfold;
      change (NAMESPACE_DICT st1) with (NAMESPACE_DICT st);
      rewrite Hpk, Hr.
    + by rewrite !app_assoc_s.
    + by rewrite !app_nil_l_s.
  - rewrite commit_TABLE_COLUMNS. cbn [new_columns not_blank PyStr.lstrip String.eqb negb].
    change (TABLE_COLUMNS st1) with (TABLE_COLUMNS st). f_equal. set_solver.
  - done.
Qed.

Lemma create_fk_field_one_witness :
  ∃ st',
    create_fk_field Sample.optional_nick (Some "Num int NOT NULL") (Some "Order")
      (Some "Nick") (Some "Nick") 0 Sample.XS (Sample.start Sample.one_namespace)
    = Ok ("Num int NOT NULL, NickId bigint NULL, CONSTRAINT FK_Order_NickId FOREIGN KEY (NickId) REFERENCES Nick(NickId)", st')
    ∧ dict_relationships st' !! "Order;FK_Order_NickId" = Some [("Nick", "0..1")]
    ∧ TABLE_COLUMNS st' !! "Nick" = Some {[ "NickId bigint PRIMARY KEY NOT NULL" ]}.
Proof.
  destruct (create_fk_field_one Sample.optional_nick (Some "Num int NOT NULL")
              (Some "Order") "Nick" "Nick" 0 Sample.XS
              (Sample.start Sample.one_namespace) "0..1")
    as (fk_field & parent_fk & ref & col & pk_ref & st' & Hfk & Hp & Hr & Hcol & Hpk
        & Hrun & Hdict & Htc & _);
    [by eexists|reflexivity|reflexivity|].
  assert (fk_field = "NickId") as -> by (vm_compute in Hfk; congruence).
  assert (parent_fk = "Order") as -> by (vm_compute in Hp; congruence).
  assert (ref = "Nick") as -> by (vm_compute in Hr; congruence).
  assert (col = "NickId bigint NULL") as -> by (vm_compute in Hcol; congruence).
  assert (pk_ref = "NickId bigint PRIMARY KEY NOT NULL") as ->
    by (vm_compute in Hpk; congruence).
  exists st'. split; [exact Hrun|]. rewrite Hdict, Htc. split; reflexivity.
Defined.

(** ** Schema walker: a leaf of a supported built-in type *)

Lemma DEFX2SQLSERVER_value k ty :
  DEFX2SQLSERVER !! k = Some (Some ty) →
  in_DEFX2SQLSERVER_values ty = true ∧ PyStr.truthy ty = true.
Proof.
  intros Hk. unfold DEFX2SQLSERVER in Hk.
  apply elem_of_list_to_map_2 in Hk.
  assert (Forall (fun kv => match kv.2 with
                            | Some v => PyStr.truthy v = true
                            | None => True
                            end) DEFX2SQLSERVER_items) as Hall
    by (repeat constructor).
  split.
  - apply bool_decide_eq_true. apply list_elem_of_fmap. by exists (k, Some ty).
  - rewrite Forall_forall in Hall. apply (Hall _ Hk).
Qed.

(** X8 (process_element): an element with a name, no [ref] and a supported
    built-in type, that is neither a generated table under a parent nor
    named like a complex type, appends exactly one column definition,
    [<name> <sql type> NULL] or [NOT NULL], to the columns it was given and
    leaves every registry as it was. *)
Theorem process_element_builtin_column el parent fail (normalize : bool) counter_choice
    cols ns root st name n prefix ty col :
  let thisType := default "string" (py_or (get el "type") (Some "string")) in
  let col_name := if normalize then n else name in
  get el "name" = Some name → name ≠ "" →
  get el "ref" = None →
  sql_normalize (NAMESPACE_DICT st) (Some name) (Some ns) = Ok n →
  (HASH_TABLE_TABLES_GENERATED st !! n = None ∨ parent = None ∨ parent = Some "") →
  not_blank parent && is_complex_type root ns (Some name) = false →
  NAMESPACE_DICT st !! ns = Some prefix →
  DEFX2SQLSERVER !! (PyStr.replace prefix "" thisType) = Some (Some ty) →
  get_nullable_attribute_from_col_definition counter_choice el (col_name +:+ " " +:+ ty)
  = Ok col →
  process_element el parent fail normalize counter_choice cols ns root st
  = Ok (Some (if py_not cols then col else default "" cols +:+ ", " +:+ col), st).
Proof.
  intros thisType col_name Hname Hne Href Hn Hgen Hcomplex Hprefix Hty Hcol.
  subst col_name.
  destruct (DEFX2SQLSERVER_value _ _ Hty) as [Hin Htruthy].
  assert (py_or (py_or (get el "type") (get el "ref")) (Some "string")
          = py_or (get el "type") (Some "string")) as Hor.
  { rewrite Href. by destruct (get el "type") as [[|]|]. }
  unfold process_element, bind, gets, lift, ret, raise; cbv beta iota zeta.
  rewrite Hname, Hn; cbv beta iota.
  assert (bool_decide (is_Some (HASH_TABLE_TABLES_GENERATED st !! n))
          && match parent with
             | Some p => negb (String.eqb p "")
             | None => false
             end = false) as ->.
  { destruct Hgen as [->|[->| ->]]; [|by rewrite andb_false_r..].
    by rewrite (bool_decide_eq_false_2 (is_Some None)) by by intros [? ?]. }
  rewrite Hcomplex, Hor. fold thisType. rewrite Href.
  rewrite (bool_decide_eq_false_2 (is_Some None)) by by intros [? ?].
  rewrite Hprefix; cbv beta iota.
  rewrite (SDict_get_supported _ _ _ Hty); cbv beta iota.
  cbn [py_not]. rewrite Htruthy. cbn [negb andb from_option default]. unfold id.
  rewrite Hin. cbn [negb py_not]. rewrite Htruthy. cbn [negb andb].
  assert (py_or (Some name) None = Some name) as ->
    by (by destruct name).
  cbn [py_str].
  destruct normalize.
  - rewrite Hn; cbv beta iota. rewrite Hcol; cbv beta iota. by destruct (py_not cols).
  - rewrite Hcol; cbv beta iota. by destruct (py_not cols).
Qed.

Lemma process_element_builtin_column_witness :
  process_element (Sample.leaf "First Name" "xs:string") (Some "Person") true true 0
    (Some "Age int NULL") Sample.XS Sample.person (Sample.start Sample.one_namespace)
  = Ok (Some "Age int NULL, First_Name nvarchar(max) NOT NULL",
        Sample.start Sample.one_namespace).
Proof.
  apply (process_element_builtin_column (Sample.leaf "First Name" "xs:string")
           (Some "Person") true true 0 (Some "Age int NULL") Sample.XS Sample.person
           (Sample.start Sample.one_namespace) "First Name" "First_Name" "xs:"
           "nvarchar(max)" "First_Name nvarchar(max) NOT NULL");
    try reflexivity; [done|by left].
Defined.
(** ** Cardinality *)

Lemma get_cardinality_cases el :
  get_cardinality el
  = match PyStr.int (get_default el "minOccurs" "1") with
    | None => Raise ValueError
    | Some m =>
        if String.eqb (get_default el "maxOccurs" "1") "unbounded"
        then Ok (PyStr.of_int m +:+ "..*")
        else match PyStr.int (get_default el "maxOccurs" "1") with
             | None => Raise ValueError
             | Some n => Ok (PyStr.of_int m +:+ ".." +:+ PyStr.of_int n)
             end
    end.
Proof.
  unfold get_cardinality, py_int, rbind.
  destruct (PyStr.int (get_default el "minOccurs" "1")) as [m|]; [|done].
  destruct (String.eqb (get_default el "maxOccurs" "1") "unbounded").
  - cbn [max_occurs_eq_star max_occurs_eq_int max_occurs_str andb].
    rewrite andb_true_r, andb_false_r.
    by destruct (Z.eqb_spec m 1) as [->|_].
  - destruct (PyStr.int (get_default el "maxOccurs" "1")) as [n|]; [|done].
    cbn [max_occurs_eq_star max_occurs_eq_int max_occurs_str].
    rewrite andb_false_r.
    destruct (Z.eqb_spec m 0) as [->|_]; cbn [andb]; [|done].
    by destruct (Z.eqb_spec n 1) as [->|_].
Qed.

(** X9 (get_cardinality): the result is always [<min>..<max>], with [*]
    for [unbounded]; the named cases of the source are instances of it.
    [ValueError] is raised exactly when [minOccurs] is not an integer, or
    [maxOccurs] is neither [unbounded] nor an integer. *)
Theorem get_cardinality_spec el :
  get_cardinality el
  = match PyStr.int (get_default el "minOccurs" "1") with
    | None => Raise ValueError
    | Some m =>
        if String.eqb (get_default el "maxOccurs" "1") "unbounded"
        then Ok (PyStr.of_int m +:+ "..*")
        else match PyStr.int (get_default el "maxOccurs" "1") with
             | None => Raise ValueError
             | Some n => Ok (PyStr.of_int m +:+ ".." +:+ PyStr.of_int n)
             end
    end.
Proof. apply get_cardinality_cases. Qed.

(** X10 (get_cardinality, cardinality_right_is_n): on a cardinality that
    [get_cardinality] returned, the test never raises, and it holds exactly
    when [maxOccurs] is [unbounded] or an integer above 1. *)
Theorem cardinality_right_is_n_of_get_cardinality el c :
  get_cardinality el = Ok c →
  cardinality_right_is_n c = Ok (upper_bound_is_many el).
Proof. apply cardinality_right_is_n_spec. Qed.

Lemma cardinality_right_is_n_of_get_cardinality_witness :
  cardinality_right_is_n "0..*" = Ok (upper_bound_is_many Sample.items).
Proof.
  apply (cardinality_right_is_n_of_get_cardinality Sample.items "0..*"). reflexivity.
Defined.

Lemma of_int_eqb_0 n : String.eqb (PyStr.of_int n) "0" = (n =? 0)%Z.
Proof.
  destruct (Z.eqb_spec n 0) as [->|Hne]; [reflexivity|].
  apply String.eqb_neq. intros Heq. apply Hne.
  by apply (inj (pretty : Z → string)).
Qed.

Lemma of_int_eqb_star n : String.eqb (PyStr.of_int n) "*" = false.
Proof.
  apply String.eqb_neq. intros Heq.
  pose proof (of_int_has_char "*" n eq_refl ltac:(done)) as Hno.
  by rewrite Heq in Hno.
Qed.

Lemma translate_of_int l i n :
  l !! i = Some (PyStr.of_int n) →
  translate_cardinality_to_plantuml_notation l i
  = Ok (if (n =? 0)%Z then "o" else if (1 <? n)%Z then "|{" else "||").
Proof.
  intros Hl. unfold translate_cardinality_to_plantuml_notation. rewrite Hl.
  rewrite of_int_eqb_0, of_int_eqb_star, of_int_isdigit.
  destruct (Z.eqb_spec n 0) as [->|Hne]; [done|].
  destruct (Z.leb_spec 0 n) as [Hle|Hlt].
  - unfold py_int, rbind. by rewrite int_of_int.
  - by destruct (Z.ltb_spec 1 n); [lia|].
Qed.

(** X11 (translate_cardinality_to_plantuml_notation, get_cardinality): on
    the two pieces of a cardinality that [get_cardinality] returned, the
    PlantUML end is [o] for a bound 0, [|{] for an integer above 1, [o{]
    for [unbounded], and [||] otherwise; no index or conversion error
    occurs. *)
Theorem plantuml_notation_of_cardinality el c :
  get_cardinality el = Ok c →
  ∃ m, PyStr.int (get_default el "minOccurs" "1") = Some m
       ∧ translate_cardinality_to_plantuml_notation (PyStr.split ".." c) 0
         = Ok (if (m =? 0)%Z then "o" else if (1 <? m)%Z then "|{" else "||")
       ∧ translate_cardinality_to_plantuml_notation (PyStr.split ".." c) 1
         = Ok (if String.eqb (get_default el "maxOccurs" "1") "unbounded" then "o{"
               else match PyStr.int (get_default el "maxOccurs" "1") with
                    | Some n =>
                        if (n =? 0)%Z then "o" else if (1 <? n)%Z then "|{" else "||"
                    | None => "||"
                    end).
Proof.
  rewrite get_cardinality_cases.
  destruct (PyStr.int (get_default el "minOccurs" "1")) as [m|]; [|done].
  destruct (String.eqb (get_default el "maxOccurs" "1") "unbounded").
  - intros [= <-]. exists m. split; [done|].
    change (PyStr.of_int m +:+ "..*") with (PyStr.of_int m +:+ ".." +:+ "*").
    rewrite split_dots_app by by apply of_int_has_char.
    split; [by apply translate_of_int|reflexivity].
  - destruct (PyStr.int (get_default el "maxOccurs" "1")) as [n|]; [|done].
    intros [= <-]. exists m. split; [done|].
    rewrite split_dots_app by by apply of_int_has_char.
    rewrite split_dots_single by by apply of_int_has_char.
    split; by apply translate_of_int.
Qed.

Lemma plantuml_notation_of_cardinality_witness :
  ∃ m, PyStr.int (get_default Sample.items "minOccurs" "1") = Some m
       ∧ translate_cardinality_to_plantuml_notation (PyStr.split ".." "0..*") 0
         = Ok (if (m =? 0)%Z then "o" else if (1 <? m)%Z then "|{" else "||")
       ∧ translate_cardinality_to_plantuml_notation (PyStr.split ".." "0..*") 1
         = Ok (if String.eqb (get_default Sample.items "maxOccurs" "1") "unbounded"
               then "o{"
               else match PyStr.int (get_default Sample.items "maxOccurs" "1") with
                    | Some n =>
                        if (n =? 0)%Z then "o" else if (1 <? n)%Z then "|{" else "||"
                    | None => "||"
                    end).
Proof. apply (plantuml_notation_of_cardinality Sample.items "0..*"). reflexivity. Defined.
(** ** Dependency graph: what the graph of the instructions holds *)

Lemma elem_of_nodes_add_node_pure m n g :
  m ∈ nodes (add_node_pure n g) ↔ m = n ∨ m ∈ nodes g.
Proof.
  unfold add_node_pure. case_bool_decide as Hn; cbn.
  - split; [by right|]. by intros [->|?].
  - rewrite elem_of_app, list_elem_of_singleton. tauto.
Qed.

Lemma edges_add_node_pure n g : edges (add_node_pure n g) = edges g.
Proof. unfold add_node_pure. by case_bool_decide. Qed.

Lemma elem_of_edges_add_edge_pure e u v g :
  e ∈ edges (add_edge_pure u v g) ↔ e = (u, v) ∨ e ∈ edges g.
Proof.
  unfold add_edge_pure. cbv zeta. case_bool_decide as Huv; cbn.
  - rewrite !edges_add_node_pure in *. split; [by right|]. by intros [->|?].
  - rewrite !edges_add_node_pure, elem_of_app, list_elem_of_singleton. tauto.
Qed.

Lemma elem_of_nodes_add_edge_pure m u v g :
  m ∈ nodes (add_edge_pure u v g) ↔ m = u ∨ m = v ∨ m ∈ nodes g.
Proof.
  unfold add_edge_pure. cbv zeta. case_bool_decide; cbn;
    rewrite !elem_of_nodes_add_node_pure; tauto.
Qed.

Lemma elem_of_edges_foldl_add_edge e t refs g :
  e ∈ edges (foldl (fun g table_ref => add_edge_pure t table_ref g) g refs)
  ↔ (e.1 = t ∧ e.2 ∈ refs) ∨ e ∈ edges g.
Proof.
  revert g. induction refs as [|x refs IH]; intros g; cbn [foldl].
  - split; [by right|]. by intros [[_ ?%not_elem_of_nil]|?].
  - rewrite IH, elem_of_edges_add_edge_pure, elem_of_cons. destruct e as [a b]. cbn.
    split.
    + intros [[-> ?]|[[= -> ->]|?]]; auto.
    + intros [[-> [->|?]]|?]; auto.
Qed.

Lemma elem_of_nodes_foldl_add_edge m t refs g :
  t ∈ nodes g →
  m ∈ nodes (foldl (fun g table_ref => add_edge_pure t table_ref g) g refs)
  ↔ m ∈ refs ∨ m ∈ nodes g.
Proof.
  revert g. induction refs as [|x refs IH]; intros g Ht; cbn [foldl].
  - split; [by right|]. by intros [?%not_elem_of_nil|?].
  - rewrite IH by (apply elem_of_nodes_add_edge_pure; auto).
    rewrite elem_of_nodes_add_edge_pure, elem_of_cons.
    split; [|tauto]. intros [?|[->|[->|?]]]; auto.
Qed.

Lemma elem_of_edges_graph_step e g i :
  e ∈ edges (graph_step g i)
  ↔ e ∈ edges g
    ∨ ((analize_instruction i).1 ≠ "" ∧ e.1 = (analize_instruction i).1
       ∧ e.2 ∈ (analize_instruction i).2).
Proof.
  unfold graph_step. destruct (analize_instruction i) as [t refs]. cbn [fst snd].
  destruct (String.eqb_spec t "") as [->|Hne].
  - split; [by left|]. by intros [?|[? _]].
  - rewrite elem_of_edges_foldl_add_edge, edges_add_node_pure. tauto.
Qed.

Lemma elem_of_nodes_graph_step m g i :
  m ∈ nodes (graph_step g i)
  ↔ m ∈ nodes g
    ∨ ((analize_instruction i).1 ≠ ""
       ∧ (m = (analize_instruction i).1 ∨ m ∈ (analize_instruction i).2)).
Proof.
  unfold graph_step. destruct (analize_instruction i) as [t refs]. cbn [fst snd].
  destruct (String.eqb_spec t "") as [->|Hne].
  - split; [by left|]. by intros [?|[? _]].
  - rewrite elem_of_nodes_foldl_add_edge by apply add_node_pure_elem.
    rewrite elem_of_nodes_add_node_pure. tauto.
Qed.

Lemma elem_of_edges_foldl_graph_step e g arr :
  e ∈ edges (foldl graph_step g arr)
  ↔ e ∈ edges g
    ∨ ∃ i, i ∈ arr ∧ (analize_instruction i).1 ≠ "" ∧ e.1 = (analize_instruction i).1
           ∧ e.2 ∈ (analize_instruction i).2.
Proof.
  revert g. induction arr as [|i arr IH]; intros g; cbn [foldl].
  - split; [by left|]. by intros [?|(i & ?%not_elem_of_nil & _)].
  - rewrite IH, elem_of_edges_graph_step. split.
    + intros [[?|?]|(j & ? & ?)]; [by left|right; exists i|right; exists j];
        (split; [set_solver|done]).
    + intros [?|(j & [->|?]%elem_of_cons & ?)]; [by left; left|by left; right|].
      right. by exists j.
Qed.

Lemma elem_of_nodes_foldl_graph_step m g arr :
  m ∈ nodes (foldl graph_step g arr)
  ↔ m ∈ nodes g
    ∨ ∃ i, i ∈ arr ∧ (analize_instruction i).1 ≠ ""
           ∧ (m = (analize_instruction i).1 ∨ m ∈ (analize_instruction i).2).
Proof.
  revert g. induction arr as [|i arr IH]; intros g; cbn [foldl].
  - split; [by left|]. by intros [?|(i & ?%not_elem_of_nil & _)].
  - rewrite IH, elem_of_nodes_graph_step. split.
    + intros [[?|?]|(j & ? & ?)]; [by left|right; exists i|right; exists j];
        (split; [set_solver|done]).
    + intros [?|(j & [->|?]%elem_of_cons & ?)]; [by left; left|by left; right|].
      right. by exists j.
Qed.

(** X13 (create_graph): the call never fails, allocates one graph and
    prints nothing.  The graph has an edge from [u] to [v] exactly when some
    instruction creates [u], a non-empty name, and lists [v] among its
    referenced tables; its nodes are these table names and what they
    reference. *)
Theorem create_graph_spec arr w :
  ∃ g,
    create_graph arr w
    = Ok (length (objects w), mkWorld (objects w ++ [g]) (stdout w))
    ∧ wf_DiGraph g
    ∧ (∀ u v, (u, v) ∈ edges g
              ↔ ∃ i, i ∈ arr ∧ u ≠ "" ∧ (analize_instruction i).1 = u
                     ∧ v ∈ (analize_instruction i).2)
    ∧ (∀ n, n ∈ nodes g
            ↔ ∃ i, i ∈ arr ∧ (analize_instruction i).1 ≠ ""
                   ∧ (n = (analize_instruction i).1 ∨ n ∈ (analize_instruction i).2)).
Proof.
  exists (graph_of arr). split; [apply create_graph_Ok|]. split; [apply graph_of_wf|].
  unfold graph_of. split.
  - intros u v. rewrite elem_of_edges_foldl_graph_step. cbn. split.
    + intros [?%not_elem_of_nil|(i & Hi & Hne & -> & Hv)]; [done|]. by exists i.
    + intros (i & Hi & Hne & <- & Hv). right. by exists i.
  - intros n. rewrite elem_of_nodes_foldl_graph_step. cbn. split.
    + by intros [?%not_elem_of_nil|?].
    + by right.
Qed.

(** ** Dependency graph: reading an instruction *)

Lemma all_chars_take_while p s : PyStr.all_chars p (take_while p s) = true.
Proof.
  induction s as [|c s IH]; [done|]. cbn [take_while].
  destruct (p c) eqn:Hc; [|done]. cbn [PyStr.all_chars]. by rewrite Hc, IH.
Qed.

Lemma search_create_table_no_space s name :
  search_create_table s = Some name →
  name ≠ "" ∧ PyStr.all_chars (fun c => negb (PyStr.isspace c)) name = true.
Proof.
  induction s as [|c s IH]; [done|]. cbn [search_create_table].
  destruct (String.prefix _ _); [|done].
  destruct (take_while _ _) as [|a t] eqn:Htake; [done|].
  intros [= <-]. split; [done|]. rewrite <- Htake. apply all_chars_take_while.
Qed.

Lemma lstrip_no_space s :
  PyStr.all_chars (fun c => negb (PyStr.isspace c)) s = true → PyStr.lstrip s = s.
Proof.
  destruct s as [|c s]; [done|]. cbn [PyStr.all_chars].
  intros [Hc _]%andb_true_iff. by apply lstrip_fixed, negb_true_iff.
Qed.

Lemma strip_no_space s :
  PyStr.all_chars (fun c => negb (PyStr.isspace c)) s = true → PyStr.strip s = s.
Proof.
  intros Hs. unfold PyStr.strip, PyStr.rstrip. rewrite (lstrip_no_space s Hs).
  rewrite lstrip_no_space; [apply rev_involutive_s|].
  unfold String.rev. rewrite all_chars_rev_app, Hs. reflexivity.
Qed.

Lemma strip_get_table_name i : PyStr.strip (get_table_name i) = get_table_name i.
Proof.
  unfold get_table_name.
  destruct (search_create_table _) as [name|] eqn:Hs; [|reflexivity].
  apply strip_no_space. by apply search_create_table_no_space in Hs as [_ ?].
Qed.

Lemma split_no_occurrence sep s : occurs sep s = false → PyStr.split sep s = [s].
Proof.
  unfold PyStr.split. induction s as [|c s IH]; [done|].
  cbn [occurs]. intros [Hpre Hs]%orb_false_elim.
  cbn [PyStr.split_go]. by rewrite Hpre, (IH Hs).
Qed.

(** X14 (analize_instruction, create_graph): an instruction that creates a
    table and has no [REFERENCES] gets the empty string as its only
    referenced table, so the graph gets an edge from the table to a node
    named by the empty string. *)
Theorem analize_instruction_without_references i arr :
  get_table_name i ≠ "" →
  occurs "REFERENCES" (PyStr.replace (String "010" "") "" i) = false →
  analize_instruction i = (get_table_name i, [""])
  ∧ (i ∈ arr → (get_table_name i, "") ∈ edges (graph_of arr)
               ∧ "" ∈ nodes (graph_of arr)).
Proof.
  intros Hname Hocc.
  assert (analize_instruction i = (get_table_name i, [""])) as Hai.
  { unfold analize_instruction. cbv zeta. rewrite strip_get_table_name.
    destruct (String.eqb_spec (get_table_name i) "") as [?|_]; [done|].
    by rewrite (split_no_occurrence _ _ Hocc). }
  split; [done|]. intros Hi. unfold graph_of. split.
  - apply elem_of_edges_foldl_graph_step. right. exists i. rewrite Hai. cbn.
    repeat split; [done..|]. by apply list_elem_of_singleton.
  - apply elem_of_nodes_foldl_graph_step. right. exists i. rewrite Hai. cbn.
    repeat split; [done..|]. right. by apply list_elem_of_singleton.
Qed.

Lemma analize_instruction_without_references_witness :
  analize_instruction "CREATE TABLE Z (ZId bigint PRIMARY KEY NOT NULL)" = ("Z", [""])
  ∧ ("CREATE TABLE Z (ZId bigint PRIMARY KEY NOT NULL)" ∈ Sample.mutual →
     ("Z", "") ∈ edges (graph_of Sample.mutual) ∧ "" ∈ nodes (graph_of Sample.mutual)).
Proof.
  apply (analize_instruction_without_references
           "CREATE TABLE Z (ZId bigint PRIMARY KEY NOT NULL)" Sample.mutual).
  - vm_compute. discriminate.
  - vm_compute. reflexivity.
Defined.

Lemma lstrip_spaces ws s :
  PyStr.all_chars PyStr.isspace ws = true → PyStr.lstrip (ws +:+ s) = PyStr.lstrip s.
Proof.
  induction ws as [|c ws IH]; [by rewrite app_nil_l_s|].
  cbn [PyStr.all_chars]. intros [Hc Hws]%andb_true_iff.
  rewrite app_cons_s. cbn [PyStr.lstrip]. rewrite Hc. by apply IH.
Qed.

Lemma take_while_no_space T rest :
  PyStr.all_chars (fun c => negb (PyStr.isspace c)) T = true →
  match rest with
  | EmptyString => True
  | String c _ => PyStr.isspace c = true
  end →
  take_while (fun c => negb (PyStr.isspace c)) (T +:+ rest) = T.
Proof.
  intros HT Hrest. induction T as [|c T IH].
  - rewrite app_nil_l_s. destruct rest as [|c r]; [done|]. cbn. by rewrite Hrest.
  - cbn [PyStr.all_chars] in HT. apply andb_true_iff in HT as [Hc HT].
    rewrite app_cons_s. cbn [take_while]. by rewrite Hc, (IH HT).
Qed.

(** X15 (get_table_name): from a statement written as white space,
    [CREATE TABLE ], a name without white space, and either nothing or
    something that starts with white space, the name is read back. *)
Theorem get_table_name_of_statement ws T rest :
  PyStr.all_chars PyStr.isspace ws = true →
  T ≠ "" →
  PyStr.all_chars (fun c => negb (PyStr.isspace c)) T = true →
  match rest with
  | EmptyString => True
  | String c _ => PyStr.isspace c = true
  end →
  get_table_name (ws +:+ "CREATE TABLE " +:+ T +:+ rest) = T.
Proof.
  intros Hws HT Hns Hrest. unfold get_table_name. rewrite (lstrip_spaces _ _ Hws).
  change ("CREATE TABLE " +:+ T +:+ rest)
    with (String "C" ("REATE TABLE " +:+ T +:+ rest)).
  rewrite lstrip_fixed by reflexivity.
  cbn [search_create_table].
  assert (String.prefix "CREATE TABLE " (String "C" ("REATE TABLE " +:+ T +:+ rest)) = true)
    as -> by (cbn; apply prefix_nil).
  change (string_drop 13 (String "C" ("REATE TABLE " +:+ T +:+ rest))) with (T +:+ rest).
  rewrite (take_while_no_space _ _ Hns Hrest). by destruct T.
Qed.

Lemma get_table_name_of_statement_witness :
  get_table_name ((String "010" " ") +:+ "CREATE TABLE " +:+ "xs_Person"
                  +:+ " (xs_PersonId bigint PRIMARY KEY NOT NULL);")
  = "xs_Person".
Proof.
  apply (get_table_name_of_statement (String "010" " ") "xs_Person"
           " (xs_PersonId bigint PRIMARY KEY NOT NULL);"); [reflexivity|done|reflexivity..].
Defined.
(** ** Dependency graph: a graph that has no cycle *)

Section AcyclicInput.
Context {nx : NetworkX} {nx_spec : NetworkXSpec nx}.

Lemma break_cycles_no_cycle fuel graph w g :
  objects w !! graph = Some g → wf_DiGraph g → acyclic g → (0 < fuel)%nat →
  break_cycles fuel graph w
  = Ok (length (objects w), mkWorld (objects w ++ [g]) (stdout w)).
Proof.
  intros Hg Hwf Hac Hfuel. destruct fuel as [|fuel]; [lia|].
  unfold break_cycles, copy, read_graph, bind. rewrite Hg. cbv beta iota.
  cbn [break_cycles_loop]. unfold bind, read_graph. cbn [objects].
  rewrite lookup_app_r, Nat.sub_diag by lia. cbn [lookup list_lookup].
  destruct (find_cycle g) as [c|] eqn:Hc.
  - by destruct (Hac c (find_cycle_Some g c Hwf Hc)).
  - reflexivity.
Qed.

(** X12 (break_cycles): on a graph without cycle nothing is removed and
    nothing is printed; the result is a new object that equals the input. *)
Theorem break_cycles_acyclic_input fuel graph w g :
  objects w !! graph = Some g → wf_DiGraph g → acyclic g → (0 < fuel)%nat →
  break_cycles fuel graph w
  = Ok (length (objects w), mkWorld (objects w ++ [g]) (stdout w)).
Proof. apply break_cycles_no_cycle. Qed.

(** X20 (generate_sql_statements_in_topological_order, create_graph,
    break_cycles): when the references of the instructions form no cycle,
    the run prints nothing and allocates two equal graphs, the one built
    and its copy; the deletion order is a topological order of the whole
    graph of the instructions, the creation order its reverse. *)
Theorem acyclic_instructions_keep_every_edge fuel arr w :
  acyclic (graph_of arr) → (0 < fuel)%nat →
  ∃ drop_order,
    generate_sql_statements_in_topological_order fuel arr w
    = Ok ((S (length (objects w)), drop_order, rev drop_order),
          mkWorld (objects w ++ [graph_of arr; graph_of arr]) (stdout w))
    ∧ topological_order (graph_of arr) drop_order.
Proof.
  intros Hac Hfuel. pose proof (graph_of_wf arr) as Hwf.
  unfold generate_sql_statements_in_topological_order, bind.
  rewrite create_graph_Ok.
  rewrite (break_cycles_no_cycle fuel _ _ (graph_of arr)); [|cbn|done..].
  2:{ by rewrite lookup_app_r, Nat.sub_diag by lia. }
  cbn [objects stdout]. unfold read_graph. cbn [objects].
  rewrite lookup_app_r, Nat.sub_diag by done. cbn [lookup list_lookup].
  rewrite (proj2 (is_directed_acyclic_graph_spec _ Hwf) Hac). cbn [negb].
  destruct (topological_sort_Some _ Hwf Hac) as (l & Hl & Horder).
  rewrite Hl. unfold lift, ret. exists l. split; [|done].
  rewrite length_app, Nat.add_1_r, <- app_assoc. done.
Qed.

End AcyclicInput.

Lemma acyclic_instructions_keep_every_edge_witness :
  let arr :=
    [ "CREATE TABLE Order (OrderId bigint PRIMARY KEY NOT NULL, ItemId bigint NOT NULL, CONSTRAINT FK_Order_ItemId FOREIGN KEY (ItemId) REFERENCES Item(ItemId))";
      "CREATE TABLE Item (ItemId bigint PRIMARY KEY NOT NULL)" ] in
  ∃ drop_order,
    generate_sql_statements_in_topological_order (nx := reference_networkx) 1 arr
      Sample.empty_world
    = Ok ((1%nat, drop_order, rev drop_order),
          mkWorld ([] ++ [graph_of arr; graph_of arr]) [])
    ∧ topological_order (graph_of arr) drop_order.
Proof.
  intros arr.
  apply (acyclic_instructions_keep_every_edge (nx_spec := reference_networkx_spec) 1 arr
           Sample.empty_world); [|lia].
  apply (ReferenceFacts.is_directed_acyclic_graph_correct _ (graph_of_wf arr)).
  vm_compute. reflexivity.
Defined.

Lemma break_cycles_acyclic_input_witness :
  let g := mkDiGraph ["Order"; "Item"; ""] [("Order", "Item"); ("Item", "")] in
  break_cycles (nx := reference_networkx) 1 0 (mkWorld [g] [])
  = Ok (1%nat, mkWorld ([g] ++ [g]) []).
Proof.
  intros g.
  assert (wf_DiGraph g) as Hwf by (apply wf_DiGraphb_correct; vm_compute; reflexivity).
  apply (break_cycles_acyclic_input (nx_spec := reference_networkx_spec) 1 0
           (mkWorld [g] []) g); [reflexivity|exact Hwf| |lia].
  apply (ReferenceFacts.is_directed_acyclic_graph_correct g Hwf). vm_compute. reflexivity.
Defined.

(** ** Deletion statements *)

Lemma drop_inner_loop t l names :
  foldl (fun l create_table =>
           let table_name := get_table_name create_table in
           if negb (String.eqb table_name "") && String.eqb t table_name
           then (l ++ [drop_table_statement table_name])%list
           else l) l names
  = (l ++ (drop_table_statement
           <$> filter (fun n => n = t)
                 (filter (fun n => n ≠ "") (get_table_name <$> names))))%list.
Proof.
  revert l. induction names as [|i names IH]; intros l; cbn [foldl fmap list_fmap].
  - by rewrite app_nil_r.
  - rewrite IH. rewrite (filter_cons _ (get_table_name i)).
    destruct (String.eqb_spec (get_table_name i) "") as [Hi|Hi]; cbn [negb andb].
    + by rewrite decide_False by (by intros ?).
    + rewrite decide_True by done. rewrite filter_cons.
      destruct (String.eqb_spec t (get_table_name i)) as [Ht|Ht].
      * rewrite decide_True by done. cbn [fmap list_fmap]. by rewrite <- app_assoc.
      * by rewrite decide_False by (by intros ?).
Qed.

Lemma drop_outer_loop arr order l :
  foldl (fun list_drop_table_sentences table_graph =>
           foldl (fun l create_table =>
                    let table_name := get_table_name create_table in
                    if negb (String.eqb table_name "") && String.eqb table_graph table_name
                    then (l ++ [drop_table_statement table_name])%list
                    else l)
                 list_drop_table_sentences (rev arr)) l order
  = (l ++ (drop_table_statement
           <$> (order ≫= fun t => filter (fun n => n = t) (created_tables arr))))%list.
Proof.
  revert l. induction order as [|t order IH]; intros l; cbn [foldl].
  - by rewrite app_nil_r.
  - rewrite IH, drop_inner_loop. rewrite bind_cons, fmap_app, app_assoc. done.
Qed.

Lemma generate_drop_table_statements_unfold arr order :
  generate_drop_table_statements arr order
  = drop_table_statement
    <$> (order ≫= fun t => filter (fun n => n = t) (created_tables arr)).
Proof. unfold generate_drop_table_statements. by rewrite drop_outer_loop. Qed.

Lemma filter_eq_NoDup (t : string) (l : list string) :
  NoDup l → filter (fun n => n = t) l = if decide (t ∈ l) then [t] else [].
Proof.
  induction 1 as [|x l Hx Hnd IH]; [done|]. rewrite filter_cons, IH.
  destruct (decide (x = t)) as [->|Hne].
  - destruct (decide (t ∈ l)) as [?|_]; [done|].
    destruct (decide (t ∈ t :: l)) as [_|Hn]; [done|]. destruct Hn. by left.
  - destruct (decide (t ∈ l)) as [Hin|Hin].
    + destruct (decide (t ∈ x :: l)) as [_|Hn]; [done|]. destruct Hn. by right.
    + destruct (decide (t ∈ x :: l)) as [[?|?]%elem_of_cons|_]; done.
Qed.

(** X16 (generate_drop_table_statements): when no two instructions create
    the same table, the result holds one statement for every entry of
    [drop_order] that some instruction creates, in the order of
    [drop_order]; the empty name and the names that no instruction creates
    give none. *)
Theorem generate_drop_table_statements_spec arr order :
  NoDup (created_tables arr) →
  generate_drop_table_statements arr order
  = drop_table_statement <$> filter (fun t => t ∈ created_tables arr) order.
Proof.
  intros Hnd. rewrite generate_drop_table_statements_unfold. f_equal.
  induction order as [|t order IH]; [done|].
  rewrite bind_cons, IH, filter_cons, (filter_eq_NoDup _ _ Hnd).
  by destruct (decide (t ∈ created_tables arr)).
Qed.

Lemma generate_drop_table_statements_spec_witness :
  generate_drop_table_statements Sample.mutual ["Y"; ""; "X"; "W"]
  = drop_table_statement
    <$> filter (fun t => t ∈ created_tables Sample.mutual) ["Y"; ""; "X"; "W"].
Proof.
  apply (generate_drop_table_statements_spec Sample.mutual ["Y"; ""; "X"; "W"]).
  apply (bool_decide_unpack _). vm_compute. exact I.
Defined.
(** ** Type registry: the pre-pass over the user-defined types *)

Lemma user_types_grow_refl st : user_types_grow st st.
Proof. by repeat split. Qed.

Lemma user_types_grow_trans st1 st2 st3 :
  user_types_grow st1 st2 → user_types_grow st2 st3 → user_types_grow st1 st3.
Proof.
  intros (? & ? & ? & ? & Hk1) (? & ? & ? & ? & Hk2).
  repeat split; [congruence..|]. intros k Hk. by apply Hk2, Hk1.
Qed.

Lemma user_types_grow_insert k v st : user_types_grow st (set_USER_TYPES <[k := v]> st).
Proof.
  repeat split. intros k' Hk'. cbn.
  destruct (decide (k = k')) as [->|Hne];
    [by rewrite lookup_insert_eq|by rewrite lookup_insert_ne].
Qed.

Lemma for_each_user_types_grow {A S} (l : list A) (s : S) (body : A → S → M S) :
  (∀ x s st r st', body x s st = Ok (r, st') → user_types_grow st st') →
  ∀ st r st', for_each l s body st = Ok (r, st') → user_types_grow st st'.
Proof.
  intros Hbody. revert s. induction l as [|x l IH]; intros s st r st'; cbn [for_each].
  - intros [= _ <-]. apply user_types_grow_refl.
  - unfold bind. destruct (body x s st) as [[s1 st1]|] eqn:Hx; [|done].
    intros Hl. eapply user_types_grow_trans; [by eapply Hbody|by eapply IH].
Qed.

(** X17 (build_user_types): a pre-pass that returns has changed nothing
    but [USER_TYPES], and every key that was there is still there. *)
Theorem build_user_types_frame ns root_element st st' :
  build_user_types ns root_element st = Ok (tt, st') →
  NAMESPACE_DICT st' = NAMESPACE_DICT st
  ∧ HASH_TABLE_TABLES_GENERATED st' = HASH_TABLE_TABLES_GENERATED st
  ∧ TABLE_COLUMNS st' = TABLE_COLUMNS st
  ∧ dict_relationships st' = dict_relationships st
  ∧ ∀ k, is_Some (USER_TYPES st !! k) → is_Some (USER_TYPES st' !! k).
Proof.
  unfold build_user_types. unfold bind at 1.
  destruct (for_each (findall root_element (ns +:+ "element")) _ _ st)
    as [[[] st1]|] eqn:H1; [|done].
  intros H2. apply (user_types_grow_trans st st1 st').
  - eapply for_each_user_types_grow; [|exact H1].
    intros el [] s r s'. destruct (_ && _); [|intros [= _ <-]; apply user_types_grow_refl].
    unfold bind, gets, lift, modify.
    destruct (NAMESPACE_DICT s !! ns); [|done].
    destruct (SDict_get _ _); [|done].
    destruct (sql_normalize _ _ _); [|done].
    intros [= _ <-]. apply user_types_grow_insert.
  - eapply for_each_user_types_grow; [|exact H2].
    intros el [] s r s'. cbv zeta. unfold bind, gets, lift, modify.
    destruct (match find el _ with Some _ => _ | None => _ end); [|done].
    destruct (NAMESPACE_DICT s !! ns); [|done].
    destruct (sql_normalize _ _ _); [|done].
    intros [= _ <-]. apply user_types_grow_insert.
Qed.

Lemma build_user_types_frame_witness :
  let root :=
    mkElement (Sample.XS +:+ "schema") ∅
      [ Sample.leaf "Age" "xs:int";
        mkElement (Sample.XS +:+ "simpleType") {[ "name" := "Code" ]}
          [ mkElement (Sample.XS +:+ "restriction") {[ "base" := "xs:string" ]} [] ] ] in
  let st := set_USER_TYPES <["Old" := Some "bit"]> (Sample.start Sample.one_namespace) in
  let st' := set_USER_TYPES <["Code" := Some "string"]>
               (set_USER_TYPES <["Age" := Some "int"]> st) in
  NAMESPACE_DICT st' = NAMESPACE_DICT st
  ∧ HASH_TABLE_TABLES_GENERATED st' = HASH_TABLE_TABLES_GENERATED st
  ∧ TABLE_COLUMNS st' = TABLE_COLUMNS st
  ∧ dict_relationships st' = dict_relationships st
  ∧ ∀ k, is_Some (USER_TYPES st !! k) → is_Some (USER_TYPES st' !! k).
Proof.
  intros root st st'. apply (build_user_types_frame Sample.XS root st st').
  vm_compute. reflexivity.
Defined.

Lemma for_each_raises {A S} (l : list A) (s : S) (body : A → S → M S)
    (P : state → Prop) (x : A) (e : exn) :
  x ∈ l →
  (∀ s st, P st → body x s st = Raise e) →
  (∀ y s st, P st → match body y s st with
                    | Ok (_, st') => P st'
                    | Raise e' => e' = e
                    end) →
  ∀ st, P st → for_each l s body st = Raise e.
Proof.
  intros Hx Hraise Hstep. revert s.
  induction l as [|y l IH]; intros s st HP; [by apply not_elem_of_nil in Hx|].
  cbn [for_each]. unfold bind.
  pose proof (Hstep y s st HP) as Hy.
  apply elem_of_cons in Hx as [->|Hx]; [by rewrite Hraise|].
  destruct (body y s st) as [[s1 st1]|e']; [|by subst].
  by apply IH.
Qed.

(** X18 (build_user_types): with [ns] registered, one named [element]
    child of the root whose type is one of the unsupported built-in types
    is enough to end the pre-pass with [TypeError]. *)
Theorem build_user_types_unsupported ns root_element st prefix el name t :
  NAMESPACE_DICT st !! ns = Some prefix →
  el ∈ findall root_element (ns +:+ "element") →
  get el "name" = Some name → name ≠ "" →
  get el "type" = Some t → t ≠ "" →
  DEFX2SQLSERVER !! (PyStr.replace prefix "" t) = Some None →
  build_user_types ns root_element st = Raise TypeError.
Proof.
  intros Hns Hel Hname Hne Htype Hte Hunsupported.
  unfold build_user_types. unfold bind at 1.
  rewrite (for_each_raises _ _ _ (fun st => NAMESPACE_DICT st !! ns = Some prefix)
             el TypeError); [done|done| | |done].
  - intros [] s Hs. rewrite Hname, Htype.
    assert (py_not (Some name) = false) as -> by by destruct name.
    assert (py_not (Some t) = false) as -> by by destruct t.
    cbn [negb andb]. unfold bind, gets, lift. rewrite Hs. cbn [default from_option].
    unfold id. by rewrite (SDict_get_None_value _ _ Hunsupported).
  - intros y [] s Hs. destruct (_ && _); [|done].
    unfold bind, gets, lift, modify. rewrite Hs.
    destruct (SDict_get _ _) as [v|e'] eqn:Hget.
    + destruct (sql_normalize_registered (NAMESPACE_DICT s) (get y "name") ns)
        as [key ->]; [by eexists|done].
    + unfold SDict_get, percent_self, rbind in Hget.
      revert Hget. repeat case_match; congruence.
Qed.

Lemma build_user_types_unsupported_witness :
  build_user_types Sample.XS
    (mkElement (Sample.XS +:+ "schema") ∅
       [ Sample.leaf "Age" "xs:int"; Sample.leaf "Ref" "xs:IDREF" ])
    (Sample.start Sample.one_namespace)
  = Raise TypeError.
Proof.
  apply (build_user_types_unsupported Sample.XS _ _ "xs:" (Sample.leaf "Ref" "xs:IDREF")
           "Ref" "xs:IDREF"); try reflexivity; try done.
  apply list_elem_of_filter. split; [reflexivity|]. set_solver.
Defined.
(** ** The digits a string ends with *)

Lemma rev_app_app (a b acc : string) :
  String.rev_app (a +:+ b) acc = String.rev_app b (String.rev_app a acc).
Proof.
  revert acc. induction a as [|c a IH]; intros acc; [by rewrite app_nil_l_s|].
  rewrite app_cons_s. cbn [String.rev_app]. apply IH.
Qed.

Lemma rev_app_acc (a b : string) : String.rev_app a b = String.rev_app a "" +:+ b.
Proof.
  revert b. induction a as [|c a IH]; intros b; [by rewrite app_nil_l_s|].
  cbn [String.rev_app]. rewrite (IH (String c b)), (IH (String c "")).
  rewrite app_assoc_s, app_cons_s, app_nil_l_s. reflexivity.
Qed.

Lemma ends_with_integer_loop_spec r acc :
  ∃ r1 r2,
    r = r1 +:+ r2 ∧ PyStr.all_chars PyStr.isdigit_char r1 = true
    ∧ match r2 with
      | EmptyString => True
      | String c _ => PyStr.isdigit_char c = false
      end
    ∧ ends_with_integer_loop r acc = String.rev_app r1 acc.
Proof.
  revert acc. induction r as [|c r IH]; intros acc.
  - by exists "", "".
  - cbn [ends_with_integer_loop]. destruct (PyStr.isdigit_char c) eqn:Hc.
    + destruct (IH (String c acc)) as (r1 & r2 & -> & Hr1 & Hr2 & Hloop).
      exists (String c r1), r2. rewrite app_cons_s. cbn [PyStr.all_chars String.rev_app].
      by rewrite Hc, Hr1.
    + exists "", (String c r). by rewrite app_nil_l_s.
Qed.

(** X19 (ends_with_integer): the second component is the longest suffix of
    the string made of digits, and the first tells whether it is not
    empty. *)
Theorem ends_with_integer_spec s :
  ∃ rest,
    s = rest +:+ (ends_with_integer s).2
    ∧ PyStr.all_chars PyStr.isdigit_char (ends_with_integer s).2 = true
    ∧ (∀ r c, rest = r +:+ String c "" → PyStr.isdigit_char c = false)
    ∧ (ends_with_integer s).1 = PyStr.truthy (ends_with_integer s).2.
Proof.
  unfold ends_with_integer. cbv zeta. cbn [fst snd].
  destruct (ends_with_integer_loop_spec (String.rev s) "")
    as (r1 & r2 & Hrev & Hr1 & Hr2 & ->).
  assert (s = String.rev_app r2 "" +:+ String.rev_app r1 "") as Hs.
  { rewrite <- (rev_involutive_s s), Hrev. unfold String.rev.
    by rewrite rev_app_app, rev_app_acc. }
  assert (PyStr.all_chars PyStr.isdigit_char (String.rev_app r1 "") = true) as Hd
    by by rewrite all_chars_rev_app, Hr1.
  exists (String.rev_app r2 ""). split; [done|]. split; [done|]. split.
  - intros r c Hrest.
    assert (r2 = String c (String.rev_app r "")) as ->; [|done].
    rewrite <- (rev_involutive_s r2). unfold String.rev. rewrite Hrest.
    by rewrite rev_app_app.
  - unfold PyStr.isdigit. rewrite Hd, andb_true_r.
    by destruct (String.rev_app r1 "").
Qed.
(** ** Table / column accumulator: a committed table is a generated table *)

(** X21 (create_table_in_sql_sentence, table_was_created): after a commit
    to a table, [table_was_created] answers [True] for an element of that
    name, and asking changes nothing. *)
Theorem table_was_created_after_commit cols table_name ns st st' :
  create_table_in_sql_sentence cols table_name ns st = Ok (tt, st') →
  table_was_created table_name ns st' = Ok (true, st').
Proof.
  rewrite create_table_in_sql_sentence_unfold.
  destruct (create_primary_key _ _ _) as [pk|]; [|done].
  destruct (sql_normalize (NAMESPACE_DICT st) table_name (Some ns)) as [name|] eqn:Hn;
    [|done].
  intros [= <-]. unfold table_was_created, bind, gets, lift, ret.
  rewrite commit_NAMESPACE_DICT, Hn. cbv beta iota.
  rewrite commit_HASH_TABLE_TABLES_GENERATED, lookup_insert_eq.
  by rewrite bool_decide_eq_true_2 by by eexists.
Qed.

Lemma table_was_created_after_commit_witness :
  let st' := commit "xs_Person"
               (new_columns "xs_PersonId bigint PRIMARY KEY NOT NULL" (Some ""))
               (Sample.start Sample.two_namespaces) in
  table_was_created (Some "Person") Sample.XS st' = Ok (true, st').
Proof.
  intros st'.
  apply (table_was_created_after_commit (Some "") (Some "Person") Sample.XS
           (Sample.start Sample.two_namespaces) st').
  vm_compute. reflexivity.
Defined.

(** X22 (create_primary_key): for a table name that is not blank the
    primary-key column is the normalized table name followed by
    [Id bigint PRIMARY KEY NOT NULL]; without a table name the call raises
    [TypeError]. *)
Theorem create_primary_key_format nsd t ns :
  create_primary_key nsd None ns = Raise TypeError
  ∧ (PyStr.lstrip t ≠ "" →
     create_primary_key nsd (Some t) ns
     = match sql_normalize nsd (Some t) (Some ns) with
       | Ok name => Ok (name +:+ "Id bigint PRIMARY KEY NOT NULL")
       | Raise e => Raise e
       end).
Proof.
  split; [done|]. intros Ht. unfold create_primary_key, rbind.
  rewrite (sql_normalize_Id _ _ _ Ht).
  destruct (sql_normalize nsd (Some t) (Some ns)); [|done].
  by rewrite app_assoc_s.
Qed.

Lemma create_primary_key_format_witness :
  create_primary_key Sample.two_namespaces None Sample.XS = Raise TypeError
  ∧ (PyStr.lstrip "Order Line" ≠ "" →
     create_primary_key Sample.two_namespaces (Some "Order Line") Sample.XS
     = match sql_normalize Sample.two_namespaces (Some "Order Line") (Some Sample.XS) with
       | Ok name => Ok (name +:+ "Id bigint PRIMARY KEY NOT NULL")
       | Raise e => Raise e
       end).
Proof. apply (create_primary_key_format Sample.two_namespaces "Order Line" Sample.XS). Defined.

(** ** Type lookup *)

(** X23 (find_complex_type, is_complex_type): the lookup returns a
    [complexType] below the root that carries the name asked for, and
    [None] exactly when there is none, or when no name is asked for. *)
Theorem find_complex_type_spec root ns type_name :
  match find_complex_type root ns type_name with
  | Some ct =>
      ct ∈ descendants root ∧ tag ct = ns +:+ "complexType"
      ∧ get ct "name" = type_name ∧ is_Some type_name
      ∧ is_complex_type root ns type_name = true
  | None =>
      (type_name = None
       ∨ ∀ ct, ct ∈ descendants root → tag ct = ns +:+ "complexType" →
               get ct "name" ≠ type_name)
      ∧ is_complex_type root ns type_name = false
  end.
Proof.
  unfold is_complex_type.
  destruct (find_complex_type root ns type_name) as [ct|] eqn:Hfind.
  - unfold find_complex_type in Hfind. destruct type_name as [n|]; [|done].
    apply head_Some_elem_of in Hfind.
    apply list_elem_of_filter in Hfind as [Hname Hfind].
    apply list_elem_of_filter in Hfind as [Htag Hin]. by repeat split.
  - split; [|done]. unfold find_complex_type in Hfind.
    destruct type_name as [n|]; [right|by left].
    apply head_None in Hfind. intros ct Hin Htag Hname.
    assert (ct ∈ filter (fun ct => get ct "name" = Some n)
                   (filter (fun c => tag c = ns +:+ "complexType") (descendants root)))
      as Hct by (by apply list_elem_of_filter; split; [|apply list_elem_of_filter]).
    rewrite Hfind in Hct. by apply not_elem_of_nil in Hct.
Qed.
